(** * retro/tables/shift_and_bin.pyx: the shift-and-bin kernel

    A shallow embedding of the Cython function [shift_and_bin], which
    shifts an (r, theta) photon table to every DOM position and
    aggregates it into five flattened Cartesian accumulators.

    Conventions of the embedding
    - C [int] and [unsigned int] values are integers in [Z] (entries of
      the uint32 index arrays in [N]) and no wrap-around is written.
      The definitions agree with the C arithmetic as long as the values
      fit their C types: the bin counts [nx], [ny], [nz] and their
      product in [unsigned int], [nr], [ntheta] and their product in a
      non-negative [int], the offsets of the overlap mapping in [int]
      after the cast of lines 301-303.  These ranges are the predicates
      [grid_in_range], [bins_in_range] and [offsets_in_range]; every
      theorem whose statement depends on them has them as hypotheses.
    - [np.empty] is taken to succeed.
    - C [double] values are real numbers ([R]): arithmetic is exact,
      rounding, overflow and NaN are outside the embedding.
    - The function is compiled with [boundscheck(False)] and
      [wraparound(False)]: an access outside an array is undefined.  The
      embedding raises the error [OutOfBounds] there.
    - The function is compiled with [cdivision(True)]: the operator
      [//] on C integers is the division of C, which truncates toward
      zero ([Z.quot]).  [/] on C integers, used once, in the check of
      line 252, is the same operation at the language level of the
      file; the theorems on the failure of that check assume
      [exact_count_check], under which a true division gives the same
      outcome. *)

From Stdlib Require Import ZArith Reals Lra Lia.
From stdpp Require Import base option list list_numbers.

Local Open Scope Z_scope.

(** ** Scalars *)

Definition double_lt (x y : R) : bool := if Rlt_dec x y then true else false.
Definition double_le (x y : R) : bool := if Rle_dec x y then true else false.
Definition double_ge (x y : R) : bool := if Rge_dec x y then true else false.
Definition double_gt (x y : R) : bool := if Rgt_dec x y then true else false.
Definition double_eq (x y : R) : bool := if Req_dec_T x y then true else false.

(** [round] of libc.math: to the nearest integer, halves away from zero. *)
Definition c_round (x : R) : Z :=
  if Rle_dec 0 x then Zfloor (x + / 2) else Zceil (x - / 2).

(** [ceil] of libc.math. *)
Definition c_ceil (x : R) : Z := Zceil x.

(** [a // b] and [a / b] on C integers under [cdivision(True)]. *)
Definition cdiv (a b : Z) : Z := Z.quot a b.

(** [range(n)] *)
Definition range (n : Z) : list Z := seqZ 0 n.

(** ** Data *)

Record inputs := {
  ind_arrays : list (list (N * N * N));
  vol_arrays : list (list R);
  dom_coords : list (R * R * R);
  survival_prob : list (list R);
  prho : list (list R);
  pz : list (list R);
  nr : Z;
  ntheta : Z;
  r_max : R;
  x_min : R;
  x_max : R;
  y_min : R;
  y_max : R;
  z_min : R;
  z_max : R;
  binwidth : R;
  oversample : Z;
  anisotropy : option (list R)
}.

(** The arrays the function writes: the two DOM-local scratch arrays
    and the five arrays owned by the caller. *)
Record state := {
  dom_binned_vol : list R;
  dom_binned_spv : list R;
  binned_spv : list R;
  binned_px_spv : list R;
  binned_py_spv : list R;
  binned_pz_spv : list R;
  binned_one_minus_sp : list R
}.

Inductive array_name :=
  | DomBinnedVol | DomBinnedSpv
  | BinnedSpv | BinnedPxSpv | BinnedPySpv | BinnedPzSpv | BinnedOneMinusSp.

#[global] Instance array_name_eq_dec : EqDecision array_name.
Proof. solve_decision. Defined.

Definition get_array (a : array_name) (st : state) : list R :=
  match a with
  | DomBinnedVol => dom_binned_vol st
  | DomBinnedSpv => dom_binned_spv st
  | BinnedSpv => binned_spv st
  | BinnedPxSpv => binned_px_spv st
  | BinnedPySpv => binned_py_spv st
  | BinnedPzSpv => binned_pz_spv st
  | BinnedOneMinusSp => binned_one_minus_sp st
  end.

Definition set_array (a : array_name) (l : list R) (st : state) : state :=
  match a with
  | DomBinnedVol =>
      {| dom_binned_vol := l; dom_binned_spv := dom_binned_spv st;
         binned_spv := binned_spv st; binned_px_spv := binned_px_spv st;
         binned_py_spv := binned_py_spv st; binned_pz_spv := binned_pz_spv st;
         binned_one_minus_sp := binned_one_minus_sp st |}
  | DomBinnedSpv =>
      {| dom_binned_vol := dom_binned_vol st; dom_binned_spv := l;
         binned_spv := binned_spv st; binned_px_spv := binned_px_spv st;
         binned_py_spv := binned_py_spv st; binned_pz_spv := binned_pz_spv st;
         binned_one_minus_sp := binned_one_minus_sp st |}
  | BinnedSpv =>
      {| dom_binned_vol := dom_binned_vol st; dom_binned_spv := dom_binned_spv st;
         binned_spv := l; binned_px_spv := binned_px_spv st;
         binned_py_spv := binned_py_spv st; binned_pz_spv := binned_pz_spv st;
         binned_one_minus_sp := binned_one_minus_sp st |}
  | BinnedPxSpv =>
      {| dom_binned_vol := dom_binned_vol st; dom_binned_spv := dom_binned_spv st;
         binned_spv := binned_spv st; binned_px_spv := l;
         binned_py_spv := binned_py_spv st; binned_pz_spv := binned_pz_spv st;
         binned_one_minus_sp := binned_one_minus_sp st |}
  | BinnedPySpv =>
      {| dom_binned_vol := dom_binned_vol st; dom_binned_spv := dom_binned_spv st;
         binned_spv := binned_spv st; binned_px_spv := binned_px_spv st;
         binned_py_spv := l; binned_pz_spv := binned_pz_spv st;
         binned_one_minus_sp := binned_one_minus_sp st |}
  | BinnedPzSpv =>
      {| dom_binned_vol := dom_binned_vol st; dom_binned_spv := dom_binned_spv st;
         binned_spv := binned_spv st; binned_px_spv := binned_px_spv st;
         binned_py_spv := binned_py_spv st; binned_pz_spv := l;
         binned_one_minus_sp := binned_one_minus_sp st |}
  | BinnedOneMinusSp =>
      {| dom_binned_vol := dom_binned_vol st; dom_binned_spv := dom_binned_spv st;
         binned_spv := binned_spv st; binned_px_spv := binned_px_spv st;
         binned_py_spv := binned_py_spv st; binned_pz_spv := binned_pz_spv st;
         binned_one_minus_sp := l |}
  end.

(** The five arrays of the caller. *)
Definition output_arrays : list array_name :=
  [BinnedSpv; BinnedPxSpv; BinnedPySpv; BinnedPzSpv; BinnedOneMinusSp].

(** ** The monad of the kernel: state and errors *)

Inductive error := AssertionError | OutOfBounds.

Inductive result (A : Type) :=
  | Ok (a : A) (st : state)
  | Raise (e : error) (st : state).
Arguments Ok {A} a st.
Arguments Raise {A} e st.

Definition M (A : Type) : Type := state -> result A.

#[global] Instance M_ret : MRet M := fun A a st => Ok a st.
#[global] Instance M_bind : MBind M := fun A B f m st =>
  match m st with
  | Ok a st' => f a st'
  | Raise e st' => Raise e st'
  end.

Definition raise {A} (e : error) : M A := fun st => Raise e st.

(** [assert b] *)
Definition assert_ (b : bool) : M unit :=
  if b then mret tt else raise AssertionError.

(** [l[i]] on an array or list that is only read. *)
Definition index {A} (l : list A) (i : Z) : M A :=
  if i <? 0 then raise OutOfBounds
  else match l !! Z.to_nat i with
       | Some a => mret a
       | None => raise OutOfBounds
       end.

(** [a[i]] on an array of the state. *)
Definition read (a : array_name) (i : Z) : M R :=
  fun st => index (get_array a st) i st.

(** [a[i] = v] *)
Definition write (a : array_name) (i : Z) (v : R) : M unit :=
  fun st =>
    if (i <? 0) || (Z.of_nat (length (get_array a st)) <=? i)
    then Raise OutOfBounds st
    else Ok tt (set_array a (<[Z.to_nat i := v]> (get_array a st)) st).

(** [a[i] += v] *)
Definition add_at (a : array_name) (i : Z) (v : R) : M unit :=
  x ← read a i; write a i (x + v)%R.

(** [a[i] *= v] *)
Definition mul_at (a : array_name) (i : Z) (v : R) : M unit :=
  x ← read a i; write a i (x * v)%R.

(** [a[:] = v] *)
Definition fill (a : array_name) (v : R) : M unit :=
  fun st => Ok tt (set_array a (replicate (length (get_array a st)) v) st).

(** [a = np.empty(n)]: the contents are unspecified and are overwritten
    by [fill] before they are read; the embedding takes zeros. *)
Definition alloc (a : array_name) (n : Z) : M unit :=
  fun st => Ok tt (set_array a (replicate (Z.to_nat n) 0%R) st).

(** [a.shape[0]] *)
Definition shape0 (a : array_name) : M Z :=
  fun st => Ok (Z.of_nat (length (get_array a st))) st.

(** [for x in l: body] *)
Fixpoint for_ {A} (l : list A) (body : A -> M unit) : M unit :=
  match l with
  | [] => mret tt
  | a :: l' => body a;; for_ l' body
  end.

(** ** The kernel *)

Section Kernel.

Variable inp : inputs.

Definition num_first_octant_pol_bins : Z := Z.of_nat (length (vol_arrays inp)).

Definition os_bw : R := (binwidth inp / IZR (oversample inp))%R.
Definition inv_os_bw : R := (1 / os_bw)%R.
Definition half_os_bw : R := (os_bw / 2)%R.

(** Lines 211-213: the rounded quotients, which the kernel casts to
    [unsigned int]; the cast keeps the value when it lies in
    [0, 2^32) ([grid_in_range]). *)
Definition nx : Z := c_round ((x_max inp - x_min inp) / binwidth inp)%R.
Definition ny : Z := c_round ((y_max inp - y_min inp) / binwidth inp)%R.
Definition nz : Z := c_round ((z_max inp - z_min inp) / binwidth inp)%R.

Definition ntheta_in_quad : Z := c_ceil (IZR (ntheta inp) / 2)%R.

(** Lines 313-319: the two hemispheres of one first-octant cell; the
    result is the pair [(z_idx, theta_idx_)]. *)
Definition hemisphere_branch (dom_z_os_idx z_os_idx theta_idx hemisphere : Z)
  : Z * Z :=
  if hemisphere =? 0
  then (cdiv (z_os_idx + dom_z_os_idx) (oversample inp), theta_idx)
  else (cdiv (-1 - z_os_idx + dom_z_os_idx) (oversample inp),
        ntheta inp - 1 - theta_idx).

(** Lines 333-359: the four quadrants; the result is
    [(x_idx, y_idx, px_, py_)]. *)
Definition quadrant_branch (dom_x_os_idx dom_y_os_idx x_os_idx y_os_idx : Z)
    (px_firstquad py_firstquad : R) (quadrant : Z) : Z * Z * R * R :=
  if quadrant =? 0 then
    (cdiv (x_os_idx + dom_x_os_idx) (oversample inp),
     cdiv (y_os_idx + dom_y_os_idx) (oversample inp),
     px_firstquad, py_firstquad)
  else if quadrant =? 1 then
    (cdiv (-1 - y_os_idx + dom_x_os_idx) (oversample inp),
     cdiv (x_os_idx + dom_y_os_idx) (oversample inp),
     (- py_firstquad)%R, px_firstquad)
  else if quadrant =? 2 then
    (cdiv (-1 - x_os_idx + dom_x_os_idx) (oversample inp),
     cdiv (-1 - y_os_idx + dom_y_os_idx) (oversample inp),
     (- px_firstquad)%R, (- py_firstquad)%R)
  else (* quadrant == 3 *)
    (cdiv (y_os_idx + dom_x_os_idx) (oversample inp),
     cdiv (-1 - x_os_idx + dom_y_os_idx) (oversample inp),
     py_firstquad, (- px_firstquad)%R).

(** Lines 333-371: the body of the loop on [quadrant]. *)
Definition quadrant_body (dom_x_os_idx dom_y_os_idx x_os_idx y_os_idx z_idx : Z)
    (vol spv px_firstquad py_firstquad pz_ : R) (quadrant : Z) : M unit :=
  let '(x_idx, y_idx, px_, py_) :=
    quadrant_branch dom_x_os_idx dom_y_os_idx x_os_idx y_os_idx
      px_firstquad py_firstquad quadrant in
  if (x_idx <? 0) || (nx <=? x_idx) || (y_idx <? 0) || (ny <=? y_idx)
  then mret tt
  else
    let flat_cart_ix := x_idx * ny * nz + y_idx * nz + z_idx in
    add_at DomBinnedVol flat_cart_ix vol;;
    add_at DomBinnedSpv flat_cart_ix spv;;
    add_at BinnedSpv flat_cart_ix spv;;
    add_at BinnedPxSpv flat_cart_ix (px_ * spv)%R;;
    add_at BinnedPySpv flat_cart_ix (py_ * spv)%R;;
    add_at BinnedPzSpv flat_cart_ix (pz_ * spv)%R.

(** Lines 313-371: the body of the loop on [hemisphere]. *)
Definition hemisphere_body (dom_x_os_idx dom_y_os_idx dom_z_os_idx : Z)
    (r_idx theta_idx x_os_idx y_os_idx z_os_idx : Z)
    (vol px_unnormed py_unnormed : R) (hemisphere : Z) : M unit :=
  let '(z_idx, theta_idx_) :=
    hemisphere_branch dom_z_os_idx z_os_idx theta_idx hemisphere in
  if (z_idx <? 0) || (nz <=? z_idx)
  then mret tt
  else
    sp_row ← index (survival_prob inp) r_idx;
    sp ← index sp_row theta_idx_;
    let spv := (sp * vol)%R in
    prho_row ← index (prho inp) r_idx;
    prho_ ← index prho_row theta_idx_;
    pz_row ← index (pz inp) r_idx;
    pz_ ← index pz_row theta_idx_;
    let px_firstquad := (px_unnormed * prho_)%R in
    let py_firstquad := (py_unnormed * prho_)%R in
    for_ (range 4)
      (quadrant_body dom_x_os_idx dom_y_os_idx x_os_idx y_os_idx z_idx
         vol spv px_firstquad py_firstquad pz_).

(** Lines 307-308: the centre of an oversampled bin of the first
    octant, along x or y. *)
Definition bin_center (os_idx : Z) : R := (IZR os_idx * os_bw + half_os_bw)%R.

(** Line 309: the divisor of [bin_pos_rho_norm]. *)
Definition bin_pos_rho (x_os_idx y_os_idx : Z) : R :=
  sqrt (bin_center x_os_idx * bin_center x_os_idx
        + bin_center y_os_idx * bin_center y_os_idx).

(** Lines 297-371: the body of the loop on the Cartesian bins [ix] of
    one polar bin.  The casts to [int] of lines 301-303 keep the
    offsets that are below 2^31 ([offsets_in_range]). *)
Definition cart_bin_body (dom_x_os_idx dom_y_os_idx dom_z_os_idx : Z)
    (r_idx theta_idx : Z) (vol_array : list R) (ind_array : list (N * N * N))
    (ix : Z) : M unit :=
  vol ← index vol_array ix;
  '(x_u, y_u, z_u) ← index ind_array ix;
  let x_os_idx := Z.of_N x_u in
  let y_os_idx := Z.of_N y_u in
  let z_os_idx := Z.of_N z_u in
  let px_unnormed := bin_center x_os_idx in
  let py_unnormed := bin_center y_os_idx in
  let bin_pos_rho_norm := (1 / bin_pos_rho x_os_idx y_os_idx)%R in
  let px_unnormed := (px_unnormed * bin_pos_rho_norm)%R in
  let py_unnormed := (py_unnormed * bin_pos_rho_norm)%R in
  for_ (range 2)
    (hemisphere_body dom_x_os_idx dom_y_os_idx dom_z_os_idx
       r_idx theta_idx x_os_idx y_os_idx z_os_idx vol px_unnormed py_unnormed).

(** Line 295. *)
Definition flat_pol_idx (r_idx theta_idx : Z) : Z :=
  theta_idx + r_idx * ntheta_in_quad.

(** Lines 294-371: the body of the loop on [theta_idx]. *)
Definition pol_bin_body (dom_x_os_idx dom_y_os_idx dom_z_os_idx : Z)
    (r_idx theta_idx : Z) : M unit :=
  vol_array ← index (vol_arrays inp) (flat_pol_idx r_idx theta_idx);
  ind_array ← index (ind_arrays inp) (flat_pol_idx r_idx theta_idx);
  for_ (range (Z.of_nat (length vol_array)))
    (cart_bin_body dom_x_os_idx dom_y_os_idx dom_z_os_idx
       r_idx theta_idx vol_array ind_array).

(** Lines 380-384: the body of the loop that folds the DOM into
    [binned_one_minus_sp]. *)
Definition combine_body (flat_cart_ix : Z) : M unit :=
  bv ← read DomBinnedVol flat_cart_ix;
  if double_eq bv 0 then mret tt
  else
    s ← read DomBinnedSpv flat_cart_ix;
    mul_at BinnedOneMinusSp flat_cart_ix (1 - s / bv)%R.

(** Lines 279-284: the quick check that skips a DOM. *)
Definition dom_outside (dom : R * R * R) : bool :=
  let '(dom_x, dom_y, dom_z) := dom in
  double_le (dom_x + r_max inp) (x_min inp)
  || double_ge (dom_x - r_max inp) (x_max inp)
  || (double_le (dom_y + r_max inp) (y_min inp)
      || double_ge (dom_y - r_max inp) (y_max inp))
  || (double_le (dom_z + r_max inp) (z_min inp)
      || double_ge (dom_z - r_max inp) (z_max inp)).

(** Lines 293-371: the loops on the polar bins of one DOM.  The
    counters are [unsigned int]; the ranges are those of the kernel
    when [nr] and [ntheta] are not negative ([bins_in_range]). *)
Definition dom_loops (dom_x_os_idx dom_y_os_idx dom_z_os_idx : Z) : M unit :=
  for_ (range (nr inp)) (fun r_idx =>
    for_ (range ntheta_in_quad)
      (pol_bin_body dom_x_os_idx dom_y_os_idx dom_z_os_idx r_idx)).

(** Lines 286-371: the accumulation of one DOM that is not skipped. *)
Definition dom_accumulate (dom : R * R * R) : M unit :=
  let '(dom_x, dom_y, dom_z) := dom in
  let dom_x_os_idx := c_round ((dom_x - x_min inp) * inv_os_bw)%R in
  let dom_y_os_idx := c_round ((dom_y - y_min inp) * inv_os_bw)%R in
  let dom_z_os_idx := c_round ((dom_z - z_min inp) * inv_os_bw)%R in
  fill DomBinnedVol 0%R;;
  fill DomBinnedSpv 0%R;;
  dom_loops dom_x_os_idx dom_y_os_idx dom_z_os_idx.

(** Lines 380-384. *)
Definition dom_combine : M unit :=
  for_ (range (nx * ny * nz)) combine_body.

(** Lines 268-384: the body of the loop on the DOMs. *)
Definition dom_body (dom : R * R * R) : M unit :=
  if dom_outside dom then mret tt
  else dom_accumulate dom;; dom_combine.

(** Lines 254-259.  The product is the [unsigned int] product of the
    kernel when it is below 2^32 ([grid_in_range]). *)
Definition check_shape (a : array_name) : M unit :=
  n ← shape0 a; assert_ (n =? nx * ny * nz).

(** Lines 261-266: the pointers to the arrays of every polar bin. *)
Definition load_pol_bin (ix : Z) : M unit :=
  _ ← index (vol_arrays inp) ix;
  _ ← index (ind_arrays inp) ix;
  mret tt.

(** Lines 199-266: the checks, the scratch arrays and the pointers. *)
Definition prologue : M unit :=
  assert_ (double_gt (binwidth inp) 0);;
  assert_ (1 <=? oversample inp);;
  assert_ (match anisotropy inp with None => true | Some _ => false end);;
  alloc DomBinnedVol (nx * ny * nz);;
  alloc DomBinnedSpv (nx * ny * nz);;
  assert_ (double_lt (Rabs (x_min inp + IZR nx * binwidth inp - x_max inp))
             (/ 1000000));;
  assert_ (double_lt (Rabs (y_min inp + IZR ny * binwidth inp - y_max inp))
             (/ 1000000));;
  assert_ (double_lt (Rabs (z_min inp + IZR nz * binwidth inp - z_max inp))
             (/ 1000000));;
  assert_ (num_first_octant_pol_bins =? cdiv (nr inp * ntheta inp) 2);;
  for_ output_arrays check_shape;;
  for_ (range num_first_octant_pol_bins) load_pol_bin.

Definition shift_and_bin : M unit :=
  prologue;;
  for_ (dom_coords inp) dom_body.

End Kernel.

(** The input with another list of DOMs. *)
Definition with_doms (inp : inputs) (doms : list (R * R * R)) : inputs :=
  {| ind_arrays := ind_arrays inp; vol_arrays := vol_arrays inp;
     dom_coords := doms;
     survival_prob := survival_prob inp; prho := prho inp; pz := pz inp;
     nr := nr inp; ntheta := ntheta inp; r_max := r_max inp;
     x_min := x_min inp; x_max := x_max inp;
     y_min := y_min inp; y_max := y_max inp;
     z_min := z_min inp; z_max := z_max inp;
     binwidth := binwidth inp; oversample := oversample inp;
     anisotropy := anisotropy inp |}.


(** ** The update of one Cartesian bin

    Lines 365-371 write the same six updates for every contribution;
    [run_step] names them, so that a DOM can be followed as a list of
    such steps. *)

Record step := {
  s_ix : Z;
  s_vol : R;
  s_spv : R;
  s_px_spv : R;
  s_py_spv : R;
  s_pz_spv : R
}.

Definition run_step (s : step) : M unit :=
  add_at DomBinnedVol (s_ix s) (s_vol s);;
  add_at DomBinnedSpv (s_ix s) (s_spv s);;
  add_at BinnedSpv (s_ix s) (s_spv s);;
  add_at BinnedPxSpv (s_ix s) (s_px_spv s);;
  add_at BinnedPySpv (s_ix s) (s_py_spv s);;
  add_at BinnedPzSpv (s_ix s) (s_pz_spv s).

(** ** The symmetry maps as the specification words them (section 4.1)

    They act on the cell offsets of the oversampled lattice, before the
    position of the DOM is added. *)

Definition hemisphere_image (n_theta hemisphere z theta : Z) : Z * Z :=
  match hemisphere with
  | 0 => (z, theta)
  | _ => (-1 - z, n_theta - 1 - theta)
  end.

Definition quadrant_image (quadrant x y : Z) (dx dy : R) : Z * Z * R * R :=
  match quadrant with
  | 0 => (x, y, dx, dy)
  | 1 => (-1 - y, x, (- dy)%R, dx)
  | 2 => (-1 - x, -1 - y, (- dx)%R, (- dy)%R)
  | _ => (y, -1 - x, dy, (- dx)%R)
  end.

(** The index of the final grid as the specification words it: the
    offset plus the position of the DOM, divided with rounding toward
    minus infinity. *)
Definition floor_index (offset dom_os_idx n_oversample : Z) : Z :=
  (offset + dom_os_idx) `div` n_oversample.

(** ** The configuration errors of the specification (section 7) *)



(** A DOM exactly [r_max] outside a face of the grid. *)
Definition on_rejection_boundary (inp : inputs) (dom : R * R * R) : Prop :=
  let '(dom_x, dom_y, dom_z) := dom in
  (dom_x + r_max inp = x_min inp \/ dom_x - r_max inp = x_max inp
   \/ dom_y + r_max inp = y_min inp \/ dom_y - r_max inp = y_max inp
   \/ dom_z + r_max inp = z_min inp \/ dom_z - r_max inp = z_max inp)%R.

(** ** The kernel as state transformers

    Every update of the kernel either fails or applies a function to
    the state; these are the functions. *)

(** The state after [run_step s]. *)
Definition step_state (s : step) (st : state) : state :=
  let i := Z.to_nat (s_ix s) in
  {| dom_binned_vol := alter (fun x => x + s_vol s)%R i (dom_binned_vol st);
     dom_binned_spv := alter (fun x => x + s_spv s)%R i (dom_binned_spv st);
     binned_spv := alter (fun x => x + s_spv s)%R i (binned_spv st);
     binned_px_spv := alter (fun x => x + s_px_spv s)%R i (binned_px_spv st);
     binned_py_spv := alter (fun x => x + s_py_spv s)%R i (binned_py_spv st);
     binned_pz_spv := alter (fun x => x + s_pz_spv s)%R i (binned_pz_spv st);
     binned_one_minus_sp := binned_one_minus_sp st |}.

(** [run_step s] succeeds on the states where [s_ix s] is an index of
    the six arrays it updates. *)
Definition step_in_bounds (s : step) (st : state) : Prop :=
  (0 <= s_ix s) /\
  (forall a, a <> BinnedOneMinusSp ->
     s_ix s < Z.of_nat (length (get_array a st))).

Definition steps_state (tr : list step) (st : state) : state :=
  foldl (fun st s => step_state s st) st tr.

(** The state after the two [fill]s of [dom_accumulate]. *)
Definition reset_state (st : state) : state :=
  set_array DomBinnedSpv (replicate (length (dom_binned_spv st)) 0%R)
    (set_array DomBinnedVol (replicate (length (dom_binned_vol st)) 0%R) st).

(** The factor that [combine_body] multiplies into cell [k] of
    [binned_one_minus_sp]: one where the loop continues. *)
Definition combine_factor (st : state) (k : nat) : R :=
  match dom_binned_vol st !! k, dom_binned_spv st !! k with
  | Some bv, Some s => if double_eq bv 0 then 1%R else (1 - s / bv)%R
  | _, _ => 1%R
  end.

(** The state after [combine_body k]. *)
Definition combine_state (k : Z) (st : state) : state :=
  set_array BinnedOneMinusSp
    (alter (fun o => o * combine_factor st (Z.to_nat k))%R (Z.to_nat k)
       (binned_one_minus_sp st)) st.

(** [combine_body k] succeeds on these states. *)
Definition combine_in_bounds (k : Z) (st : state) : Prop :=
  (0 <= k) /\
  exists bv, dom_binned_vol st !! Z.to_nat k = Some bv /\
    (bv <> 0%R ->
     is_Some (dom_binned_spv st !! Z.to_nat k) /\
     is_Some (binned_one_minus_sp st !! Z.to_nat k)).

(** All the arrays of two states have the same lengths. *)
Definition same_lengths (st1 st2 : state) : Prop :=
  forall a, length (get_array a st1) = length (get_array a st2).

(** A computation that is a fixed list of bin updates whatever the
    state, and a computation that fails whatever the state. *)
Definition follows (m : M unit) (tr : list step) : Prop :=
  forall st, m st = for_ tr run_step st.

Definition fails (m : M unit) : Prop :=
  forall st, exists e st', m st = Raise e st'.

Definition planned (P : step -> Prop) (m : M unit) : Prop :=
  (exists tr, Forall P tr /\ follows m tr) \/ fails m.

(** What is known of every bin update of a call: the volume is an
    entry of the overlap mapping, the weight is that volume times an
    entry of the survival table, and the cell is a cell of the grid. *)
Definition step_of (inp : inputs) (s : step) : Prop :=
  (exists vol_array, vol_array ∈ vol_arrays inp /\ s_vol s ∈ vol_array) /\
  (exists sp_row sp, sp_row ∈ survival_prob inp /\ sp ∈ sp_row /\
     s_spv s = (sp * s_vol s)%R) /\
  0 <= s_ix s < nx inp * ny inp * nz inp.

(** The state after [dom_combine]. *)
Definition combined_state (inp : inputs) (st : state) : state :=
  foldl (fun st k => combine_state k st) st (range (nx inp * ny inp * nz inp)).

(** The factor of a whole DOM on cell [k] of [binned_one_minus_sp],
    read from the scratch arrays of the DOM in [st]. *)
Definition dom_factor (inp : inputs) (st : state) (k : nat) : R :=
  if Z.of_nat k <? nx inp * ny inp * nz inp then combine_factor st k else 1%R.

(** The conditions under which [prologue] succeeds.  They are the
    conditions under which the checks of the kernel pass on the inputs
    of [checks_in_range]. *)
Definition valid_config (inp : inputs) (st : state) : Prop :=
  (binwidth inp > 0)%R /\
  1 <= oversample inp /\
  anisotropy inp = None /\
  (Rabs (x_min inp + IZR (nx inp) * binwidth inp - x_max inp) < / 1000000)%R /\
  (Rabs (y_min inp + IZR (ny inp) * binwidth inp - y_max inp) < / 1000000)%R /\
  (Rabs (z_min inp + IZR (nz inp) * binwidth inp - z_max inp) < / 1000000)%R /\
  Z.of_nat (length (vol_arrays inp)) = cdiv (nr inp * ntheta inp) 2 /\
  (forall a, a ∈ output_arrays ->
     Z.of_nat (length (get_array a st)) = nx inp * ny inp * nz inp) /\
  (length (vol_arrays inp) <= length (ind_arrays inp))%nat.

(** The state after [prologue]: the scratch arrays are allocated. *)
Definition allocated (inp : inputs) (st : state) : state :=
  set_array DomBinnedSpv
    (replicate (Z.to_nat (nx inp * ny inp * nz inp)) 0%R)
    (set_array DomBinnedVol
       (replicate (Z.to_nat (nx inp * ny inp * nz inp)) 0%R) st).

(** The state after a DOM that is not skipped and whose loops apply
    the bin updates [tr]. *)
Definition dom_state (inp : inputs) (tr : list step) (st : state) : state :=
  combined_state inp (steps_state tr (reset_state st)).

(** What [run_step] adds to each array. *)
Definition weight (a : array_name) (s : step) : R :=
  match a with
  | DomBinnedVol => s_vol s
  | DomBinnedSpv => s_spv s
  | BinnedSpv => s_spv s
  | BinnedPxSpv => s_px_spv s
  | BinnedPySpv => s_py_spv s
  | BinnedPzSpv => s_pz_spv s
  | BinnedOneMinusSp => 0%R
  end.

(** The sum of [f] over the bin updates of [tr] that fall in cell [k]. *)
Fixpoint cell_sum (f : step -> R) (tr : list step) (k : nat) : R :=
  match tr with
  | [] => 0%R
  | s :: tr' =>
      ((if decide (Z.to_nat (s_ix s) = k) then f s else 0) + cell_sum f tr' k)%R
  end.

(** A computation that is a fixed list of bin updates, each with the
    property [P]. *)
Definition runs (P : step -> Prop) (m : M unit) : Prop :=
  exists tr, Forall P tr /\ follows m tr.

(** A table of the polar binning has an entry for every radial and
    every polar-angle bin. *)
Definition table_shape (inp : inputs) (table : list (list R)) : Prop :=
  forall r_idx theta_idx,
    0 <= r_idx < nr inp -> 0 <= theta_idx < ntheta inp ->
    exists row v,
      table !! Z.to_nat r_idx = Some row /\ row !! Z.to_nat theta_idx = Some v.

(** The shapes that the loops rely on: an overlap list for every polar
    bin of the first octant, an index row for every volume, and full
    tables. *)
Definition well_shaped (inp : inputs) : Prop :=
  (forall r_idx theta_idx,
     r_idx ∈ range (nr inp) -> theta_idx ∈ range (ntheta_in_quad inp) ->
     exists vol_array ind_array,
       vol_arrays inp !! Z.to_nat (flat_pol_idx inp r_idx theta_idx)
         = Some vol_array /\
       ind_arrays inp !! Z.to_nat (flat_pol_idx inp r_idx theta_idx)
         = Some ind_array /\
       (length vol_array <= length ind_array)%nat) /\
  table_shape inp (survival_prob inp) /\
  table_shape inp (prho inp) /\
  table_shape inp (pz inp).

(** A state whose seven arrays have the size of the grid. *)
Definition grid_sized (inp : inputs) (st : state) : Prop :=
  forall a, Z.of_nat (length (get_array a st)) = nx inp * ny inp * nz inp.

(** ** The ranges of the C integer types

    The kernel computes in [unsigned int] and [int]; the definitions
    above compute in [Z].  The two agree on the inputs below. *)

Definition uint_bound : Z := 4294967296.
Definition int_bound : Z := 2147483648.

(** Lines 211-213, 232-233, 259, 365, 380: the three bin counts are
    rounded doubles cast to [unsigned int], and their product and the
    flattened cell index are computed in [unsigned int]. *)
Definition grid_in_range (inp : inputs) : Prop :=
  0 <= nx inp < uint_bound /\ 0 <= ny inp < uint_bound /\
  0 <= nz inp < uint_bound /\
  nx inp * ny inp * nz inp < uint_bound.

(** Lines 204, 225-226, 252, 293-295: [nr] and [ntheta] are [int]
    arguments that bound loops on [unsigned int] counters, their
    product is an [int], and the number of overlap lists is kept in
    an [unsigned int]. *)
Definition bins_in_range (inp : inputs) : Prop :=
  0 <= nr inp /\ 0 <= ntheta inp /\
  nr inp * ntheta inp < int_bound /\
  Z.of_nat (length (vol_arrays inp)) < uint_bound.

(** Lines 301-303: the uint32 offsets of the overlap mapping are cast
    to [int]. *)
Definition offsets_in_range (inp : inputs) : Prop :=
  forall ind_array x_u y_u z_u,
    ind_array ∈ ind_arrays inp -> (x_u, y_u, z_u) ∈ ind_array ->
    Z.of_N x_u < int_bound /\ Z.of_N y_u < int_bound /\
    Z.of_N z_u < int_bound.

(** Line 252: the comparison does not depend on the rounding of the
    division by 2.  This holds for every even product [nr * ntheta],
    and for an odd product unless the number of overlap lists is its
    truncated half. *)
Definition exact_count_check (inp : inputs) : Prop :=
  Z.of_nat (length (vol_arrays inp)) = cdiv (nr inp * ntheta inp) 2 ->
  2 * Z.of_nat (length (vol_arrays inp)) = nr inp * ntheta inp.

(** The inputs on which the loops of the embedding are the loops of
    the kernel. *)
Definition in_c_range (inp : inputs) : Prop :=
  grid_in_range inp /\ bins_in_range inp /\ offsets_in_range inp.

(** The inputs on which the checks of the embedding are the checks of
    the kernel.  The bin counts are computed after the first three
    assertions (lines 199-201), so their range only matters when these
    pass. *)
Definition checks_in_range (inp : inputs) : Prop :=
  ((binwidth inp > 0)%R -> 1 <= oversample inp -> anisotropy inp = None ->
   grid_in_range inp) /\
  bins_in_range inp /\ exact_count_check inp.

(** ** Concrete inputs

    A grid of one cell of width 1 and a table of one radial and two
    polar bins whose only first-octant bin overlaps the lattice cell
    (0,0,0) with volume 1. *)

Definition ex_table (sp : R) (n_oversample : Z) (doms : list (R * R * R)) : inputs :=
  {| ind_arrays := [[(0%N, 0%N, 0%N)]];
     vol_arrays := [[1%R]];
     dom_coords := doms;
     survival_prob := [[sp; sp]];
     prho := [[1%R; 1%R]];
     pz := [[0%R; 0%R]];
     nr := 1; ntheta := 2; r_max := 1%R;
     x_min := 0%R; x_max := 1%R;
     y_min := 0%R; y_max := 1%R;
     z_min := 0%R; z_max := 1%R;
     binwidth := 1%R; oversample := n_oversample; anisotropy := None |}.

(** The arrays of the caller before the first call: sums at 0,
    products at 1. *)
Definition ex_state : state :=
  {| dom_binned_vol := []; dom_binned_spv := [];
     binned_spv := [0%R]; binned_px_spv := [0%R]; binned_py_spv := [0%R];
     binned_pz_spv := [0%R]; binned_one_minus_sp := [1%R] |}.

Definition ex_origin : R * R * R := (0%R, 0%R, 0%R).

(** A table of two radial and three polar bins with the three overlap
    lists that the check of line 252 asks for. *)
Definition ex_odd : inputs :=
  {| ind_arrays := [[]; []; []];
     vol_arrays := [[]; []; []];
     dom_coords := [ex_origin];
     survival_prob := [[1%R; 1%R; 1%R]; [1%R; 1%R; 1%R]];
     prho := [[1%R; 1%R; 1%R]; [1%R; 1%R; 1%R]];
     pz := [[0%R; 0%R; 0%R]; [0%R; 0%R; 0%R]];
     nr := 2; ntheta := 3; r_max := 1%R;
     x_min := 0%R; x_max := 1%R;
     y_min := 0%R; y_max := 1%R;
     z_min := 0%R; z_max := 1%R;
     binwidth := 1%R; oversample := 1; anisotropy := None |}.

(** ** Relations between states and outcomes *)

(** The five arrays of the caller are the same in two states. *)
Definition same_outputs (st1 st2 : state) : Prop :=
  forall a, a ∈ output_arrays -> get_array a st1 = get_array a st2.

(** The five arrays of the caller have the same lengths in two states. *)
Definition same_output_lengths (st1 st2 : state) : Prop :=
  forall a, a ∈ output_arrays ->
    length (get_array a st1) = length (get_array a st2).

(** The state in which a computation ends, whether it returns or raises. *)
Definition result_state {A} (r : result A) : state :=
  match r with
  | Ok _ st => st
  | Raise _ st => st
  end.

(** [Q] relates the state before a computation to the state after it,
    whatever the outcome. *)
Definition always {A} (Q : state -> state -> Prop) (m : M A) : Prop :=
  forall st, Q st (result_state (m st)).

(** A computation that raises no other error than [OutOfBounds]. *)
Definition raises_only_out_of_bounds {A} (m : M A) : Prop :=
  forall st e st', m st = Raise e st' -> e = OutOfBounds.

(** Line 365: the flattened index of a cell of the grid, which the
    kernel computes in [unsigned int]: the same number when the grid
    has fewer than 2^32 cells ([grid_in_range]). *)
Definition flat_cart_ix (inp : inputs) (x_idx y_idx z_idx : Z) : Z :=
  x_idx * ny inp * nz inp + y_idx * nz inp + z_idx.

(** Lines 313-359: the cell of the grid of each of the eight images of
    one lattice cell, in the order of the loops. *)
Definition image_cells (inp : inputs)
    (dom_x_os_idx dom_y_os_idx dom_z_os_idx x_os_idx y_os_idx z_os_idx : Z)
  : list (Z * Z * Z) :=
  hemisphere ← range 2;
  quadrant ← range 4;
  let '(z_idx, _) :=
    hemisphere_branch inp dom_z_os_idx z_os_idx 0 hemisphere in
  let '(x_idx, y_idx, _, _) :=
    quadrant_branch inp dom_x_os_idx dom_y_os_idx x_os_idx y_os_idx 0 0
      quadrant in
  [(x_idx, y_idx, z_idx)].

(** What is known of the direction weights of every bin update of a
    call: they are the spv weight times an entry of the [pz] table, and
    times an entry of the [prho] table along a horizontal direction
    [(ux, uy)], which is a unit vector on a checked configuration. *)
Definition step_dir (inp : inputs) (s : step) : Prop :=
  exists prho_row prho_ pz_row pz_ ux uy,
    prho_row ∈ prho inp /\ prho_ ∈ prho_row /\
    pz_row ∈ pz inp /\ pz_ ∈ pz_row /\
    s_px_spv s = (ux * prho_ * s_spv s)%R /\
    s_py_spv s = (uy * prho_ * s_spv s)%R /\
    s_pz_spv s = (pz_ * s_spv s)%R /\
    ((binwidth inp > 0)%R -> 1 <= oversample inp ->
     (ux * ux + uy * uy = 1)%R).

Definition step_full (inp : inputs) (s : step) : Prop :=
  step_of inp s /\ step_dir inp s.

(** Two states that a call cannot tell apart: the five arrays of the
    caller are the same and the scratch arrays have the same lengths. *)
Definition alike (st1 st2 : state) : Prop :=
  same_outputs st1 st2 /\ same_lengths st1 st2.

(** A valid configuration without polar bins. *)
Definition ex_empty : inputs :=
  {| ind_arrays := [];
     vol_arrays := [];
     dom_coords := [ex_origin];
     survival_prob := [];
     prho := [];
     pz := [];
     nr := 0; ntheta := 2; r_max := 1%R;
     x_min := 0%R; x_max := 1%R;
     y_min := 0%R; y_max := 1%R;
     z_min := 0%R; z_max := 1%R;
     binwidth := 1%R; oversample := 1; anisotropy := None |}.

(** Cell [k] of array [a] is [d] more in [st'] than in [st]. *)
Definition grows_by (a : array_name) (d : R) (st st' : state) (k : nat) : Prop :=
  get_array a st' !! k = (fun x => x + d)%R <$> get_array a st !! k.

(** Entries of a table between -1 and 1. *)
Definition within_unit (table : list (list R)) : Prop :=
  forall row p, row ∈ table -> p ∈ row -> (Rabs p <= 1)%R.
(** ** Scalars: evaluation lemmas *)

Lemma double_lt_true x y : (x < y)%R -> double_lt x y = true.
Proof. intros H. unfold double_lt. destruct (Rlt_dec x y); [reflexivity | contradiction]. Qed.

Lemma double_lt_false x y : (y <= x)%R -> double_lt x y = false.
Proof. intros H. unfold double_lt. destruct (Rlt_dec x y); [lra | reflexivity]. Qed.

Lemma double_le_true x y : (x <= y)%R -> double_le x y = true.
Proof. intros H. unfold double_le. destruct (Rle_dec x y); [reflexivity | contradiction]. Qed.

Lemma double_le_false x y : (y < x)%R -> double_le x y = false.
Proof. intros H. unfold double_le. destruct (Rle_dec x y); [lra | reflexivity]. Qed.

Lemma double_ge_true x y : (x >= y)%R -> double_ge x y = true.
Proof. intros H. unfold double_ge. destruct (Rge_dec x y); [reflexivity | contradiction]. Qed.

Lemma double_ge_false x y : (x < y)%R -> double_ge x y = false.
Proof. intros H. unfold double_ge. destruct (Rge_dec x y); [lra | reflexivity]. Qed.

Lemma double_gt_true x y : (x > y)%R -> double_gt x y = true.
Proof. intros H. unfold double_gt. destruct (Rgt_dec x y); [reflexivity | contradiction]. Qed.

Lemma double_gt_false x y : (x <= y)%R -> double_gt x y = false.
Proof. intros H. unfold double_gt. destruct (Rgt_dec x y); [lra | reflexivity]. Qed.

Lemma double_eq_true x y : x = y -> double_eq x y = true.
Proof. intros H. unfold double_eq. destruct (Req_dec_T x y); [reflexivity | contradiction]. Qed.

Lemma double_eq_false x y : x <> y -> double_eq x y = false.
Proof. intros H. unfold double_eq. destruct (Req_dec_T x y); [contradiction | reflexivity]. Qed.

Lemma double_gt_spec x y : double_gt x y = true <-> (x > y)%R.
Proof. unfold double_gt. destruct (Rgt_dec x y); split; intros; try easy. Qed.

Lemma double_lt_spec x y : double_lt x y = true <-> (x < y)%R.
Proof. unfold double_lt. destruct (Rlt_dec x y); split; intros; try easy. Qed.

Lemma double_eq_spec x y : double_eq x y = true <-> x = y.
Proof. unfold double_eq. destruct (Req_dec_T x y); split; intros; try easy. Qed.

(** [c_round] on a real that is within one half of an integer. *)
Lemma c_round_near (z : Z) (x : R) :
  (IZR z - / 2 < x < IZR z + / 2)%R -> c_round x = z.
Proof.
  intros [Hl Hu]. unfold c_round. destruct (Rle_dec 0 x) as [H0|H0].
  - apply Zfloor_eq. lra.
  - apply Zceil_eq. lra.
Qed.

Lemma c_round_IZR (z : Z) : c_round (IZR z) = z.
Proof. apply c_round_near. lra. Qed.

(** [ceil(n / 2.0)] on an integer [n]. *)
Lemma c_ceil_half (n : Z) : c_ceil (IZR n / 2) = (n + 1) `div` 2.
Proof.
  unfold c_ceil. apply Zceil_eq.
  pose proof (Z.div_mod (n + 1) 2 ltac:(lia)) as Hdm.
  pose proof (Z.mod_pos_bound (n + 1) 2 ltac:(lia)) as Hb.
  generalize dependent ((n + 1) `div` 2). generalize dependent ((n + 1) `mod` 2).
  intros r Hr q Hq.
  assert (IZR n = 2 * IZR q + IZR r - 1)%R as ->.
  { rewrite <- mult_IZR, <- plus_IZR, <- minus_IZR. f_equal. lia. }
  assert (r = 0 \/ r = 1) as [-> | ->] by lia; lra.
Qed.

(** C division against floor division. *)
Lemma cdiv_nonneg a b : 0 <= a -> 0 < b -> cdiv a b = a `div` b.
Proof. intros Ha Hb. unfold cdiv. apply Z.quot_div_nonneg; lia. Qed.

Lemma cdiv_1 a : cdiv a 1 = a `div` 1.
Proof. unfold cdiv. now rewrite Z.quot_1_r, Z.div_1_r. Qed.

Lemma range_lookup n (i : nat) k : range n !! i = Some k <-> k = Z.of_nat i /\ Z.of_nat i < n.
Proof. unfold range. rewrite lookup_seqZ. intuition lia. Qed.

Lemma elem_of_range n k : k ∈ range n <-> 0 <= k < n.
Proof. unfold range. rewrite elem_of_seqZ. lia. Qed.

(** ** The monad: equations *)

Lemma bind_unfold {A B} (m : M A) (f : A -> M B) st :
  (m ≫= f) st = match m st with
                | Ok a st' => f a st'
                | Raise e st' => Raise e st'
                end.
Proof. reflexivity. Qed.

Lemma bind_Ok {A B} (m : M A) (f : A -> M B) st b st' :
  (m ≫= f) st = Ok b st' <->
  exists a st1, m st = Ok a st1 /\ f a st1 = Ok b st'.
Proof.
  rewrite bind_unfold. split.
  - destruct (m st) as [a st1|e st1]; [eauto | discriminate].
  - intros (a & st1 & -> & H). exact H.
Qed.

Lemma assert_bind_true {B} (b : bool) (k : M B) st :
  b = true -> (assert_ b;; k) st = k st.
Proof. intros ->. reflexivity. Qed.

Lemma assert_bind_false {B} (b : bool) (k : M B) st :
  b = false -> (assert_ b;; k) st = Raise AssertionError st.
Proof. intros ->. reflexivity. Qed.

Lemma index_Ok {A} (l : list A) i a st st' :
  index l i st = Ok a st' <-> 0 <= i /\ l !! Z.to_nat i = Some a /\ st' = st.
Proof.
  unfold index. destruct (Z.ltb_spec i 0) as [Hi|Hi].
  - split; [discriminate | lia].
  - destruct (l !! Z.to_nat i) as [x|]; split.
    + intros [= -> ->]. auto.
    + intros (_ & [= ->] & ->). reflexivity.
    + discriminate.
    + intros (_ & [=] & _).
Qed.

Lemma index_lookup {A} (l : list A) i a st :
  0 <= i -> l !! Z.to_nat i = Some a -> index l i st = Ok a st.
Proof. intros. apply index_Ok. auto. Qed.

Lemma for_nil {A} (body : A -> M unit) st : for_ [] body st = Ok tt st.
Proof. reflexivity. Qed.

Lemma for_cons {A} a (l : list A) (body : A -> M unit) st :
  for_ (a :: l) body st = (body a;; for_ l body) st.
Proof. reflexivity. Qed.

Lemma for_app {A} (l1 l2 : list A) (body : A -> M unit) st :
  for_ (l1 ++ l2) body st = (for_ l1 body;; for_ l2 body) st.
Proof.
  revert st. induction l1 as [|a l1 IH]; intros st; [reflexivity|].
  simpl app. rewrite for_cons, (bind_unfold (for_ (a :: l1) body)), for_cons.
  rewrite !bind_unfold.
  destruct (body a st) as [[] st1|e st1]; [|reflexivity].
  rewrite IH. reflexivity.
Qed.

(** An invariant of the body is an invariant of the loop. *)
Lemma for_invariant {A} (I : state -> Prop) (l : list A) (body : A -> M unit) :
  (forall a st st', a ∈ l -> I st -> body a st = Ok tt st' -> I st') ->
  forall st st', I st -> for_ l body st = Ok tt st' -> I st'.
Proof.
  induction l as [|a l IH]; intros Hbody st st' HI Hrun.
  - rewrite for_nil in Hrun. congruence.
  - rewrite for_cons in Hrun. apply bind_Ok in Hrun as ([] & st1 & H1 & H2).
    eapply IH; [| |exact H2].
    + intros; eapply Hbody; eauto. now right.
    + eapply Hbody; eauto. now left.
Qed.

(** ** The arrays of the state *)

Lemma get_set_same a l st : get_array a (set_array a l st) = l.
Proof. destruct a; reflexivity. Qed.

Lemma get_set_other a b l st :
  a <> b -> get_array a (set_array b l st) = get_array a st.
Proof. destruct a, b; intros H; try reflexivity; contradiction. Qed.

Lemma state_ext st1 st2 :
  (forall a, get_array a st1 = get_array a st2) -> st1 = st2.
Proof.
  intros H. destruct st1, st2.
  pose proof (H DomBinnedVol); pose proof (H DomBinnedSpv);
  pose proof (H BinnedSpv); pose proof (H BinnedPxSpv);
  pose proof (H BinnedPySpv); pose proof (H BinnedPzSpv);
  pose proof (H BinnedOneMinusSp). simpl in *. congruence.
Qed.

Lemma read_Ok a i x st st' :
  read a i st = Ok x st' <->
  0 <= i /\ get_array a st !! Z.to_nat i = Some x /\ st' = st.
Proof. unfold read. apply index_Ok. Qed.

Lemma write_Ok a i v st st' :
  write a i v st = Ok tt st' <->
  0 <= i < Z.of_nat (length (get_array a st)) /\
  st' = set_array a (<[Z.to_nat i := v]> (get_array a st)) st.
Proof.
  unfold write.
  destruct (Z.ltb_spec i 0), (Z.leb_spec (Z.of_nat (length (get_array a st))) i);
    simpl; split; try discriminate; try (intros [? _]; lia).
  - intros [= <-]. split; [lia | reflexivity].
  - intros [_ ->]. reflexivity.
Qed.

(** [a[i] += v] and [a[i] *= v] through one lemma on the operator. *)
Lemma update_Ok (op : R -> R -> R) a i v st st' :
  (x ← read a i; write a i (op x v)) st = Ok tt st' <->
  exists x, 0 <= i /\ get_array a st !! Z.to_nat i = Some x /\
            st' = set_array a (<[Z.to_nat i := op x v]> (get_array a st)) st.
Proof.
  rewrite bind_Ok. split.
  - intros (x & st1 & Hr & Hw). apply read_Ok in Hr as (Hi & Hx & ->).
    apply write_Ok in Hw as (_ & ->). eauto.
  - intros (x & Hi & Hx & ->). exists x, st. split.
    + apply read_Ok. auto.
    + apply write_Ok. split; [|reflexivity].
      apply lookup_lt_Some in Hx. lia.
Qed.

Lemma add_at_Ok a i v st st' :
  add_at a i v st = Ok tt st' <->
  exists x, 0 <= i /\ get_array a st !! Z.to_nat i = Some x /\
            st' = set_array a (<[Z.to_nat i := (x + v)%R]> (get_array a st)) st.
Proof. apply (update_Ok Rplus). Qed.

Lemma mul_at_Ok a i v st st' :
  mul_at a i v st = Ok tt st' <->
  exists x, 0 <= i /\ get_array a st !! Z.to_nat i = Some x /\
            st' = set_array a (<[Z.to_nat i := (x * v)%R]> (get_array a st)) st.
Proof. apply (update_Ok Rmult). Qed.

(** ** Updates as functions of the state *)

Lemma insert_as_alter (f : R -> R) (l : list R) i x :
  l !! i = Some x -> <[i := f x]> l = alter f i l.
Proof.
  intros Hx. apply list_eq. intros j. destruct (decide (i = j)) as [<-|Hne].
  - rewrite list_lookup_insert_eq by (eapply lookup_lt_Some; eauto).
    now rewrite list_lookup_alter_eq, Hx.
  - now rewrite list_lookup_insert_ne, list_lookup_alter_ne.
Qed.

Lemma update_alter (op : R -> R -> R) a i v st st' :
  (x ← read a i; write a i (op x v)) st = Ok tt st' <->
  0 <= i < Z.of_nat (length (get_array a st)) /\
  st' = set_array a (alter (fun x => op x v) (Z.to_nat i) (get_array a st)) st.
Proof.
  rewrite update_Ok. split.
  - intros (x & Hi & Hx & ->). split.
    + apply lookup_lt_Some in Hx. lia.
    + now rewrite (insert_as_alter (fun x => op x v) _ _ _ Hx).
  - intros ([Hi Hlen] & ->).
    destruct (lookup_lt_is_Some_2 (get_array a st) (Z.to_nat i)) as [x Hx]; [lia|].
    exists x. split; [exact Hi|]. split; [exact Hx|].
    now rewrite (insert_as_alter (fun x => op x v) _ _ _ Hx).
Qed.

Lemma add_at_alter a i v st st' :
  add_at a i v st = Ok tt st' <->
  0 <= i < Z.of_nat (length (get_array a st)) /\
  st' = set_array a (alter (fun x => x + v)%R (Z.to_nat i) (get_array a st)) st.
Proof. apply (update_alter Rplus). Qed.

Lemma mul_at_alter a i v st st' :
  mul_at a i v st = Ok tt st' <->
  0 <= i < Z.of_nat (length (get_array a st)) /\
  st' = set_array a (alter (fun x => x * v)%R (Z.to_nat i) (get_array a st)) st.
Proof. apply (update_alter Rmult). Qed.

Lemma length_get_set a b l st :
  length l = length (get_array b st) ->
  length (get_array a (set_array b l st)) = length (get_array a st).
Proof.
  intros Hl. destruct (decide (a = b)) as [->|Hne].
  - now rewrite get_set_same.
  - now rewrite get_set_other.
Qed.

(** [run_step] is [step_state] where the index is in bounds. *)
Lemma run_step_Ok (s : step) st st' :
  run_step s st = Ok tt st' <-> step_in_bounds s st /\ st' = step_state s st.
Proof.
  unfold run_step. rewrite !bind_Ok. split.
  - intros ([] & st1 & H1 & H). apply add_at_alter in H1 as [B1 ->].
    apply bind_Ok in H as ([] & st2 & H2 & H). apply add_at_alter in H2 as [B2 ->].
    apply bind_Ok in H as ([] & st3 & H3 & H). apply add_at_alter in H3 as [B3 ->].
    apply bind_Ok in H as ([] & st4 & H4 & H). apply add_at_alter in H4 as [B4 ->].
    apply bind_Ok in H as ([] & st5 & H5 & H). apply add_at_alter in H5 as [B5 ->].
    apply add_at_alter in H as [B6 ->].
    destruct st; simpl in *. split; [|reflexivity].
    split; [lia|]. intros [] Ha; simpl; try lia. contradiction.
  - intros [[H0 Hb] ->].
    pose proof (Hb DomBinnedVol ltac:(discriminate)) as B1.
    pose proof (Hb DomBinnedSpv ltac:(discriminate)) as B2.
    pose proof (Hb BinnedSpv ltac:(discriminate)) as B3.
    pose proof (Hb BinnedPxSpv ltac:(discriminate)) as B4.
    pose proof (Hb BinnedPySpv ltac:(discriminate)) as B5.
    pose proof (Hb BinnedPzSpv ltac:(discriminate)) as B6.
    destruct st; simpl in *.
    eexists tt, _. split; [apply add_at_alter; split; [simpl; lia|reflexivity]|].
    apply bind_Ok.
    eexists tt, _. split; [apply add_at_alter; split; [simpl; lia|reflexivity]|].
    apply bind_Ok.
    eexists tt, _. split; [apply add_at_alter; split; [simpl; lia|reflexivity]|].
    apply bind_Ok.
    eexists tt, _. split; [apply add_at_alter; split; [simpl; lia|reflexivity]|].
    apply bind_Ok.
    eexists tt, _. split; [apply add_at_alter; split; [simpl; lia|reflexivity]|].
    apply add_at_alter; split; [simpl; lia|reflexivity].
Qed.

Lemma step_state_lengths s st : same_lengths (step_state s st) st.
Proof. intros []; simpl; try apply length_alter; reflexivity. Qed.

Lemma same_lengths_refl st : same_lengths st st.
Proof. intros a. reflexivity. Qed.

Lemma same_lengths_sym st1 st2 : same_lengths st1 st2 -> same_lengths st2 st1.
Proof. intros H a. symmetry. apply H. Qed.

Lemma same_lengths_trans st1 st2 st3 :
  same_lengths st1 st2 -> same_lengths st2 st3 -> same_lengths st1 st3.
Proof. intros H1 H2 a. rewrite H1. apply H2. Qed.

Lemma step_in_bounds_lengths s st1 st2 :
  same_lengths st1 st2 -> step_in_bounds s st1 -> step_in_bounds s st2.
Proof. intros Hl [H0 Hb]. split; [exact H0|]. intros a Ha. rewrite <- Hl. auto. Qed.

Lemma steps_state_lengths tr st : same_lengths (steps_state tr st) st.
Proof.
  revert st. induction tr as [|s tr IH]; intros st; [apply same_lengths_refl|].
  simpl. eapply same_lengths_trans; [apply IH | apply step_state_lengths].
Qed.

(** A list of steps succeeds when every step is in bounds, and then it
    is [steps_state]. *)
Lemma run_steps_Ok (tr : list step) st st' :
  for_ tr run_step st = Ok tt st' <->
  Forall (fun s => step_in_bounds s st) tr /\ st' = steps_state tr st.
Proof.
  revert st. induction tr as [|s tr IH]; intros st.
  - rewrite for_nil. split.
    + intros [= <-]. split; [constructor | reflexivity].
    + intros [_ ->]. reflexivity.
  - rewrite for_cons, bind_Ok. split.
    + intros ([] & st1 & H1 & H2). apply run_step_Ok in H1 as [Hb ->].
      apply IH in H2 as [Hf ->]. split; [|reflexivity].
      constructor; [exact Hb|].
      eapply Forall_impl; [exact Hf|]. intros s' Hs'.
      eapply step_in_bounds_lengths; [apply step_state_lengths | exact Hs'].
    + intros [Hf ->]. inversion Hf as [|? ? Hb Hf']; subst.
      exists tt, (step_state s st). split; [apply run_step_Ok; auto|].
      apply IH. split; [|reflexivity].
      eapply Forall_impl; [exact Hf'|]. intros s' Hs'.
      eapply step_in_bounds_lengths;
        [apply same_lengths_sym, step_state_lengths | exact Hs'].
Qed.

(** [combine_body] is [combine_state] where its reads are in bounds. *)
Lemma combine_body_Ok (k : Z) st st' :
  combine_body k st = Ok tt st' <-> combine_in_bounds k st /\ st' = combine_state k st.
Proof.
  unfold combine_body, combine_in_bounds, combine_state, combine_factor.
  rewrite bind_Ok. split.
  - intros (bv & st1 & Hr & H). apply read_Ok in Hr as (Hk & Hbv & ->).
    simpl in Hbv. rewrite Hbv.
    destruct (double_eq bv 0) eqn:E.
    + injection H as <-. apply double_eq_spec in E. split.
      * split; [exact Hk|]. exists bv. split; [reflexivity|]. intros; contradiction.
      * destruct (dom_binned_spv st !! Z.to_nat k);
          rewrite list_alter_id by (intros; lra); now destruct st.
    + apply bind_Ok in H as (s & st1 & Hr & H).
      apply read_Ok in Hr as (_ & Hs & ->). simpl in Hs. rewrite Hs.
      apply mul_at_alter in H as [Hb ->]. split; [|reflexivity].
      split; [exact Hk|]. exists bv. split; [reflexivity|]. intros _.
      split; [eauto|]. apply lookup_lt_is_Some_2. simpl in Hb. lia.
  - intros [(Hk & bv & Hbv & Hne) ->]. exists bv, st.
    split; [apply read_Ok; auto|]. rewrite Hbv.
    destruct (double_eq bv 0) eqn:E.
    + destruct (dom_binned_spv st !! Z.to_nat k);
        rewrite list_alter_id by (intros; lra); now destruct st.
    + assert (bv <> 0%R) as Hbv0.
      { intros ->. now rewrite double_eq_true in E. }
      destruct (Hne Hbv0) as [[s Hs] Ho]. rewrite Hs.
      apply bind_Ok. exists s, st. split; [apply read_Ok; auto|].
      apply mul_at_alter. split; [|reflexivity].
      apply lookup_lt_is_Some_1 in Ho. simpl. lia.
Qed.

(** ** Loops whose body is a guarded function of the state *)

Lemma for_guarded {A} (body : A -> M unit) (guard : A -> state -> Prop)
    (upd : A -> state -> state) :
  (forall a st st', body a st = Ok tt st' <-> guard a st /\ st' = upd a st) ->
  (forall a b st, guard b (upd a st) <-> guard b st) ->
  forall l st st',
    for_ l body st = Ok tt st' <->
    Forall (fun a => guard a st) l /\ st' = foldl (fun st a => upd a st) st l.
Proof.
  intros Hbody Hguard. induction l as [|a l IH]; intros st st'.
  - rewrite for_nil. split.
    + intros [= <-]. split; [constructor | reflexivity].
    + intros [_ ->]. reflexivity.
  - rewrite for_cons, bind_Ok. split.
    + intros ([] & st1 & H1 & H2). apply Hbody in H1 as [Hg ->].
      apply IH in H2 as [Hf ->]. split; [|reflexivity].
      constructor; [exact Hg|].
      eapply Forall_impl; [exact Hf|]. intros b Hb. now apply Hguard in Hb.
    + intros [Hf ->]. inversion Hf as [|? ? Hg Hf']; subst.
      exists tt, (upd a st). split; [apply Hbody; auto|].
      apply IH. split; [|reflexivity].
      eapply Forall_impl; [exact Hf'|]. intros b Hb. now apply Hguard.
Qed.

Lemma combine_state_scratch k st :
  dom_binned_vol (combine_state k st) = dom_binned_vol st /\
  dom_binned_spv (combine_state k st) = dom_binned_spv st.
Proof. split; reflexivity. Qed.

Lemma combine_state_lengths k st : same_lengths (combine_state k st) st.
Proof. intros []; simpl; try apply length_alter; reflexivity. Qed.

Lemma combine_state_other k st a :
  a <> BinnedOneMinusSp -> get_array a (combine_state k st) = get_array a st.
Proof. intros Ha. unfold combine_state. now rewrite get_set_other. Qed.

Lemma combine_factor_scratch st1 st2 k :
  dom_binned_vol st1 = dom_binned_vol st2 ->
  dom_binned_spv st1 = dom_binned_spv st2 ->
  combine_factor st1 k = combine_factor st2 k.
Proof. intros H1 H2. unfold combine_factor. now rewrite H1, H2. Qed.

Lemma combine_in_bounds_sim k st1 st2 :
  dom_binned_vol st1 = dom_binned_vol st2 ->
  dom_binned_spv st1 = dom_binned_spv st2 ->
  length (binned_one_minus_sp st1) = length (binned_one_minus_sp st2) ->
  combine_in_bounds k st1 -> combine_in_bounds k st2.
Proof.
  intros H1 H2 H3 (Hk & bv & Hbv & Hne). split; [exact Hk|].
  exists bv. rewrite <- H1, <- H2. split; [exact Hbv|].
  intros Hbv0. destruct (Hne Hbv0) as [Hs Ho]. split; [exact Hs|].
  apply lookup_lt_is_Some_2. apply lookup_lt_is_Some_1 in Ho. lia.
Qed.

Lemma combine_in_bounds_step j k st :
  combine_in_bounds k (combine_state j st) <-> combine_in_bounds k st.
Proof.
  split; apply combine_in_bounds_sim; try reflexivity;
    simpl; now rewrite length_alter.
Qed.

Lemma dom_combine_Ok (inp : inputs) st st' :
  dom_combine inp st = Ok tt st' <->
  Forall (fun k => combine_in_bounds k st) (range (nx inp * ny inp * nz inp)) /\
  st' = combined_state inp st.
Proof.
  unfold dom_combine, combined_state.
  apply (for_guarded combine_body combine_in_bounds combine_state).
  - apply combine_body_Ok.
  - intros. apply combine_in_bounds_step.
Qed.

(** The loop of [dom_combine] on any list of distinct cells. *)
Lemma combine_fold_spec (l : list Z) st :
  NoDup l -> (forall k, k ∈ l -> 0 <= k) ->
  let st' := foldl (fun st k => combine_state k st) st l in
  dom_binned_vol st' = dom_binned_vol st /\
  dom_binned_spv st' = dom_binned_spv st /\
  (forall a, a <> BinnedOneMinusSp -> get_array a st' = get_array a st) /\
  forall j : nat,
    binned_one_minus_sp st' !! j =
    (fun o => o * (if decide (Z.of_nat j ∈ l) then combine_factor st j else 1))%R
      <$> binned_one_minus_sp st !! j.
Proof.
  revert st. induction l as [|k l IH]; intros st Hnd Hpos; simpl.
  - repeat split; try reflexivity. intros j.
    destruct (decide (Z.of_nat j ∈ [])) as [Hin|_]; [inversion Hin|].
    destruct (binned_one_minus_sp st !! j); simpl; [f_equal; lra | reflexivity].
  - apply NoDup_cons in Hnd as [Hk Hnd].
    destruct (IH (combine_state k st) Hnd) as (IH1 & IH2 & IH3 & IH4).
    { intros; apply Hpos; now right. }
    split; [exact IH1|]. split; [exact IH2|]. split.
    { intros a Ha. rewrite IH3 by exact Ha. now apply combine_state_other. }
    intros j. rewrite IH4.
    rewrite (combine_factor_scratch (combine_state k st) st j) by reflexivity.
    pose proof (Hpos k ltac:(now left)) as Hk0.
    destruct (decide (Z.to_nat k = j)) as [<-|Hne].
    + rewrite Z2Nat.id by exact Hk0.
      destruct (decide (k ∈ l)) as [Hin|_]; [contradiction|].
      destruct (decide (k ∈ k :: l)) as [_|Hnin]; [|exfalso; apply Hnin; now left].
      simpl. rewrite list_lookup_alter_eq.
      destruct (binned_one_minus_sp st !! Z.to_nat k); simpl; [f_equal; lra | reflexivity].
    + simpl. rewrite list_lookup_alter_ne by exact Hne.
      destruct (decide (Z.of_nat j ∈ l)) as [Hin|Hnin];
        destruct (decide (Z.of_nat j ∈ k :: l)) as [Hin'|Hnin']; try reflexivity.
      * exfalso. apply Hnin'. now right.
      * exfalso. apply elem_of_cons in Hin' as [Heq|Hin']; [lia | contradiction].
Qed.

Lemma NoDup_range n : NoDup (range n).
Proof. unfold range. apply NoDup_seqZ. Qed.

(** [dom_combine] multiplies cell [k] by [dom_factor] and leaves every
    other array as it is. *)
Lemma combined_state_spec (inp : inputs) st :
  dom_binned_vol (combined_state inp st) = dom_binned_vol st /\
  dom_binned_spv (combined_state inp st) = dom_binned_spv st /\
  (forall a, a <> BinnedOneMinusSp ->
     get_array a (combined_state inp st) = get_array a st) /\
  forall j : nat,
    binned_one_minus_sp (combined_state inp st) !! j =
    (fun o => o * dom_factor inp st j)%R <$> binned_one_minus_sp st !! j.
Proof.
  destruct (combine_fold_spec (range (nx inp * ny inp * nz inp)) st)
    as (H1 & H2 & H3 & H4).
  { apply NoDup_range. }
  { intros k Hk. apply elem_of_range in Hk. lia. }
  split; [exact H1|]. split; [exact H2|]. split; [exact H3|].
  intros j. unfold combined_state. rewrite H4. unfold dom_factor.
  destruct (decide (Z.of_nat j ∈ range (nx inp * ny inp * nz inp))) as [Hin|Hnin];
    destruct (Z.ltb_spec (Z.of_nat j) (nx inp * ny inp * nz inp)) as [Hlt|Hge];
    try reflexivity.
  - apply elem_of_range in Hin. lia.
  - exfalso. apply Hnin. apply elem_of_range. lia.
Qed.

Lemma combined_state_lengths (inp : inputs) st :
  same_lengths (combined_state inp st) st.
Proof.
  unfold combined_state. generalize (range (nx inp * ny inp * nz inp)).
  intros l. revert st. induction l as [|k l IH]; intros st; [apply same_lengths_refl|].
  simpl. eapply same_lengths_trans; [apply IH | apply combine_state_lengths].
Qed.

(** ** The loops of a DOM as a list of bin updates *)

Lemma bind_ret_unit (m : M unit) st : (m;; mret tt) st = m st.
Proof. rewrite bind_unfold. destruct (m st) as [[] st'|e st']; reflexivity. Qed.

Section Planned.

Variable P : step -> Prop.

Lemma planned_ret : planned P (mret tt).
Proof. left. exists []. split; [constructor|]. intros st. reflexivity. Qed.

Lemma planned_step (s : step) : P s -> planned P (run_step s).
Proof.
  intros Hs. left. exists [s]. split; [repeat constructor; exact Hs|].
  intros st. rewrite for_cons. symmetry. apply bind_ret_unit.
Qed.

Lemma planned_index {A} (l : list A) (i : Z) (f : A -> M unit) :
  (forall a, 0 <= i -> l !! Z.to_nat i = Some a -> planned P (f a)) ->
  planned P (index l i ≫= f).
Proof.
  intros Hf. unfold index.
  destruct (Z.ltb_spec i 0) as [Hi|Hi].
  { right. intros st. eauto. }
  destruct (l !! Z.to_nat i) as [a|] eqn:Ha.
  - destruct (Hf a Hi eq_refl) as [(tr & Htr & Hfol)|Hfail].
    + left. exists tr. split; [exact Htr|]. intros st. apply Hfol.
    + right. intros st. apply Hfail.
  - right. intros st. eauto.
Qed.

Lemma planned_seq (m1 m2 : M unit) :
  planned P m1 -> planned P m2 -> planned P (m1;; m2).
Proof.
  intros [(tr1 & Htr1 & H1)|H1] H2.
  - destruct H2 as [(tr2 & Htr2 & H2)|H2].
    + left. exists (tr1 ++ tr2). split; [now apply Forall_app|].
      intros st. rewrite for_app, !bind_unfold, H1.
      destruct (for_ tr1 run_step st); [apply H2 | reflexivity].
    + right. intros st. rewrite bind_unfold.
      destruct (m1 st) as [[] st1|e st1]; [apply H2 | eauto].
  - right. intros st. rewrite bind_unfold.
    destruct (H1 st) as (e & st' & ->). eauto.
Qed.

Lemma planned_for {A} (l : list A) (body : A -> M unit) :
  (forall a, a ∈ l -> planned P (body a)) -> planned P (for_ l body).
Proof.
  induction l as [|a l IH]; intros Hbody; [apply planned_ret|].
  change (planned P (body a;; for_ l body)). apply planned_seq.
  - apply Hbody. now left.
  - apply IH. intros; apply Hbody. now right.
Qed.

End Planned.

Section PlannedKernel.

Variable inp : inputs.

(** The flattened index of a cell of the grid is below the size of the grid. *)
Lemma flat_cart_ix_bounds (x_idx y_idx z_idx : Z) :
  0 <= x_idx < nx inp -> 0 <= y_idx < ny inp -> 0 <= z_idx < nz inp ->
  0 <= x_idx * ny inp * nz inp + y_idx * nz inp + z_idx
    < nx inp * ny inp * nz inp.
Proof.
  intros Hx Hy Hz.
  assert (0 <= ny inp * nz inp) as Hyz by (apply Z.mul_nonneg_nonneg; lia).
  assert (x_idx * (ny inp * nz inp) <= (nx inp - 1) * (ny inp * nz inp)) as H1
    by (apply Z.mul_le_mono_nonneg_r; lia).
  assert (0 <= x_idx * (ny inp * nz inp)) as H2
    by (apply Z.mul_nonneg_nonneg; lia).
  assert (y_idx * nz inp <= (ny inp - 1) * nz inp) as H3
    by (apply Z.mul_le_mono_nonneg_r; lia).
  assert (0 <= y_idx * nz inp) as H4 by (apply Z.mul_nonneg_nonneg; lia).
  rewrite <- !Z.mul_assoc. rewrite Z.mul_sub_distr_r in H1, H3. lia.
Qed.

Lemma quadrant_body_planned dx dy x y z_idx vol sp_row sp vol_array pxf pyf pz_ q :
  vol_array ∈ vol_arrays inp -> vol ∈ vol_array ->
  sp_row ∈ survival_prob inp -> sp ∈ sp_row ->
  0 <= z_idx < nz inp ->
  planned (step_of inp)
    (quadrant_body inp dx dy x y z_idx vol (sp * vol)%R pxf pyf pz_ q).
Proof.
  intros Hva Hvol Hrow Hsp Hz. unfold quadrant_body.
  destruct (quadrant_branch inp dx dy x y pxf pyf q) as [[[x_idx y_idx] px_] py_].
  destruct (Z.ltb_spec x_idx 0); [apply planned_ret|].
  destruct (Z.leb_spec (nx inp) x_idx); [apply planned_ret|].
  destruct (Z.ltb_spec y_idx 0); [apply planned_ret|].
  destruct (Z.leb_spec (ny inp) y_idx); [apply planned_ret|].
  cbv [orb].
  apply (planned_step (step_of inp)
           {| s_ix := x_idx * ny inp * nz inp + y_idx * nz inp + z_idx;
              s_vol := vol; s_spv := (sp * vol)%R;
              s_px_spv := (px_ * (sp * vol))%R;
              s_py_spv := (py_ * (sp * vol))%R;
              s_pz_spv := (pz_ * (sp * vol))%R |}).
  split; [|split]; simpl.
  - eauto.
  - exists sp_row, sp. auto.
  - apply flat_cart_ix_bounds; lia.
Qed.

Lemma hemisphere_body_planned dx dy dz r_idx theta_idx x y z vol vol_array pxu pyu h :
  vol_array ∈ vol_arrays inp -> vol ∈ vol_array ->
  planned (step_of inp)
    (hemisphere_body inp dx dy dz r_idx theta_idx x y z vol pxu pyu h).
Proof.
  intros Hva Hvol. unfold hemisphere_body.
  destruct (hemisphere_branch inp dz z theta_idx h) as [z_idx theta_idx_].
  destruct (Z.ltb_spec z_idx 0); [apply planned_ret|].
  destruct (Z.leb_spec (nz inp) z_idx); [apply planned_ret|].
  cbv [orb].
  apply planned_index. intros sp_row _ Hrow.
  apply planned_index. intros sp _ Hsp.
  apply planned_index. intros prho_row _ _.
  apply planned_index. intros prho_ _ _.
  apply planned_index. intros pz_row _ _.
  apply planned_index. intros pz_ _ _.
  apply planned_for. intros q _.
  eapply quadrant_body_planned; eauto using list_elem_of_lookup_2.
Qed.

Lemma cart_bin_body_planned dx dy dz r_idx theta_idx vol_array ind_array ix :
  vol_array ∈ vol_arrays inp ->
  planned (step_of inp)
    (cart_bin_body inp dx dy dz r_idx theta_idx vol_array ind_array ix).
Proof.
  intros Hva. unfold cart_bin_body.
  apply planned_index. intros vol _ Hvol.
  apply planned_index. intros [[x_u y_u] z_u] _ _.
  apply planned_for. intros h _.
  eapply hemisphere_body_planned; eauto using list_elem_of_lookup_2.
Qed.

Lemma pol_bin_body_planned dx dy dz r_idx theta_idx :
  planned (step_of inp) (pol_bin_body inp dx dy dz r_idx theta_idx).
Proof.
  unfold pol_bin_body.
  apply planned_index. intros vol_array _ Hva.
  apply planned_index. intros ind_array _ _.
  apply planned_for. intros ix _.
  apply cart_bin_body_planned. eauto using list_elem_of_lookup_2.
Qed.

(** The loops of a DOM apply a list of bin updates that the state does
    not influence, or fail on every state. *)
Lemma dom_loops_planned dx dy dz : planned (step_of inp) (dom_loops inp dx dy dz).
Proof.
  unfold dom_loops. apply planned_for. intros r_idx _.
  apply planned_for. intros theta_idx _. apply pol_bin_body_planned.
Qed.

End PlannedKernel.

(** ** The prologue *)

Lemma foldl_id {A} (l : list A) (st : state) : foldl (fun st _ => st) st l = st.
Proof. induction l; simpl; auto. Qed.

Lemma assert_Ok (b : bool) st st' : assert_ b st = Ok tt st' <-> b = true /\ st' = st.
Proof.
  destruct b; simpl; split.
  - intros [= <-]. auto.
  - intros [_ ->]. reflexivity.
  - discriminate.
  - intros [[=] _].
Qed.

Lemma alloc_bind {B} a n (k : M B) st :
  (alloc a n;; k) st = k (set_array a (replicate (Z.to_nat n) 0%R) st).
Proof. reflexivity. Qed.

Lemma fill_bind {B} a v (k : M B) st :
  (fill a v;; k) st = k (set_array a (replicate (length (get_array a st)) v) st).
Proof. reflexivity. Qed.

Lemma check_shapes_Ok (inp : inputs) st st' :
  for_ output_arrays (check_shape inp) st = Ok tt st' <->
  (forall a, a ∈ output_arrays ->
     Z.of_nat (length (get_array a st)) = nx inp * ny inp * nz inp) /\ st' = st.
Proof.
  rewrite (for_guarded (check_shape inp)
             (fun a st => Z.of_nat (length (get_array a st))
                          = nx inp * ny inp * nz inp)
             (fun _ st => st)).
  - rewrite Forall_forall, foldl_id. reflexivity.
  - intros a s s'. unfold check_shape. rewrite bind_Ok. split.
    + intros (n & s1 & [= <- <-] & H). apply assert_Ok in H as [H ->].
      apply Z.eqb_eq in H. auto.
    + intros [H ->]. eexists _, s. split; [reflexivity|].
      apply assert_Ok. split; [now apply Z.eqb_eq | reflexivity].
  - reflexivity.
Qed.

Lemma load_pol_bins_Ok (inp : inputs) st st' :
  for_ (range (num_first_octant_pol_bins inp)) (load_pol_bin inp) st = Ok tt st' <->
  (length (vol_arrays inp) <= length (ind_arrays inp))%nat /\ st' = st.
Proof.
  rewrite (for_guarded (load_pol_bin inp)
             (fun ix _ => 0 <= ix /\ is_Some (vol_arrays inp !! Z.to_nat ix)
                          /\ is_Some (ind_arrays inp !! Z.to_nat ix))
             (fun _ st => st)).
  - rewrite Forall_forall, foldl_id. unfold num_first_octant_pol_bins.
    split; intros [H ->]; (split; [|reflexivity]).
    + destruct (vol_arrays inp) as [|v l] eqn:E; [simpl; lia|].
      destruct (H (Z.of_nat (length l))) as (_ & _ & Hi).
      { apply elem_of_range. simpl length. lia. }
      apply lookup_lt_is_Some_1 in Hi. rewrite Nat2Z.id in Hi. simpl. lia.
    + intros ix Hix. apply elem_of_range in Hix.
      split; [lia|]. split; apply lookup_lt_is_Some_2; lia.
  - intros ix s s'. unfold load_pol_bin. rewrite bind_Ok. split.
    + intros (v & s1 & Hv & H). apply index_Ok in Hv as (H0 & Hv & ->).
      apply bind_Ok in H as (i & s1 & Hi & H).
      apply index_Ok in Hi as (_ & Hi & ->). injection H as <-. eauto.
    + intros [(H0 & [v Hv] & [i Hi]) ->]. exists v, s.
      split; [now apply index_lookup|]. apply bind_Ok. exists i, s.
      split; [now apply index_lookup | reflexivity].
  - reflexivity.
Qed.

(** [prologue] succeeds on the valid configurations, and then it
    allocates the scratch arrays and writes nothing else. *)
Lemma prologue_Ok (inp : inputs) st st' :
  prologue inp st = Ok tt st' <-> valid_config inp st /\ st' = allocated inp st.
Proof.
  unfold prologue, valid_config.
  assert (forall a, a ∈ output_arrays ->
            get_array a (allocated inp st) = get_array a st) as Hkeep.
  { intros a Ha. unfold allocated. rewrite !get_set_other; [reflexivity| |];
      intros ->; unfold output_arrays in Ha;
      repeat (apply elem_of_cons in Ha as [Ha | Ha]; [discriminate|]);
      inversion Ha. }
  split.
  - intros H.
    apply bind_Ok in H as ([] & s & H1 & H). apply assert_Ok in H1 as [H1 ->].
    apply bind_Ok in H as ([] & s & H2 & H). apply assert_Ok in H2 as [H2 ->].
    apply bind_Ok in H as ([] & s & H3 & H). apply assert_Ok in H3 as [H3 ->].
    apply bind_Ok in H as ([] & s & [= <-] & H).
    apply bind_Ok in H as ([] & s & [= <-] & H).
    fold (allocated inp st) in H.
    apply bind_Ok in H as ([] & s & H4 & H). apply assert_Ok in H4 as [H4 ->].
    apply bind_Ok in H as ([] & s & H5 & H). apply assert_Ok in H5 as [H5 ->].
    apply bind_Ok in H as ([] & s & H6 & H). apply assert_Ok in H6 as [H6 ->].
    apply bind_Ok in H as ([] & s & H7 & H). apply assert_Ok in H7 as [H7 ->].
    apply bind_Ok in H as ([] & s & H8 & H). apply check_shapes_Ok in H8 as [H8 ->].
    apply load_pol_bins_Ok in H as [H9 ->].
    apply double_gt_spec in H1. apply Z.leb_le in H2.
    apply double_lt_spec in H4, H5, H6. apply Z.eqb_eq in H7.
    repeat split; try assumption.
    + now destruct (anisotropy inp).
    + intros a Ha. rewrite <- (Hkeep a Ha). now apply H8.
  - intros [(H1 & H2 & H3 & H4 & H5 & H6 & H7 & H8 & H9) ->].
    rewrite assert_bind_true by now apply double_gt_true.
    rewrite assert_bind_true by now apply Z.leb_le.
    rewrite assert_bind_true by now rewrite H3.
    rewrite !alloc_bind. fold (allocated inp st).
    rewrite assert_bind_true by now apply double_lt_true.
    rewrite assert_bind_true by now apply double_lt_true.
    rewrite assert_bind_true by now apply double_lt_true.
    rewrite assert_bind_true by now apply Z.eqb_eq.
    apply bind_Ok. exists tt, (allocated inp st). split.
    + apply check_shapes_Ok. split; [|reflexivity].
      intros a Ha. rewrite (Hkeep a Ha). now apply H8.
    + apply load_pol_bins_Ok. auto.
Qed.

(** ** One DOM as a function of the state *)

Lemma step_state_get (a : array_name) (s : step) st :
  get_array a (step_state s st) =
  alter (fun x => x + weight a s)%R (Z.to_nat (s_ix s)) (get_array a st).
Proof.
  destruct a; try reflexivity. simpl.
  symmetry. apply list_alter_id. intros; lra.
Qed.

(** After a list of bin updates, cell [k] of each array has grown by
    the sum of the weights that fell in it. *)
Lemma steps_state_lookup (a : array_name) (tr : list step) st (k : nat) :
  get_array a (steps_state tr st) !! k =
  (fun x => x + cell_sum (weight a) tr k)%R <$> get_array a st !! k.
Proof.
  revert st. induction tr as [|s tr IH]; intros st; simpl.
  - destruct (get_array a st !! k); simpl; [f_equal; lra | reflexivity].
  - fold (steps_state tr (step_state s st)). rewrite IH, step_state_get.
    destruct (decide (Z.to_nat (s_ix s) = k)) as [<-|Hne].
    + rewrite list_lookup_alter_eq.
      destruct (get_array a st !! Z.to_nat (s_ix s)); simpl; [f_equal; lra | reflexivity].
    + rewrite list_lookup_alter_ne by exact Hne.
      destruct (get_array a st !! k); simpl; [f_equal; lra | reflexivity].
Qed.

Lemma steps_state_one_minus_sp (tr : list step) st :
  binned_one_minus_sp (steps_state tr st) = binned_one_minus_sp st.
Proof.
  revert st. induction tr as [|s tr IH]; intros st; [reflexivity|].
  simpl. fold (steps_state tr (step_state s st)). now rewrite IH.
Qed.

Lemma reset_state_lengths st : same_lengths (reset_state st) st.
Proof. intros []; simpl; try apply length_replicate; reflexivity. Qed.

Lemma reset_state_get (a : array_name) st :
  get_array a (reset_state st) =
  match a with
  | DomBinnedVol | DomBinnedSpv => replicate (length (get_array a st)) 0%R
  | _ => get_array a st
  end.
Proof. destruct a; reflexivity. Qed.

Lemma dom_state_lengths (inp : inputs) tr st : same_lengths (dom_state inp tr st) st.
Proof.
  unfold dom_state.
  eapply same_lengths_trans; [apply combined_state_lengths|].
  eapply same_lengths_trans; [apply steps_state_lengths | apply reset_state_lengths].
Qed.

(** The scratch arrays after the loops of a DOM: cell [k] holds the
    sum of the volumes, and of the weights, that fell in it. *)
Lemma dom_state_scratch (inp : inputs) tr st (k : nat) :
  dom_binned_vol (dom_state inp tr st) !! k =
    (if decide (k < length (dom_binned_vol st))%nat
     then Some (0 + cell_sum s_vol tr k)%R else None) /\
  dom_binned_spv (dom_state inp tr st) !! k =
    (if decide (k < length (dom_binned_spv st))%nat
     then Some (0 + cell_sum s_spv tr k)%R else None).
Proof.
  unfold dom_state.
  destruct (combined_state_spec inp (steps_state tr (reset_state st)))
    as (-> & -> & _ & _).
  pose proof (steps_state_lookup DomBinnedVol tr (reset_state st) k) as Hv.
  pose proof (steps_state_lookup DomBinnedSpv tr (reset_state st) k) as Hs.
  rewrite reset_state_get in Hv, Hs. simpl in Hv, Hs. rewrite Hv, Hs.
  split; case_decide as Hk.
  - now rewrite lookup_replicate_2.
  - rewrite (proj1 (lookup_replicate_None _ _ _)); [reflexivity | lia].
  - now rewrite lookup_replicate_2.
  - rewrite (proj1 (lookup_replicate_None _ _ _)); [reflexivity | lia].
Qed.

(** The five arrays of the caller after a DOM. *)
Lemma dom_state_sums (inp : inputs) tr st (a : array_name) (k : nat) :
  a ∈ output_arrays -> a <> BinnedOneMinusSp ->
  get_array a (dom_state inp tr st) !! k =
  (fun x => x + cell_sum (weight a) tr k)%R <$> get_array a st !! k.
Proof.
  intros Ha Hne. unfold dom_state.
  destruct (combined_state_spec inp (steps_state tr (reset_state st)))
    as (_ & _ & H3 & _).
  rewrite (H3 a Hne), steps_state_lookup, reset_state_get.
  unfold output_arrays in Ha.
  repeat (apply elem_of_cons in Ha as [-> | Ha]; [reflexivity|]). inversion Ha.
Qed.

Lemma dom_state_one_minus_sp (inp : inputs) tr st (k : nat) :
  binned_one_minus_sp (dom_state inp tr st) !! k =
  (fun o => o * dom_factor inp (steps_state tr (reset_state st)) k)%R
    <$> binned_one_minus_sp st !! k.
Proof.
  unfold dom_state.
  destruct (combined_state_spec inp (steps_state tr (reset_state st)))
    as (_ & _ & _ & H4).
  now rewrite H4, steps_state_one_minus_sp.
Qed.

Lemma dom_accumulate_reset (inp : inputs) dom_x dom_y dom_z st :
  dom_accumulate inp (dom_x, dom_y, dom_z) st =
  dom_loops inp (c_round ((dom_x - x_min inp) * inv_os_bw inp))
    (c_round ((dom_y - y_min inp) * inv_os_bw inp))
    (c_round ((dom_z - z_min inp) * inv_os_bw inp)) (reset_state st).
Proof. reflexivity. Qed.

(** A DOM that is not skipped applies a list of bin updates that does
    not depend on the state and then combines, or it fails on every
    state. *)
Lemma dom_body_trace (inp : inputs) (dom : R * R * R) :
  dom_outside inp dom = false ->
  (exists tr, Forall (step_of inp) tr /\
     forall st st',
       dom_body inp dom st = Ok tt st' <->
       Forall (fun s => step_in_bounds s (reset_state st)) tr /\
       Forall (fun k => combine_in_bounds k (steps_state tr (reset_state st)))
         (range (nx inp * ny inp * nz inp)) /\
       st' = dom_state inp tr st)
  \/ (forall st, exists e st', dom_body inp dom st = Raise e st').
Proof.
  intros Hout. destruct dom as [[dom_x dom_y] dom_z].
  unfold dom_body. rewrite Hout.
  destruct (dom_loops_planned inp
              (c_round ((dom_x - x_min inp) * inv_os_bw inp))
              (c_round ((dom_y - y_min inp) * inv_os_bw inp))
              (c_round ((dom_z - z_min inp) * inv_os_bw inp)))
    as [(tr & Htr & Hfol)|Hfail].
  - left. exists tr. split; [exact Htr|]. intros st st'.
    rewrite bind_Ok. split.
    + intros ([] & st1 & H1 & H2). rewrite dom_accumulate_reset, Hfol in H1.
      apply run_steps_Ok in H1 as [Hb ->].
      apply dom_combine_Ok in H2 as [Hc ->]. auto.
    + intros (Hb & Hc & ->). exists tt, (steps_state tr (reset_state st)). split.
      * rewrite dom_accumulate_reset, Hfol. apply run_steps_Ok. auto.
      * apply dom_combine_Ok. auto.
  - right. intros st. rewrite bind_unfold, dom_accumulate_reset.
    destruct (Hfail (reset_state st)) as (e & st' & ->). eauto.
Qed.

(** ** The eight symmetry branches *)

(** C2: the two hemisphere branches and the four quadrant branches of
    the kernel are the maps of the specification on the cell offsets
    (branch 0 keeps z and theta, branch 1 maps z to -1-z and theta to
    ntheta-1-theta; quadrant 0 is the identity, quadrant 1 maps (x,y)
    to (-1-y,x) and (dx,dy) to (-dy,dx), quadrant 2 maps (x,y) to
    (-1-x,-1-y) and negates the direction, quadrant 3 maps (x,y) to
    (y,-1-x) and (dx,dy) to (dy,-dx)), followed by the shift to the
    DOM and the division by the oversampling factor; the loops run
    over exactly these branches. *)
Theorem symmetry_branches (inp : inputs)
    (dom_x_os_idx dom_y_os_idx dom_z_os_idx x y z theta : Z) (dx dy : R) :
  let os := oversample inp in
  range 2 = [0; 1] /\ range 4 = [0; 1; 2; 3] /\
  Forall (fun hemisphere =>
     hemisphere_branch inp dom_z_os_idx z theta hemisphere =
     let '(z', theta') := hemisphere_image (ntheta inp) hemisphere z theta in
     (cdiv (z' + dom_z_os_idx) os, theta')) (range 2) /\
  Forall (fun quadrant =>
     quadrant_branch inp dom_x_os_idx dom_y_os_idx x y dx dy quadrant =
     let '(x', y', dx', dy') := quadrant_image quadrant x y dx dy in
     (cdiv (x' + dom_x_os_idx) os, cdiv (y' + dom_y_os_idx) os, dx', dy'))
    (range 4) /\
  hemisphere_image (ntheta inp) 0 z theta = (z, theta) /\
  hemisphere_image (ntheta inp) 1 z theta = (-1 - z, ntheta inp - 1 - theta) /\
  quadrant_image 0 x y dx dy = (x, y, dx, dy) /\
  quadrant_image 1 x y dx dy = (-1 - y, x, (- dy)%R, dx) /\
  quadrant_image 2 x y dx dy = (-1 - x, -1 - y, (- dx)%R, (- dy)%R) /\
  quadrant_image 3 x y dx dy = (y, -1 - x, dy, (- dx)%R).
Proof.
  intros os. split; [reflexivity|]. split; [reflexivity|].
  split; [|split; [|repeat split]].
  - change (range 2) with [0; 1]. repeat constructor.
  - change (range 4) with [0; 1; 2; 3]. repeat constructor.
Qed.

(** ** The divisor of the azimuthal direction *)

Lemma half_os_bw_pos (inp : inputs) :
  (binwidth inp > 0)%R -> 1 <= oversample inp -> (0 < half_os_bw inp)%R.
Proof.
  intros Hb Ho. unfold half_os_bw, os_bw.
  assert (0 < IZR (oversample inp))%R as Hos by (apply IZR_lt; lia).
  apply Rdiv_lt_0_compat; [|lra]. apply Rdiv_lt_0_compat; lra.
Qed.

Lemma bin_center_lower (inp : inputs) (os_idx : Z) :
  (binwidth inp > 0)%R -> 1 <= oversample inp -> 0 <= os_idx ->
  (half_os_bw inp <= bin_center inp os_idx)%R.
Proof.
  intros Hb Ho Hi. pose proof (half_os_bw_pos inp Hb Ho) as Hh.
  unfold bin_center. unfold half_os_bw in *.
  apply IZR_le in Hi.
  assert (0 <= IZR os_idx * os_bw inp)%R; [|lra].
  apply Rmult_le_pos; lra.
Qed.

(** C10: under the checked preconditions [binwidth > 0] and
    [oversample >= 1], both bin-centre coordinates of every entry of
    the overlap mapping (whose offsets are unsigned and, below 2^31,
    keep their value in the cast to [int] of lines 301-302) are at
    least half an oversampled bin width, and the divisor
    sqrt(px_unnormed^2 + py_unnormed^2) is strictly positive. *)
Theorem rho_norm_divisor_positive (inp : inputs) (x_u y_u : N) :
  (binwidth inp > 0)%R -> 1 <= oversample inp ->
  Z.of_N x_u < int_bound -> Z.of_N y_u < int_bound ->
  (0 < half_os_bw inp <= bin_center inp (Z.of_N x_u))%R /\
  (half_os_bw inp <= bin_center inp (Z.of_N y_u))%R /\
  (0 < bin_pos_rho inp (Z.of_N x_u) (Z.of_N y_u))%R.
Proof.
  intros Hb Ho _ _.
  pose proof (half_os_bw_pos inp Hb Ho) as Hh.
  pose proof (bin_center_lower inp (Z.of_N x_u) Hb Ho ltac:(lia)) as Hx.
  pose proof (bin_center_lower inp (Z.of_N y_u) Hb Ho ltac:(lia)) as Hy.
  repeat split; try assumption.
  unfold bin_pos_rho. apply sqrt_lt_R0.
  assert (0 < bin_center inp (Z.of_N x_u) * bin_center inp (Z.of_N x_u))%R
    by (apply Rmult_lt_0_compat; lra).
  assert (0 < bin_center inp (Z.of_N y_u) * bin_center inp (Z.of_N y_u))%R
    by (apply Rmult_lt_0_compat; lra).
  lra.
Qed.

(** ** The quick check on a DOM *)

Lemma dom_outside_boundary (inp : inputs) (dom : R * R * R) :
  on_rejection_boundary inp dom -> dom_outside inp dom = true.
Proof.
  destruct dom as [[dom_x dom_y] dom_z]. unfold on_rejection_boundary, dom_outside.
  intros [H | [H | [H | [H | [H | H]]]]].
  - rewrite (double_le_true _ _ (Req_le _ _ H)). reflexivity.
  - rewrite (double_ge_true (dom_x - _) _ (Req_ge _ _ H)).
    now rewrite orb_true_r.
  - rewrite (double_le_true (dom_y + _) _ (Req_le _ _ H)).
    now rewrite orb_true_r.
  - rewrite (double_ge_true (dom_y - _) _ (Req_ge _ _ H)).
    now rewrite !orb_true_r.
  - rewrite (double_le_true (dom_z + _) _ (Req_le _ _ H)).
    now rewrite !orb_true_r.
  - rewrite (double_ge_true (dom_z - _) _ (Req_ge _ _ H)).
    now rewrite !orb_true_r.
Qed.

(** C8: a DOM that lies exactly r_max outside a face of the grid is
    rejected by the bounding check: processing it changes none of the
    arrays. *)
Theorem boundary_dom_contributes_nothing (inp : inputs) (dom : R * R * R)
    (st : state) :
  on_rejection_boundary inp dom -> dom_body inp dom st = Ok tt st.
Proof.
  intros H. unfold dom_body. rewrite (dom_outside_boundary inp dom H).
  reflexivity.
Qed.

(** ** Configuration errors *)




(** ** The call returns on well-shaped inputs *)

Section Runs.

Variable P : step -> Prop.

Lemma runs_ret : runs P (mret tt).
Proof. exists []. split; [constructor|]. intros st. reflexivity. Qed.

Lemma runs_step (s : step) : P s -> runs P (run_step s).
Proof.
  intros Hs. exists [s]. split; [repeat constructor; exact Hs|].
  intros st. rewrite for_cons. symmetry. apply bind_ret_unit.
Qed.

Lemma runs_index {A} (l : list A) (i : Z) (f : A -> M unit) (a : A) :
  0 <= i -> l !! Z.to_nat i = Some a -> runs P (f a) -> runs P (index l i ≫= f).
Proof.
  intros Hi Ha (tr & Htr & Hfol). exists tr. split; [exact Htr|].
  intros st. rewrite bind_unfold, (index_lookup l i a st Hi Ha). apply Hfol.
Qed.

Lemma runs_seq (m1 m2 : M unit) : runs P m1 -> runs P m2 -> runs P (m1;; m2).
Proof.
  intros (tr1 & Htr1 & H1) (tr2 & Htr2 & H2).
  exists (tr1 ++ tr2). split; [now apply Forall_app|].
  intros st. rewrite for_app, !bind_unfold, H1.
  destruct (for_ tr1 run_step st); [apply H2 | reflexivity].
Qed.

Lemma runs_for {A} (l : list A) (body : A -> M unit) :
  (forall a, a ∈ l -> runs P (body a)) -> runs P (for_ l body).
Proof.
  induction l as [|a l IH]; intros Hbody; [apply runs_ret|].
  change (runs P (body a;; for_ l body)). apply runs_seq.
  - apply Hbody. now left.
  - apply IH. intros; apply Hbody. now right.
Qed.

End Runs.

Section Total.

Variable inp : inputs.
Hypothesis shaped : well_shaped inp.

Lemma quadrant_body_runs dx dy x y z_idx vol sp_row sp vol_array pxf pyf pz_ q :
  vol_array ∈ vol_arrays inp -> vol ∈ vol_array ->
  sp_row ∈ survival_prob inp -> sp ∈ sp_row ->
  0 <= z_idx < nz inp ->
  runs (step_of inp)
    (quadrant_body inp dx dy x y z_idx vol (sp * vol)%R pxf pyf pz_ q).
Proof.
  intros Hva Hvol Hrow Hsp Hz. unfold quadrant_body.
  destruct (quadrant_branch inp dx dy x y pxf pyf q) as [[[x_idx y_idx] px_] py_].
  destruct (Z.ltb_spec x_idx 0); [apply runs_ret|].
  destruct (Z.leb_spec (nx inp) x_idx); [apply runs_ret|].
  destruct (Z.ltb_spec y_idx 0); [apply runs_ret|].
  destruct (Z.leb_spec (ny inp) y_idx); [apply runs_ret|].
  cbv [orb].
  apply (runs_step (step_of inp)
           {| s_ix := x_idx * ny inp * nz inp + y_idx * nz inp + z_idx;
              s_vol := vol; s_spv := (sp * vol)%R;
              s_px_spv := (px_ * (sp * vol))%R;
              s_py_spv := (py_ * (sp * vol))%R;
              s_pz_spv := (pz_ * (sp * vol))%R |}).
  split; [|split]; simpl.
  - eauto.
  - exists sp_row, sp. auto.
  - apply flat_cart_ix_bounds; lia.
Qed.

(** The polar-angle index of either hemisphere is a column of the tables. *)
Lemma theta_idx_bounds dz z theta_idx h :
  theta_idx ∈ range (ntheta_in_quad inp) ->
  0 <= snd (hemisphere_branch inp dz z theta_idx h) < ntheta inp.
Proof.
  intros Ht. apply elem_of_range in Ht.
  unfold ntheta_in_quad in Ht. rewrite c_ceil_half in Ht.
  assert ((ntheta inp + 1) `div` 2 <= ntheta inp /\
          (ntheta inp + 1) `div` 2 + ntheta inp `div` 2 = ntheta inp /\
          0 <= ntheta inp `div` 2) as (H1 & H2 & H3).
  { pose proof (Z.div_mod (ntheta inp + 1) 2 ltac:(lia)).
    pose proof (Z.mod_pos_bound (ntheta inp + 1) 2 ltac:(lia)).
    pose proof (Z.div_mod (ntheta inp) 2 ltac:(lia)).
    pose proof (Z.mod_pos_bound (ntheta inp) 2 ltac:(lia)).
    assert (0 < (ntheta inp + 1) `div` 2) by lia. lia. }
  unfold hemisphere_branch. destruct (h =? 0); simpl; lia.
Qed.

Lemma hemisphere_body_runs dx dy dz r_idx theta_idx x y z vol vol_array pxu pyu h :
  vol_array ∈ vol_arrays inp -> vol ∈ vol_array ->
  r_idx ∈ range (nr inp) -> theta_idx ∈ range (ntheta_in_quad inp) ->
  runs (step_of inp)
    (hemisphere_body inp dx dy dz r_idx theta_idx x y z vol pxu pyu h).
Proof.
  intros Hva Hvol Hr Ht. unfold hemisphere_body.
  pose proof (theta_idx_bounds dz z theta_idx h Ht) as Hth.
  destruct (hemisphere_branch inp dz z theta_idx h) as [z_idx theta_idx_].
  simpl in Hth. apply elem_of_range in Hr.
  destruct (Z.ltb_spec z_idx 0); [apply runs_ret|].
  destruct (Z.leb_spec (nz inp) z_idx); [apply runs_ret|].
  cbv [orb].
  destruct shaped as (_ & Hsp & Hprho & Hpz).
  destruct (Hsp r_idx theta_idx_ Hr Hth) as (sp_row & sp & Hsp1 & Hsp2).
  destruct (Hprho r_idx theta_idx_ Hr Hth) as (prho_row & prho_ & Hp1 & Hp2).
  destruct (Hpz r_idx theta_idx_ Hr Hth) as (pz_row & pz_ & Hz1 & Hz2).
  eapply runs_index; [lia | exact Hsp1|].
  eapply runs_index; [lia | exact Hsp2|].
  eapply runs_index; [lia | exact Hp1|].
  eapply runs_index; [lia | exact Hp2|].
  eapply runs_index; [lia | exact Hz1|].
  eapply runs_index; [lia | exact Hz2|].
  apply runs_for. intros q _.
  eapply quadrant_body_runs; eauto using list_elem_of_lookup_2.
Qed.

Lemma pol_bin_body_runs dx dy dz r_idx theta_idx :
  r_idx ∈ range (nr inp) -> theta_idx ∈ range (ntheta_in_quad inp) ->
  runs (step_of inp) (pol_bin_body inp dx dy dz r_idx theta_idx).
Proof.
  intros Hr Ht. unfold pol_bin_body.
  destruct shaped as (Hbins & _).
  destruct (Hbins r_idx theta_idx Hr Ht) as (vol_array & ind_array & Hv & Hi & Hlen).
  assert (0 <= flat_pol_idx inp r_idx theta_idx) as Hflat.
  { apply elem_of_range in Hr, Ht. unfold flat_pol_idx.
    assert (0 <= r_idx * ntheta_in_quad inp) by (apply Z.mul_nonneg_nonneg; lia).
    lia. }
  eapply runs_index; [exact Hflat | exact Hv|].
  eapply runs_index; [exact Hflat | exact Hi|].
  apply runs_for. intros ix Hix. apply elem_of_range in Hix.
  unfold cart_bin_body.
  destruct (lookup_lt_is_Some_2 vol_array (Z.to_nat ix)) as [vol Hvol]; [lia|].
  destruct (lookup_lt_is_Some_2 ind_array (Z.to_nat ix)) as [[[x_u y_u] z_u] Hind];
    [lia|].
  eapply runs_index; [lia | exact Hvol|].
  eapply runs_index; [lia | exact Hind|].
  apply runs_for. intros h _.
  eapply hemisphere_body_runs; eauto using list_elem_of_lookup_2.
Qed.

Lemma dom_loops_runs dx dy dz : runs (step_of inp) (dom_loops inp dx dy dz).
Proof.
  unfold dom_loops. apply runs_for. intros r_idx Hr.
  apply runs_for. intros theta_idx Ht. now apply pol_bin_body_runs.
Qed.

Lemma dom_body_returns (dom : R * R * R) (st : state) :
  grid_sized inp st ->
  exists st', dom_body inp dom st = Ok tt st' /\ grid_sized inp st'.
Proof.
  intros Hsz. unfold dom_body. destruct (dom_outside inp dom) eqn:Hout.
  { exists st. auto. }
  destruct dom as [[dom_x dom_y] dom_z].
  destruct (dom_loops_runs
              (c_round ((dom_x - x_min inp) * inv_os_bw inp))
              (c_round ((dom_y - y_min inp) * inv_os_bw inp))
              (c_round ((dom_z - z_min inp) * inv_os_bw inp)))
    as (tr & Htr & Hfol).
  exists (dom_state inp tr st). split.
  - apply bind_Ok. exists tt, (steps_state tr (reset_state st)). split.
    + rewrite dom_accumulate_reset, Hfol. apply run_steps_Ok. split; [|reflexivity].
      eapply Forall_impl; [exact Htr|]. intros s (_ & _ & Hix).
      split; [lia|]. intros a _. rewrite reset_state_lengths, Hsz. lia.
    + apply dom_combine_Ok. split; [|reflexivity].
      apply Forall_forall. intros k Hk. apply elem_of_range in Hk.
      pose proof (steps_state_lengths tr (reset_state st)) as Hl1.
      pose proof (reset_state_lengths st) as Hl2.
      split; [lia|].
      destruct (lookup_lt_is_Some_2
                  (dom_binned_vol (steps_state tr (reset_state st))) (Z.to_nat k))
        as [bv Hbv].
      { pose proof (Hl1 DomBinnedVol) as E1. pose proof (Hl2 DomBinnedVol) as E2.
        pose proof (Hsz DomBinnedVol) as E3. simpl in E1, E2, E3. lia. }
      exists bv. split; [exact Hbv|]. intros _. split; apply lookup_lt_is_Some_2.
      * pose proof (Hl1 DomBinnedSpv) as E1. pose proof (Hl2 DomBinnedSpv) as E2.
        pose proof (Hsz DomBinnedSpv) as E3. simpl in E1, E2, E3. lia.
      * pose proof (Hl1 BinnedOneMinusSp) as E1.
        pose proof (Hl2 BinnedOneMinusSp) as E2.
        pose proof (Hsz BinnedOneMinusSp) as E3. simpl in E1, E2, E3. lia.
  - intros a. rewrite dom_state_lengths. apply Hsz.
Qed.

Lemma doms_return (doms : list (R * R * R)) (st : state) :
  grid_sized inp st -> exists st', for_ doms (dom_body inp) st = Ok tt st'.
Proof.
  revert st. induction doms as [|dom doms IH]; intros st Hsz.
  - exists st. reflexivity.
  - destruct (dom_body_returns dom st Hsz) as (st1 & Hrun & Hsz1).
    destruct (IH st1 Hsz1) as (st' & Hrest).
    exists st'. rewrite for_cons. apply bind_Ok. eauto.
Qed.

(** On a valid configuration with well-shaped tables the call returns:
    no assertion fails and no read leaves its array. *)
Lemma shift_and_bin_returns (st : state) :
  valid_config inp st -> exists st', shift_and_bin inp st = Ok tt st'.
Proof.
  intros Hvalid.
  destruct (doms_return (dom_coords inp) (allocated inp st)) as (st' & Hrun).
  { destruct Hvalid as (_ & _ & _ & _ & _ & _ & _ & Hlen & _).
    assert (0 <= nx inp * ny inp * nz inp) as Hn.
    { rewrite <- (Hlen BinnedSpv) by (unfold output_arrays; now left). lia. }
    intros a. unfold allocated.
    destruct a; simpl; rewrite ?length_replicate, ?Z2Nat.id by exact Hn;
      try reflexivity.
    - apply (Hlen BinnedSpv). unfold output_arrays. repeat constructor.
    - apply (Hlen BinnedPxSpv). unfold output_arrays. repeat constructor.
    - apply (Hlen BinnedPySpv). unfold output_arrays. repeat constructor.
    - apply (Hlen BinnedPzSpv). unfold output_arrays. repeat constructor.
    - apply (Hlen BinnedOneMinusSp). unfold output_arrays. repeat constructor. }
  exists st'. unfold shift_and_bin. apply bind_Ok.
  exists tt, (allocated inp st). split; [|exact Hrun].
  apply prologue_Ok. auto.
Qed.

End Total.

(** ** The rule that folds a DOM into the shared arrays *)

Lemma dom_factor_dom_state (inp : inputs) tr st (k : nat) :
  dom_factor inp (steps_state tr (reset_state st)) k =
  dom_factor inp (dom_state inp tr st) k.
Proof.
  unfold dom_factor. destruct (_ <? _); [|reflexivity].
  apply combine_factor_scratch; unfold dom_state;
    destruct (combined_state_spec inp (steps_state tr (reset_state st)))
      as (H1 & H2 & _); congruence.
Qed.

Lemma fmap_ext_R (f g : R -> R) (o : option R) :
  (forall x, f x = g x) -> f <$> o = g <$> o.
Proof. intros H. destruct o; simpl; [f_equal; apply H | reflexivity]. Qed.

Lemma fmap_id_R (f : R -> R) (o : option R) :
  (forall x, f x = x) -> f <$> o = o.
Proof. intros H. destruct o; simpl; [f_equal; apply H | reflexivity]. Qed.

Lemma dom_body_inside_Ok (inp : inputs) dom st st' :
  dom_outside inp dom = false -> dom_body inp dom st = Ok tt st' ->
  exists tr, Forall (step_of inp) tr /\
    (forall s s',
       dom_body inp dom s = Ok tt s' <->
       Forall (fun x => step_in_bounds x (reset_state s)) tr /\
       Forall (fun k => combine_in_bounds k (steps_state tr (reset_state s)))
         (range (nx inp * ny inp * nz inp)) /\
       s' = dom_state inp tr s) /\
    st' = dom_state inp tr st.
Proof.
  intros Hout Hrun.
  destruct (dom_body_trace inp dom Hout) as [(tr & Htr & Hiff)|Hfail].
  - exists tr. split; [exact Htr|]. split; [exact Hiff|].
    apply Hiff in Hrun. tauto.
  - destruct (Hfail st) as (e & s & Hr). congruence.
Qed.

(** C1: for a DOM that is processed, at every cell of the grid the
    entry of [binned_one_minus_sp] is multiplied by
    1 - local_spv/local_volume where the local volume of the DOM is not
    zero and is left as it was where that volume is zero, and the entry
    of [binned_spv] grows by the local spv itself, before any division;
    a DOM that the quick check skips leaves the state as it was.  On
    well-shaped tables and grid-sized arrays, within the ranges of the
    C types ([in_c_range]: bin counts that fit [unsigned int], [nr]
    and [ntheta] not negative, offsets that fit [int]), the DOM is
    processed without error. *)
Theorem dom_combine_rule (inp : inputs) (dom : R * R * R) (st : state) :
  (in_c_range inp -> well_shaped inp -> grid_sized inp st ->
   exists st', dom_body inp dom st = Ok tt st') /\
  forall st',
    dom_body inp dom st = Ok tt st' ->
    (dom_outside inp dom = true -> st' = st) /\
    (dom_outside inp dom = false ->
     forall (k : nat) (bv s : R),
       Z.of_nat k < nx inp * ny inp * nz inp ->
       dom_binned_vol st' !! k = Some bv ->
       dom_binned_spv st' !! k = Some s ->
       (bv <> 0%R ->
        binned_one_minus_sp st' !! k =
        (fun o => o * (1 - s / bv))%R <$> binned_one_minus_sp st !! k) /\
       (bv = 0%R ->
        binned_one_minus_sp st' !! k = binned_one_minus_sp st !! k) /\
       binned_spv st' !! k = (fun b => b + s)%R <$> binned_spv st !! k).
Proof.
  split.
  { intros _ Hshape Hsz.
    destruct (dom_body_returns inp Hshape dom st Hsz) as (st' & Hrun & _). eauto. }
  intros st' Hrun. split.
  - intros Hout. unfold dom_body in Hrun. rewrite Hout in Hrun. now injection Hrun.
  - intros Hout k bv s Hk Hbv Hs.
    destruct (dom_body_inside_Ok inp dom st st' Hout Hrun) as (tr & _ & _ & Hst).
    subst st'.
    assert (dom_factor inp (dom_state inp tr st) k =
            if double_eq bv 0 then 1%R else (1 - s / bv)%R) as Hf.
    { unfold dom_factor, combine_factor.
      destruct (Z.ltb_spec (Z.of_nat k) (nx inp * ny inp * nz inp)); [|lia].
      now rewrite Hbv, Hs. }
    rewrite dom_state_one_minus_sp, dom_factor_dom_state, Hf.
    split; [|split].
    + intros Hne. now rewrite double_eq_false.
    + intros Heq. rewrite double_eq_true by exact Heq.
      apply fmap_id_R. intros; lra.
    + pose proof (dom_state_sums inp tr st BinnedSpv k) as Hsum.
      change (weight BinnedSpv) with s_spv in Hsum. simpl in Hsum. rewrite Hsum; [|unfold output_arrays; now left|discriminate].
      destruct (dom_state_scratch inp tr st k) as [_ Hs'].
      rewrite Hs in Hs'. case_decide; [|discriminate].
      injection Hs' as ->. apply fmap_ext_R. intros; lra.
Qed.

(** ** Sums over the bin updates of a cell *)

Lemma cell_sum_ext (f g : step -> R) (tr : list step) (k : nat) :
  Forall (fun s => f s = g s) tr -> cell_sum f tr k = cell_sum g tr k.
Proof.
  induction 1 as [|s tr Hs _ IH]; simpl; [reflexivity|].
  rewrite Hs, IH. reflexivity.
Qed.

Lemma cell_sum_le (f g : step -> R) (tr : list step) (k : nat) :
  Forall (fun s => 0 <= f s <= g s)%R tr ->
  (0 <= cell_sum f tr k <= cell_sum g tr k)%R.
Proof.
  induction 1 as [|s tr Hs _ IH]; simpl; [lra|].
  case_decide; lra.
Qed.

Lemma for_singleton {A} (a : A) (body : A -> M unit) st :
  for_ [a] body st = body a st.
Proof. rewrite for_cons. apply bind_ret_unit. Qed.

Lemma allocated_scratch (inp : inputs) st :
  dom_binned_vol (allocated inp st)
    = replicate (Z.to_nat (nx inp * ny inp * nz inp)) 0%R /\
  dom_binned_spv (allocated inp st)
    = replicate (Z.to_nat (nx inp * ny inp * nz inp)) 0%R.
Proof. split; reflexivity. Qed.

Lemma allocated_outputs (inp : inputs) st :
  binned_spv (allocated inp st) = binned_spv st /\
  binned_px_spv (allocated inp st) = binned_px_spv st /\
  binned_py_spv (allocated inp st) = binned_py_spv st /\
  binned_pz_spv (allocated inp st) = binned_pz_spv st /\
  binned_one_minus_sp (allocated inp st) = binned_one_minus_sp st.
Proof. repeat split; reflexivity. Qed.

(** ** A table that always survives *)

(** C7: with a survival probability of 1 in every bin and exactly one
    DOM, after the call every cell that the DOM touched (a cell whose
    local accumulated volume is not zero) holds exactly 0 in
    [binned_one_minus_sp], whatever it held before; and on a valid
    configuration with well-shaped tables, within the ranges of the C
    types ([in_c_range]: bin counts that fit [unsigned int], [nr] and
    [ntheta] not negative, offsets that fit [int]), the call
    returns. *)
Theorem full_survival_zeroes (inp : inputs) (dom : R * R * R) (st : state) :
  (forall row sp, row ∈ survival_prob inp -> sp ∈ row -> sp = 1%R) ->
  dom_coords inp = [dom] ->
  (in_c_range inp -> valid_config inp st -> well_shaped inp ->
   exists st', shift_and_bin inp st = Ok tt st') /\
  forall st',
    shift_and_bin inp st = Ok tt st' ->
    forall (k : nat) (bv : R),
      dom_binned_vol st' !! k = Some bv -> bv <> 0%R ->
      binned_one_minus_sp st' !! k = Some 0%R.
Proof.
  intros Hsp Hdoms. split.
  { intros _ Hvalid Hshape. now apply shift_and_bin_returns. }
  intros st' Hrun k bv Hbv Hne.
  unfold shift_and_bin in Hrun. apply bind_Ok in Hrun as ([] & st1 & Hpro & Hrun).
  apply prologue_Ok in Hpro as [Hvalid ->].
  rewrite Hdoms, for_singleton in Hrun.
  destruct (allocated_scratch inp st) as [Hv0 Hs0].
  destruct (dom_outside inp dom) eqn:Hout.
  { unfold dom_body in Hrun. rewrite Hout in Hrun. injection Hrun as <-.
    rewrite Hv0 in Hbv. apply lookup_replicate in Hbv as [-> _]. contradiction. }
  destruct (dom_body_inside_Ok inp dom _ st' Hout Hrun) as (tr & Htr & _ & Hst).
  subst st'.
  destruct (dom_state_scratch inp tr (allocated inp st) k) as [Hv Hs].
  rewrite Hbv in Hv. rewrite Hv0, length_replicate in Hv.
  rewrite Hs0, length_replicate in Hs.
  case_decide as Hk; [|discriminate]. injection Hv as Hv.
  assert (cell_sum s_spv tr k = cell_sum s_vol tr k) as Hsum.
  { apply cell_sum_ext. eapply Forall_impl; [exact Htr|].
    intros s (_ & (row & sp & Hrow & Hin & ->) & _).
    rewrite (Hsp row sp Hrow Hin). lra. }
  rewrite Hsum, <- Hv in Hs.
  rewrite dom_state_one_minus_sp, dom_factor_dom_state.
  unfold dom_factor, combine_factor. rewrite Hbv, Hs.
  destruct (Z.ltb_spec (Z.of_nat k) (nx inp * ny inp * nz inp)) as [_|Hge]; [|lia].
  rewrite double_eq_false by exact Hne.
  destruct Hvalid as (_ & _ & _ & _ & _ & _ & _ & Hlen & _).
  specialize (Hlen BinnedOneMinusSp). simpl in Hlen.
  destruct (lookup_lt_is_Some_2 (binned_one_minus_sp st) k) as [o Ho].
  { assert (BinnedOneMinusSp ∈ output_arrays) as Hin
      by (unfold output_arrays; repeat constructor).
    specialize (Hlen Hin). lia. }
  simpl. rewrite Ho. simpl. f_equal. field. exact Hne.
Qed.

(** ** The factor of a DOM lies between 0 and 1 *)

Lemma ratio_factor_bounds (s bv : R) :
  (0 <= s <= bv)%R -> bv <> 0%R -> (0 <= 1 - s / bv <= 1)%R.
Proof.
  intros [H0 Hle] Hne. assert (0 < bv)%R as Hpos by lra.
  assert (s / bv * bv = s)%R as Hq by (field; exact Hne).
  assert (0 <= s / bv)%R as Hq0.
  { apply Rmult_le_reg_r with bv; [exact Hpos|]. lra. }
  assert (s / bv <= 1)%R as Hq1.
  { apply Rmult_le_reg_r with bv; [exact Hpos|]. lra. }
  lra.
Qed.

Section UnitInterval.

Variable inp : inputs.
Hypothesis survival_prob_unit :
  forall row sp, row ∈ survival_prob inp -> sp ∈ row -> (0 <= sp <= 1)%R.
Hypothesis vol_nonneg :
  forall vol_array vol, vol_array ∈ vol_arrays inp -> vol ∈ vol_array -> (0 <= vol)%R.

Lemma step_of_weights (s : step) : step_of inp s -> (0 <= s_spv s <= s_vol s)%R.
Proof.
  intros ((va & Hva & Hvol) & (row & sp & Hrow & Hsp & ->) & _).
  pose proof (survival_prob_unit row sp Hrow Hsp) as Hu.
  pose proof (vol_nonneg va _ Hva Hvol) as Hv. nra.
Qed.

Lemma dom_factor_unit tr st (k : nat) :
  Forall (step_of inp) tr ->
  (0 <= dom_factor inp (dom_state inp tr st) k <= 1)%R.
Proof.
  intros Htr. unfold dom_factor, combine_factor.
  destruct (_ <? _); [|lra].
  destruct (dom_state_scratch inp tr st k) as [-> ->].
  repeat case_decide; try lra.
  destruct (double_eq _ 0) eqn:E; [lra|].
  apply ratio_factor_bounds.
  - pose proof (cell_sum_le s_spv s_vol tr k) as Hle. 
    assert (Forall (fun s => 0 <= s_spv s <= s_vol s)%R tr) as Hw
      by (eapply Forall_impl; [exact Htr | apply step_of_weights]).
    specialize (Hle Hw). lra.
  - intros Heq. now rewrite double_eq_true in E.
Qed.

Lemma dom_body_factor (dom : R * R * R) (st st' : state) :
  dom_body inp dom st = Ok tt st' ->
  forall k : nat, exists f : R,
    (0 <= f <= 1)%R /\
    binned_one_minus_sp st' !! k =
    (fun o => o * f)%R <$> binned_one_minus_sp st !! k.
Proof.
  intros Hrun k. destruct (dom_outside inp dom) eqn:Hout.
  - unfold dom_body in Hrun. rewrite Hout in Hrun. injection Hrun as <-.
    exists 1%R. split; [lra|]. symmetry. apply fmap_id_R. intros; lra.
  - destruct (dom_body_inside_Ok inp dom st st' Hout Hrun) as (tr & Htr & _ & Hst).
    subst st'. exists (dom_factor inp (dom_state inp tr st) k). split.
    + now apply dom_factor_unit.
    + now rewrite dom_state_one_minus_sp, dom_factor_dom_state.
Qed.

Lemma doms_non_increasing (doms : list (R * R * R)) (st st' : state) :
  for_ doms (dom_body inp) st = Ok tt st' ->
  forall (k : nat) (o : R),
    binned_one_minus_sp st !! k = Some o -> (0 <= o <= 1)%R ->
    exists o', binned_one_minus_sp st' !! k = Some o' /\ (0 <= o' <= o)%R.
Proof.
  revert st. induction doms as [|dom doms IH]; intros st Hrun k o Ho Hu.
  - rewrite for_nil in Hrun. injection Hrun as <-. exists o. split; [exact Ho | lra].
  - rewrite for_cons in Hrun. apply bind_Ok in Hrun as ([] & st1 & Hd & Hrun).
    destruct (dom_body_factor dom st st1 Hd k) as (f & Hf & Hst1).
    rewrite Ho in Hst1. simpl in Hst1.
    destruct (IH st1 Hrun k (o * f)%R Hst1 ltac:(nra)) as (o' & Ho' & Hu').
    exists o'. split; [exact Ho' | nra].
Qed.

End UnitInterval.

(** C9: if every survival probability lies in [0,1] and every overlap
    volume is nonnegative, then processing one DOM multiplies every
    entry of [binned_one_minus_sp] by a factor in [0,1], so an entry
    that is in [0,1] does not increase and stays in [0,1]; and over a
    whole call, across all its DOMs, an entry that starts in [0,1] ends
    in [0,1] and no larger than it started.  On a valid configuration
    with well-shaped tables, within the ranges of the C types
    ([in_c_range]: bin counts that fit [unsigned int], [nr] and
    [ntheta] not negative, offsets that fit [int]), the call
    returns. *)
Theorem one_minus_sp_monotone (inp : inputs) :
  (forall row sp, row ∈ survival_prob inp -> sp ∈ row -> (0 <= sp <= 1)%R) ->
  (forall vol_array vol,
     vol_array ∈ vol_arrays inp -> vol ∈ vol_array -> (0 <= vol)%R) ->
  (forall dom st st' (k : nat) (o : R),
     dom_body inp dom st = Ok tt st' ->
     binned_one_minus_sp st !! k = Some o ->
     exists f, (0 <= f <= 1)%R /\
       binned_one_minus_sp st' !! k = Some (o * f)%R /\
       ((0 <= o <= 1)%R -> (0 <= o * f <= o)%R /\ (o * f <= 1)%R)) /\
  (forall st st' (k : nat) (o : R),
     shift_and_bin inp st = Ok tt st' ->
     binned_one_minus_sp st !! k = Some o -> (0 <= o <= 1)%R ->
     exists o', binned_one_minus_sp st' !! k = Some o' /\
       (0 <= o' <= o)%R /\ (o' <= 1)%R) /\
  (forall st, in_c_range inp -> valid_config inp st -> well_shaped inp ->
     exists st', shift_and_bin inp st = Ok tt st').
Proof.
  intros Hsp Hvol. split; [|split].
  - intros dom st st' k o Hrun Ho.
    destruct (dom_body_factor inp Hsp Hvol dom st st' Hrun k) as (f & Hf & Hst').
    exists f. split; [exact Hf|]. rewrite Ho in Hst'. split; [exact Hst'|].
    intros Hu. nra.
  - intros st st' k o Hrun Ho Hu.
    unfold shift_and_bin in Hrun. apply bind_Ok in Hrun as ([] & st1 & Hpro & Hrun).
    apply prologue_Ok in Hpro as [_ ->].
    destruct (doms_non_increasing inp Hsp Hvol _ _ _ Hrun k o Ho Hu)
      as (o' & Ho' & Hu').
    exists o'. split; [exact Ho'|]. lra.
  - intros st _ Hvalid Hshape. now apply shift_and_bin_returns.
Qed.

(** ** The order of the DOMs *)

Lemma dom_body_lengths (inp : inputs) dom st st' :
  dom_body inp dom st = Ok tt st' -> same_lengths st' st.
Proof.
  intros Hrun. destruct (dom_outside inp dom) eqn:Hout.
  - unfold dom_body in Hrun. rewrite Hout in Hrun. injection Hrun as <-.
    apply same_lengths_refl.
  - destruct (dom_body_inside_Ok inp dom st st' Hout Hrun) as (tr & _ & _ & ->).
    apply dom_state_lengths.
Qed.

(** The scratch arrays after the loops of a DOM depend on the state
    through the lengths of its arrays only. *)
Lemma scratch_after_loops (tr : list step) (s1 s2 : state) :
  same_lengths s1 s2 ->
  dom_binned_vol (steps_state tr (reset_state s1))
    = dom_binned_vol (steps_state tr (reset_state s2)) /\
  dom_binned_spv (steps_state tr (reset_state s1))
    = dom_binned_spv (steps_state tr (reset_state s2)).
Proof.
  intros Hl. split; apply list_eq; intros k.
  - pose proof (steps_state_lookup DomBinnedVol tr (reset_state s1) k) as E1.
    pose proof (steps_state_lookup DomBinnedVol tr (reset_state s2) k) as E2.
    pose proof (Hl DomBinnedVol) as Hlen.
    rewrite reset_state_get in E1, E2. cbn [get_array] in E1, E2, Hlen.
    now rewrite E1, E2, Hlen.
  - pose proof (steps_state_lookup DomBinnedSpv tr (reset_state s1) k) as E1.
    pose proof (steps_state_lookup DomBinnedSpv tr (reset_state s2) k) as E2.
    pose proof (Hl DomBinnedSpv) as Hlen.
    rewrite reset_state_get in E1, E2. cbn [get_array] in E1, E2, Hlen.
    now rewrite E1, E2, Hlen.
Qed.

(** A DOM that succeeds on a state succeeds on every state of the
    same shape, and multiplies [binned_one_minus_sp] by the same
    factors there. *)
Lemma dom_body_transfer (inp : inputs) dom (s1 s1' s2 : state) :
  dom_body inp dom s1 = Ok tt s1' -> same_lengths s1 s2 ->
  exists s2' (F : nat -> R),
    dom_body inp dom s2 = Ok tt s2' /\
    (forall k, binned_one_minus_sp s1' !! k
               = (fun o => o * F k)%R <$> binned_one_minus_sp s1 !! k) /\
    (forall k, binned_one_minus_sp s2' !! k
               = (fun o => o * F k)%R <$> binned_one_minus_sp s2 !! k).
Proof.
  intros Hrun Hl. destruct (dom_outside inp dom) eqn:Hout.
  - unfold dom_body in *. rewrite Hout in *. injection Hrun as <-.
    exists s2, (fun _ => 1%R). split; [reflexivity|].
    split; intros k; symmetry; apply fmap_id_R; intros; lra.
  - destruct (dom_body_inside_Ok inp dom s1 s1' Hout Hrun) as (tr & _ & Hiff & ->).
    destruct (scratch_after_loops tr s1 s2 Hl) as [Hv Hs].
    apply Hiff in Hrun as (Hb & Hc & _).
    exists (dom_state inp tr s2),
           (dom_factor inp (steps_state tr (reset_state s1))).
    split; [|split].
    + apply Hiff. split; [|split; [|reflexivity]].
      * eapply Forall_impl; [exact Hb|]. intros s. apply step_in_bounds_lengths.
        eapply same_lengths_trans; [apply reset_state_lengths|].
        eapply same_lengths_trans; [exact Hl|].
        apply same_lengths_sym, reset_state_lengths.
      * eapply Forall_impl; [exact Hc|]. intros k.
        apply combine_in_bounds_sim; [exact Hv | exact Hs |].
        rewrite !steps_state_one_minus_sp. apply (Hl BinnedOneMinusSp).
    + intros k. apply dom_state_one_minus_sp.
    + intros k. rewrite dom_state_one_minus_sp. apply fmap_ext_R. intros o.
      f_equal. unfold dom_factor. destruct (_ <? _); [|reflexivity].
      symmetry. now apply combine_factor_scratch.
Qed.

Lemma for_pair {A} (a b : A) (body : A -> M unit) st st' :
  for_ [a; b] body st = Ok tt st' <->
  exists st1, body a st = Ok tt st1 /\ body b st1 = Ok tt st'.
Proof.
  rewrite for_cons, bind_Ok. split.
  - intros ([] & st1 & Ha & Hb). rewrite for_singleton in Hb. eauto.
  - intros (st1 & Ha & Hb). exists tt, st1. now rewrite for_singleton.
Qed.

(** C6: a call on two DOMs in one order and a call on the same two
    DOMs in the other order, from the same state and on an input that
    is otherwise the same, end with the same [binned_one_minus_sp] at
    every cell: when the first call succeeds, so does the second, and
    the two arrays are equal; and on a valid configuration with
    well-shaped tables, within the ranges of the C types
    ([in_c_range]: bin counts that fit [unsigned int], [nr] and
    [ntheta] not negative, offsets that fit [int]), the first call
    succeeds. *)
Theorem dom_order_irrelevant (inp : inputs) (d1 d2 : R * R * R) (st : state) :
  (in_c_range inp -> valid_config inp st -> well_shaped inp ->
   exists stA, shift_and_bin (with_doms inp [d1; d2]) st = Ok tt stA) /\
  forall stA,
    shift_and_bin (with_doms inp [d1; d2]) st = Ok tt stA ->
    exists stB,
      shift_and_bin (with_doms inp [d2; d1]) st = Ok tt stB /\
      binned_one_minus_sp stB = binned_one_minus_sp stA.
Proof.
  split.
  { intros _ Hvalid Hshape.
    apply (shift_and_bin_returns (with_doms inp [d1; d2]) Hshape st Hvalid). }
  intros stA Hrun. unfold shift_and_bin in *.
  apply bind_Ok in Hrun as ([] & st1 & Hpro & Hrun).
  apply prologue_Ok in Hpro as [Hvalid ->].
  change (valid_config inp st) in Hvalid.
  change (allocated (with_doms inp [d1; d2]) st) with (allocated inp st) in Hrun.
  change (for_ [d1; d2] (dom_body inp) (allocated inp st) = Ok tt stA) in Hrun.
  apply for_pair in Hrun as (sA1 & H1 & H2).
  pose proof (dom_body_lengths inp d1 _ _ H1) as Hl1.
  destruct (dom_body_transfer inp d2 sA1 stA (allocated inp st) H2 Hl1)
    as (sB1 & F2 & H2' & HA2 & HB1).
  pose proof (dom_body_lengths inp d2 _ _ H2') as Hl2.
  destruct (dom_body_transfer inp d1 (allocated inp st) sA1 sB1 H1
              (same_lengths_sym _ _ Hl2))
    as (sB2 & F1 & H1' & HA1 & HB2).
  exists sB2. split.
  - apply bind_Ok. exists tt, (allocated inp st). split.
    + apply prologue_Ok. split; [exact Hvalid | reflexivity].
    + change (for_ [d2; d1] (dom_body inp) (allocated inp st) = Ok tt sB2).
      apply for_pair. eauto.
  - apply list_eq. intros k. rewrite HB2, HB1, HA2, HA1.
    destruct (binned_one_minus_sp (allocated inp st) !! k); simpl;
      [f_equal; lra | reflexivity].
Qed.

(** ** The concrete inputs, evaluated *)

Lemma ex_nx sp os doms : nx (ex_table sp os doms) = 1.
Proof. unfold nx. simpl. apply c_round_near. lra. Qed.

Lemma ex_ny sp os doms : ny (ex_table sp os doms) = 1.
Proof. unfold ny. simpl. apply c_round_near. lra. Qed.

Lemma ex_nz sp os doms : nz (ex_table sp os doms) = 1.
Proof. unfold nz. simpl. apply c_round_near. lra. Qed.

Lemma ex_ntheta_in_quad sp os doms : ntheta_in_quad (ex_table sp os doms) = 1.
Proof. unfold ntheta_in_quad. rewrite c_ceil_half. reflexivity. Qed.

Lemma ex_odd_nx : nx ex_odd = 1.
Proof. unfold nx. simpl. apply c_round_near. lra. Qed.

Lemma ex_odd_ny : ny ex_odd = 1.
Proof. unfold ny. simpl. apply c_round_near. lra. Qed.

Lemma ex_odd_nz : nz ex_odd = 1.
Proof. unfold nz. simpl. apply c_round_near. lra. Qed.

Lemma ex_odd_ntheta_in_quad : ntheta_in_quad ex_odd = 2.
Proof. unfold ntheta_in_quad. rewrite c_ceil_half. reflexivity. Qed.

Lemma ex_inside sp os doms (x y z : R) :
  (-1 < x < 2)%R -> (-1 < y < 2)%R -> (-1 < z < 2)%R ->
  dom_outside (ex_table sp os doms) (x, y, z) = false.
Proof.
  intros Hx Hy Hz. unfold dom_outside. simpl.
  rewrite !double_le_false, !double_ge_false by lra. reflexivity.
Qed.

Lemma ex_odd_inside : dom_outside ex_odd ex_origin = false.
Proof.
  unfold dom_outside, ex_origin. simpl.
  rewrite !double_le_false, !double_ge_false by lra. reflexivity.
Qed.

(** The oversampled index of a coordinate less than half a lattice
    cell away from the lower edge of the grid. *)
Lemma ex_dom_idx sp os doms (c : R) :
  1 <= os -> (- / 2 < c * IZR os < / 2)%R ->
  c_round ((c - 0) * inv_os_bw (ex_table sp os doms)) = 0.
Proof.
  intros Hos Hc. apply c_round_near. unfold inv_os_bw, os_bw. simpl.
  assert (0 < IZR os)%R as Hpos by (apply IZR_lt; lia).
  replace ((c - 0) * (1 / (1 / IZR os)))%R with (c * IZR os)%R by (field; lra).
  lra.
Qed.

Lemma ex_odd_idx (lo : R) :
  lo = 0%R -> c_round ((0 - lo) * inv_os_bw ex_odd) = 0.
Proof. intros ->. apply c_round_near. lra. Qed.

Ltac eval_kernel :=
  unfold dom_loops, pol_bin_body, cart_bin_body, hemisphere_body,
    quadrant_body, flat_pol_idx, dom_combine, combine_body;
  rewrite ?ex_nx, ?ex_ny, ?ex_nz, ?ex_ntheta_in_quad,
    ?ex_odd_nx, ?ex_odd_ny, ?ex_odd_nz, ?ex_odd_ntheta_in_quad;
  cbv -[bin_center bin_pos_rho Rplus Rmult Rdiv Rminus Ropp Rinv IZR sqrt
        double_eq].

Lemma Rabs_lt_tolerance (x : R) : x = 0%R -> (Rabs x < / 1000000)%R.
Proof. intros ->. rewrite Rabs_R0. lra. Qed.

Lemma ex_output_lengths (n : Z) :
  n = 1 ->
  forall a, a ∈ output_arrays -> Z.of_nat (length (get_array a ex_state)) = n.
Proof.
  intros -> a Ha. unfold output_arrays in Ha.
  repeat (apply elem_of_cons in Ha as [-> | Ha]; [reflexivity|]). inversion Ha.
Qed.

Lemma ex_valid sp os doms : 1 <= os -> valid_config (ex_table sp os doms) ex_state.
Proof.
  intros Hos. unfold valid_config. rewrite !ex_nx, !ex_ny, !ex_nz. simpl.
  repeat split; try lra; try lia; try (apply Rabs_lt_tolerance; lra).
  now apply ex_output_lengths.
Qed.

Lemma ex_odd_valid : valid_config ex_odd ex_state.
Proof.
  unfold valid_config. rewrite !ex_odd_nx, !ex_odd_ny, !ex_odd_nz. simpl.
  repeat split; try lra; try lia; try (apply Rabs_lt_tolerance; lra).
  now apply ex_output_lengths.
Qed.

(** The state of the example after the prologue. *)
Lemma ex_allocated sp os doms :
  allocated (ex_table sp os doms) ex_state =
  {| dom_binned_vol := [0%R]; dom_binned_spv := [0%R];
     binned_spv := [0%R]; binned_px_spv := [0%R]; binned_py_spv := [0%R];
     binned_pz_spv := [0%R]; binned_one_minus_sp := [1%R] |}.
Proof. unfold allocated. rewrite !ex_nx, !ex_ny, !ex_nz. reflexivity. Qed.

Lemma ex_odd_allocated :
  allocated ex_odd ex_state =
  {| dom_binned_vol := [0%R]; dom_binned_spv := [0%R];
     binned_spv := [0%R]; binned_px_spv := [0%R]; binned_py_spv := [0%R];
     binned_pz_spv := [0%R]; binned_one_minus_sp := [1%R] |}.
Proof. unfold allocated. rewrite !ex_odd_nx, !ex_odd_ny, !ex_odd_nz. reflexivity. Qed.

(** One DOM in the cell of the grid, without oversampling: of the
    eight images of the lattice cell (0,0,0) only the first is in the
    grid. *)
Lemma ex_dom_run sp doms (x y z v s b px py pz o : R) :
  (- / 2 < x < / 2)%R -> (- / 2 < y < / 2)%R -> (- / 2 < z < / 2)%R ->
  exists px' py' pz',
    dom_body (ex_table sp 1 doms) (x, y, z)
      {| dom_binned_vol := [v]; dom_binned_spv := [s];
         binned_spv := [b]; binned_px_spv := [px]; binned_py_spv := [py];
         binned_pz_spv := [pz]; binned_one_minus_sp := [o] |} =
    Ok tt
      {| dom_binned_vol := [(0 + 1)%R]; dom_binned_spv := [(0 + sp * 1)%R];
         binned_spv := [(b + sp * 1)%R];
         binned_px_spv := [px']; binned_py_spv := [py']; binned_pz_spv := [pz'];
         binned_one_minus_sp := [(o * (1 - (0 + sp * 1) / (0 + 1)))%R] |}.
Proof.
  intros Hx Hy Hz. do 3 eexists.
  unfold dom_body. rewrite ex_inside by lra.
  rewrite bind_unfold, dom_accumulate_reset.
  rewrite !ex_dom_idx by (simpl; lra || lia).
  eval_kernel. rewrite double_eq_false by lra. reflexivity.
Qed.

Lemma ex_table_shape sp os doms (p : R) :
  table_shape (ex_table sp os doms) [[p; p]].
Proof.
  intros r_idx theta_idx Hr Ht. simpl in Hr, Ht.
  assert (r_idx = 0) as -> by lia.
  assert (theta_idx = 0 \/ theta_idx = 1) as [-> | ->] by lia;
    exists [p; p], p; split; reflexivity.
Qed.

Lemma ex_well_shaped sp os doms : well_shaped (ex_table sp os doms).
Proof.
  split; [|repeat split; apply ex_table_shape].
  intros r_idx theta_idx Hr Ht. rewrite ex_ntheta_in_quad in Ht.
  apply elem_of_range in Hr, Ht. simpl in Hr.
  assert (r_idx = 0) as -> by lia. assert (theta_idx = 0) as -> by lia.
  unfold flat_pol_idx. rewrite ex_ntheta_in_quad.
  exists [1%R], [(0%N, 0%N, 0%N)]. repeat split. simpl. lia.
Qed.

Lemma ex_grid_sized sp os doms :
  grid_sized (ex_table sp os doms) (allocated (ex_table sp os doms) ex_state).
Proof.
  intros a. rewrite ex_allocated, ex_nx, ex_ny, ex_nz. now destruct a.
Qed.

(** The concrete table is within the ranges of the C types. *)
Lemma ex_grid_in_range sp os doms : grid_in_range (ex_table sp os doms).
Proof.
  unfold grid_in_range, uint_bound. rewrite ex_nx, ex_ny, ex_nz. lia.
Qed.

Lemma ex_bins_in_range sp os doms : bins_in_range (ex_table sp os doms).
Proof. unfold bins_in_range, int_bound, uint_bound. simpl. lia. Qed.

Lemma ex_offsets_in_range sp os doms : offsets_in_range (ex_table sp os doms).
Proof.
  intros ind_array x_u y_u z_u Hin Hentry. simpl in Hin.
  apply list_elem_of_singleton in Hin as ->.
  apply list_elem_of_singleton in Hentry. injection Hentry as -> -> ->.
  unfold int_bound. lia.
Qed.

Lemma ex_exact_count_check sp os doms : exact_count_check (ex_table sp os doms).
Proof. intros _. reflexivity. Qed.

Lemma ex_in_c_range sp os doms : in_c_range (ex_table sp os doms).
Proof.
  split; [apply ex_grid_in_range|].
  split; [apply ex_bins_in_range | apply ex_offsets_in_range].
Qed.

Lemma ex_checks_in_range sp os doms : checks_in_range (ex_table sp os doms).
Proof.
  split; [intros _ _ _; apply ex_grid_in_range|].
  split; [apply ex_bins_in_range | apply ex_exact_count_check].
Qed.

Lemma ex_call sp (x y z : R) :
  (- / 2 < x < / 2)%R -> (- / 2 < y < / 2)%R -> (- / 2 < z < / 2)%R ->
  exists px' py' pz',
    shift_and_bin (ex_table sp 1 [(x, y, z)]) ex_state =
    Ok tt
      {| dom_binned_vol := [(0 + 1)%R]; dom_binned_spv := [(0 + sp * 1)%R];
         binned_spv := [(0 + sp * 1)%R];
         binned_px_spv := [px']; binned_py_spv := [py']; binned_pz_spv := [pz'];
         binned_one_minus_sp := [(1 * (1 - (0 + sp * 1) / (0 + 1)))%R] |}.
Proof.
  intros Hx Hy Hz.
  destruct (ex_dom_run sp [(x, y, z)] x y z 0 0 0 0 0 0 1 Hx Hy Hz)
    as (px' & py' & pz' & Hrun).
  exists px', py', pz'. unfold shift_and_bin. apply bind_Ok.
  eexists tt, _. split.
  - apply prologue_Ok. split; [apply ex_valid; lia | reflexivity].
  - rewrite ex_allocated. simpl dom_coords. rewrite for_singleton. exact Hrun.
Qed.

Lemma ex_call_pair sp (x1 y1 z1 x2 y2 z2 : R) :
  (- / 2 < x1 < / 2)%R -> (- / 2 < y1 < / 2)%R -> (- / 2 < z1 < / 2)%R ->
  (- / 2 < x2 < / 2)%R -> (- / 2 < y2 < / 2)%R -> (- / 2 < z2 < / 2)%R ->
  exists st',
    shift_and_bin (with_doms (ex_table sp 1 []) [(x1, y1, z1); (x2, y2, z2)])
      ex_state = Ok tt st'.
Proof.
  intros Hx1 Hy1 Hz1 Hx2 Hy2 Hz2.
  change (with_doms (ex_table sp 1 []) [(x1, y1, z1); (x2, y2, z2)])
    with (ex_table sp 1 [(x1, y1, z1); (x2, y2, z2)]).
  set (doms := [(x1, y1, z1); (x2, y2, z2)]).
  destruct (ex_dom_run sp doms x1 y1 z1 0 0 0 0 0 0 1 Hx1 Hy1 Hz1)
    as (px1 & py1 & pz1 & Hrun1).
  destruct (ex_dom_run sp doms x2 y2 z2 (0 + 1) (0 + sp * 1) (0 + sp * 1)
              px1 py1 pz1 (1 * (1 - (0 + sp * 1) / (0 + 1))) Hx2 Hy2 Hz2)
    as (px2 & py2 & pz2 & Hrun2).
  eexists. unfold shift_and_bin. apply bind_Ok.
  eexists tt, _. split.
  - apply prologue_Ok. split; [apply ex_valid; lia | reflexivity].
  - rewrite ex_allocated. simpl dom_coords. apply for_pair. eauto.
Qed.

Lemma ex_survival_prob_unit sp os doms :
  (0 <= sp <= 1)%R ->
  forall row p, row ∈ survival_prob (ex_table sp os doms) -> p ∈ row ->
    (0 <= p <= 1)%R.
Proof.
  intros Hsp row p Hrow Hp. simpl in Hrow.
  apply list_elem_of_singleton in Hrow as ->.
  repeat (apply elem_of_cons in Hp as [-> | Hp]; [exact Hsp|]). inversion Hp.
Qed.

Lemma ex_survival_prob_one os doms :
  forall row p, row ∈ survival_prob (ex_table 1 os doms) -> p ∈ row -> p = 1%R.
Proof.
  intros row p Hrow Hp. simpl in Hrow.
  apply list_elem_of_singleton in Hrow as ->.
  repeat (apply elem_of_cons in Hp as [-> | Hp]; [reflexivity|]). inversion Hp.
Qed.

Lemma ex_vol_nonneg sp os doms :
  forall vol_array vol,
    vol_array ∈ vol_arrays (ex_table sp os doms) -> vol ∈ vol_array -> (0 <= vol)%R.
Proof.
  intros va v Hva Hv. simpl in Hva.
  apply list_elem_of_singleton in Hva as ->.
  apply list_elem_of_singleton in Hv as ->. lra.
Qed.

(** ** The claims on the concrete inputs *)

Lemma dom_combine_rule_witness :
  (exists st0,
     dom_body (ex_table (/ 2) 1 []) ex_origin
       (allocated (ex_table (/ 2) 1 []) ex_state) = Ok tt st0) /\
  exists st',
    dom_body (ex_table (/ 2) 1 []) ex_origin
      (allocated (ex_table (/ 2) 1 []) ex_state) = Ok tt st' /\
    binned_one_minus_sp st' !! 0%nat =
      (fun o => o * (1 - (0 + / 2 * 1) / (0 + 1)))%R
        <$> binned_one_minus_sp (allocated (ex_table (/ 2) 1 []) ex_state) !! 0%nat /\
    binned_spv st' !! 0%nat =
      (fun b => b + (0 + / 2 * 1))%R
        <$> binned_spv (allocated (ex_table (/ 2) 1 []) ex_state) !! 0%nat.
Proof.
  destruct (ex_dom_run (/ 2) [] 0 0 0 0 0 0 0 0 0 1
              ltac:(lra) ltac:(lra) ltac:(lra)) as (px' & py' & pz' & Hrun).
  rewrite <- (ex_allocated (/ 2) 1 []) in Hrun.
  destruct (dom_combine_rule (ex_table (/ 2) 1 []) ex_origin
              (allocated (ex_table (/ 2) 1 []) ex_state)) as [Hret Hok].
  split; [exact (Hret (ex_in_c_range _ _ _) (ex_well_shaped _ _ _)
                   (ex_grid_sized _ _ _))|].
  eexists. split; [exact Hrun|].
  destruct (Hok _ Hrun) as [_ Hrule].
  destruct (Hrule (ex_inside _ _ _ 0%R 0%R 0%R ltac:(lra) ltac:(lra) ltac:(lra))
              0%nat (0 + 1)%R (0 + / 2 * 1)%R
              ltac:(rewrite ex_nx, ex_ny, ex_nz; reflexivity) eq_refl eq_refl)
    as (Hmul & _ & Hadd).
  split; [apply Hmul; lra | exact Hadd].
Defined.


Lemma dom_order_irrelevant_witness :
  exists stA stB,
    shift_and_bin
      (with_doms (ex_table (/ 2) 1 []) [ex_origin; ((/ 4)%R, (/ 4)%R, (/ 4)%R)])
      ex_state = Ok tt stA /\
    shift_and_bin
      (with_doms (ex_table (/ 2) 1 []) [((/ 4)%R, (/ 4)%R, (/ 4)%R); ex_origin])
      ex_state = Ok tt stB /\
    binned_one_minus_sp stB = binned_one_minus_sp stA.
Proof.
  destruct (ex_call_pair (/ 2) 0 0 0 (/ 4) (/ 4) (/ 4)
              ltac:(lra) ltac:(lra) ltac:(lra) ltac:(lra) ltac:(lra) ltac:(lra))
    as (stA & HA).
  destruct (proj2 (dom_order_irrelevant (ex_table (/ 2) 1 []) ex_origin
                     ((/ 4)%R, (/ 4)%R, (/ 4)%R) ex_state) _ HA)
    as (stB & HB & Heq).
  exists stA, stB. auto.
Defined.

Lemma full_survival_zeroes_witness :
  (exists st0, shift_and_bin (ex_table 1 1 [ex_origin]) ex_state = Ok tt st0) /\
  exists st',
    shift_and_bin (ex_table 1 1 [ex_origin]) ex_state = Ok tt st' /\
    dom_binned_vol st' !! 0%nat = Some (0 + 1)%R /\
    binned_one_minus_sp st' !! 0%nat = Some 0%R.
Proof.
  destruct (ex_call 1 0 0 0 ltac:(lra) ltac:(lra) ltac:(lra))
    as (px' & py' & pz' & Hrun).
  split.
  { apply (proj1 (full_survival_zeroes (ex_table 1 1 [ex_origin]) ex_origin
                    ex_state (ex_survival_prob_one 1 [ex_origin]) eq_refl)).
    - apply ex_in_c_range.
    - apply ex_valid. lia.
    - apply ex_well_shaped. }
  eexists. split; [exact Hrun|]. split; [reflexivity|].
  apply (proj2 (full_survival_zeroes (ex_table 1 1 [ex_origin]) ex_origin ex_state
                  (ex_survival_prob_one 1 [ex_origin]) eq_refl)
           _ Hrun 0%nat (0 + 1)%R eq_refl).
  lra.
Defined.

Lemma boundary_dom_contributes_nothing_witness :
  dom_body (ex_table 1 1 []) ((-1)%R, 0%R, 0%R) ex_state = Ok tt ex_state.
Proof.
  apply boundary_dom_contributes_nothing. simpl. left. lra.
Defined.

Lemma one_minus_sp_monotone_witness :
  exists st' o',
    shift_and_bin (ex_table (/ 2) 1 [ex_origin]) ex_state = Ok tt st' /\
    binned_one_minus_sp st' !! 0%nat = Some o' /\
    (0 <= o' <= 1)%R /\ (o' <= 1)%R.
Proof.
  destruct (ex_call (/ 2) 0 0 0 ltac:(lra) ltac:(lra) ltac:(lra))
    as (px' & py' & pz' & Hrun).
  destruct (one_minus_sp_monotone (ex_table (/ 2) 1 [ex_origin])
              (ex_survival_prob_unit (/ 2) 1 [ex_origin] ltac:(lra))
              (ex_vol_nonneg (/ 2) 1 [ex_origin])) as (_ & Hcall & _).
  destruct (Hcall ex_state _ 0%nat 1%R Hrun eq_refl ltac:(lra))
    as (o' & Ho' & Hu & H1).
  eexists _, o'. split; [exact Hrun|]. auto.
Defined.

Lemma rho_norm_divisor_positive_witness :
  (0 < half_os_bw (ex_table 1 1 []) <= bin_center (ex_table 1 1 []) (Z.of_N 0))%R /\
  (half_os_bw (ex_table 1 1 []) <= bin_center (ex_table 1 1 []) (Z.of_N 0))%R /\
  (0 < bin_pos_rho (ex_table 1 1 []) (Z.of_N 0) (Z.of_N 0))%R.
Proof.
  apply (rho_norm_divisor_positive (ex_table 1 1 []) 0%N 0%N).
  - simpl. lra.
  - simpl. lia.
  - reflexivity.
  - reflexivity.
Defined.

(** ** The division of the oversampled index *)

(** Where the sum of offset and DOM position is not negative, and
    where there is no oversampling, the division of the kernel is the
    floor division of the specification. *)
Lemma cdiv_floor_index (offset dom_os_idx n_oversample : Z) :
  0 < n_oversample ->
  0 <= offset + dom_os_idx \/ n_oversample = 1 ->
  cdiv (offset + dom_os_idx) n_oversample
  = floor_index offset dom_os_idx n_oversample.
Proof.
  intros Hos [Hnn | ->]; unfold floor_index.
  - now apply cdiv_nonneg.
  - apply cdiv_1.
Qed.

Lemma ex_os2_call :
  exists st',
    shift_and_bin (ex_table 1 2 [ex_origin]) ex_state = Ok tt st' /\
    dom_binned_vol st' = [(0 + 1 + 1 + 1 + 1 + 1 + 1 + 1 + 1)%R].
Proof.
  eexists. split.
  - unfold shift_and_bin. apply bind_Ok. eexists tt, _. split.
    + apply prologue_Ok. split; [apply ex_valid; lia | reflexivity].
    + rewrite ex_allocated. simpl dom_coords. rewrite for_singleton.
      unfold dom_body, ex_origin. rewrite ex_inside by lra.
      rewrite bind_unfold, dom_accumulate_reset.
      rewrite !ex_dom_idx by (simpl; lra || lia).
      eval_kernel. rewrite double_eq_false by lra. reflexivity.
  - reflexivity.
Qed.

(** C3, on the code: with an oversampling factor of 2 and a DOM on
    the corner of the grid, the reflected offset -1 of the lattice cell
    (0,0,0) is divided to the index 0 by the kernel, where the floor
    division of the specification gives -1; the kernel then bins all
    eight images of the cell, seven of which lie outside the grid,
    into cell 0, whose local volume becomes eight times the overlap
    volume. *)
Theorem truncating_division_keeps_outside_images :
  hemisphere_branch (ex_table 1 2 [ex_origin]) 0 0 0 1 = (0, 1) /\
  floor_index (-1 - 0) 0 (oversample (ex_table 1 2 [ex_origin])) = -1 /\
  Forall (fun quadrant =>
     fst (fst (quadrant_branch (ex_table 1 2 [ex_origin]) 0 0 0 0 0 0 quadrant))
     = (0, 0)) (range 4) /\
  exists st',
    shift_and_bin (ex_table 1 2 [ex_origin]) ex_state = Ok tt st' /\
    dom_binned_vol st' = [(0 + 1 + 1 + 1 + 1 + 1 + 1 + 1 + 1)%R].
Proof.
  split; [reflexivity|]. split; [reflexivity|]. split; [|apply ex_os2_call].
  change (range 4) with [0; 1; 2; 3]. repeat constructor.
Qed.

(** ** The polar bins that the loops read *)

(** For an even number of polar-angle bins the check of line 252 keeps
    every flattened index of the loops inside the overlap mapping. *)
Lemma even_ntheta_in_bounds (inp : inputs) (r_idx theta_idx : Z) :
  Z.even (ntheta inp) = true ->
  Z.of_nat (length (vol_arrays inp)) = cdiv (nr inp * ntheta inp) 2 ->
  r_idx ∈ range (nr inp) -> theta_idx ∈ range (ntheta_in_quad inp) ->
  0 <= flat_pol_idx inp r_idx theta_idx < Z.of_nat (length (vol_arrays inp)).
Proof.
  intros Hev Hlen Hr Ht. apply elem_of_range in Hr, Ht.
  unfold flat_pol_idx, ntheta_in_quad in *. rewrite c_ceil_half in *.
  apply Z.even_spec in Hev as [m Hm]. rewrite Hlen, Hm in *.
  assert ((2 * m + 1) `div` 2 = m) as Hhalf
    by (symmetry; apply Z.div_unique with 1; lia).
  rewrite Hhalf in Ht.
  replace (nr inp * (2 * m)) with (nr inp * m * 2) by ring.
  unfold cdiv. rewrite Z.quot_mul by lia.
  assert (r_idx * m <= (nr inp - 1) * m) as Hrm
    by (apply Z.mul_le_mono_nonneg_r; lia).
  assert (0 <= r_idx * m) by (apply Z.mul_nonneg_nonneg; lia).
  rewrite Z.mul_sub_distr_r in Hrm. lia.
Qed.

Lemma ex_odd_dom :
  exists st',
    dom_body ex_odd ex_origin (allocated ex_odd ex_state) = Raise OutOfBounds st'.
Proof.
  eexists. rewrite ex_odd_allocated.
  unfold dom_body. rewrite ex_odd_inside.
  unfold ex_origin. rewrite bind_unfold, dom_accumulate_reset.
  rewrite !ex_odd_idx by reflexivity.
  eval_kernel. reflexivity.
Qed.

(** C5, on the code: with nr = 2 and ntheta = 3 the check of line 252
    asks for 2*3/2 = 3 overlap lists, and the loops, which run over
    r_idx in [0,2) and theta_idx in [0,2), reach the flattened index
    1 + 1*2 = 3, which is outside a list of length 3: the call passes
    every check and then reads outside the overlap mapping. *)
Theorem odd_ntheta_reads_outside :
  valid_config ex_odd ex_state /\
  length (vol_arrays ex_odd) = 3%nat /\
  1 ∈ range (nr ex_odd) /\
  1 ∈ range (ntheta_in_quad ex_odd) /\
  flat_pol_idx ex_odd 1 1 = 3 /\
  exists st', shift_and_bin ex_odd ex_state = Raise OutOfBounds st'.
Proof.
  split; [apply ex_odd_valid|]. split; [reflexivity|].
  split; [apply elem_of_range; simpl; lia|].
  split; [rewrite ex_odd_ntheta_in_quad; apply elem_of_range; lia|].
  split; [unfold flat_pol_idx; rewrite ex_odd_ntheta_in_quad; reflexivity|].
  destruct ex_odd_dom as (st' & Hdom). exists st'.
  unfold shift_and_bin. rewrite bind_unfold.
  rewrite (proj2 (prologue_Ok ex_odd ex_state _) (conj ex_odd_valid eq_refl)).
  simpl dom_coords. rewrite for_cons, bind_unfold, Hdom. reflexivity.
Qed.

(** ** What holds of every outcome *)

Section Always.

Variable Q : state -> state -> Prop.
Hypothesis Q_refl : forall st, Q st st.
Hypothesis Q_trans : forall st1 st2 st3, Q st1 st2 -> Q st2 st3 -> Q st1 st3.

Lemma always_ret {A} (a : A) : always Q (mret a : M A).
Proof. intros st. apply Q_refl. Qed.

Lemma always_raise {A} (e : error) : always Q (raise e : M A).
Proof. intros st. apply Q_refl. Qed.

Lemma always_bind {A B} (m : M A) (f : A -> M B) :
  always Q m -> (forall a, always Q (f a)) -> always Q (m ≫= f).
Proof.
  intros Hm Hf st. rewrite bind_unfold. specialize (Hm st).
  destruct (m st) as [a st1|e st1]; simpl in *; [|exact Hm].
  eapply Q_trans; [exact Hm | apply Hf].
Qed.

Lemma always_for {A} (l : list A) (body : A -> M unit) :
  (forall a, always Q (body a)) -> always Q (for_ l body).
Proof.
  intros Hbody. induction l as [|a l IH]; [apply always_ret|].
  change (always Q (body a;; for_ l body)). apply always_bind; auto.
Qed.

Lemma always_assert (b : bool) : always Q (assert_ b).
Proof. destruct b; [apply always_ret | apply always_raise]. Qed.

Lemma always_index {A} (l : list A) (i : Z) : always Q (index l i).
Proof.
  unfold index. destruct (i <? 0); [apply always_raise|].
  destruct (l !! Z.to_nat i); [apply always_ret | apply always_raise].
Qed.

Lemma always_read (a : array_name) (i : Z) : always Q (read a i).
Proof. intros st. unfold read. apply always_index. Qed.

Lemma always_shape0 (a : array_name) : always Q (shape0 a).
Proof. intros st. apply Q_refl. Qed.

(** The primitives that write: [Q] has to allow the new array. *)
Hypothesis Q_write : forall a l st,
  length l = length (get_array a st) -> Q st (set_array a l st).
Hypothesis Q_scratch : forall a l st,
  a = DomBinnedVol \/ a = DomBinnedSpv -> Q st (set_array a l st).

Lemma always_write (a : array_name) (i : Z) (v : R) : always Q (write a i v).
Proof.
  intros st. unfold write. destruct (_ || _); simpl; [apply Q_refl|].
  apply Q_write. apply length_insert.
Qed.

Lemma always_add_at (a : array_name) (i : Z) (v : R) : always Q (add_at a i v).
Proof.
  unfold add_at. apply always_bind; [apply always_read|].
  intros x. apply always_write.
Qed.

Lemma always_mul_at (a : array_name) (i : Z) (v : R) : always Q (mul_at a i v).
Proof.
  unfold mul_at. apply always_bind; [apply always_read|].
  intros x. apply always_write.
Qed.

Lemma always_fill (a : array_name) (v : R) : always Q (fill a v).
Proof. intros st. simpl. apply Q_write. apply length_replicate. Qed.

Lemma always_alloc_vol (n : Z) : always Q (alloc DomBinnedVol n).
Proof. intros st. simpl. apply (Q_scratch DomBinnedVol). auto. Qed.

Lemma always_alloc_spv (n : Z) : always Q (alloc DomBinnedSpv n).
Proof. intros st. simpl. apply (Q_scratch DomBinnedSpv). auto. Qed.

Ltac always_auto :=
  repeat first
    [ apply always_ret | apply always_assert | apply always_index
    | apply always_add_at | apply always_mul_at | apply always_read
    | apply always_fill | apply always_alloc_vol | apply always_alloc_spv
    | apply always_shape0 | apply always_for | apply always_bind
    | match goal with
      | |- forall _, _ => intro
      | |- always _ (let '(_, _) := ?e in _) => destruct e
      | |- always _ (if ?b then _ else _) => destruct b
      | |- always _ (match ?x with _ => _ end) => destruct x
      end ].

Lemma always_dom_body (inp : inputs) (dom : R * R * R) :
  always Q (dom_body inp dom).
Proof.
  unfold dom_body, dom_accumulate, dom_loops, pol_bin_body, cart_bin_body,
    hemisphere_body, quadrant_body, dom_combine, combine_body.
  destruct dom as [[dom_x dom_y] dom_z]. always_auto.
Qed.

Lemma always_prologue (inp : inputs) : always Q (prologue inp).
Proof. unfold prologue, check_shape, load_pol_bin. always_auto. Qed.

Lemma always_shift_and_bin (inp : inputs) : always Q (shift_and_bin inp).
Proof.
  unfold shift_and_bin. apply always_bind; [apply always_prologue|].
  intros []. apply always_for. intros dom. apply always_dom_body.
Qed.

End Always.

(** ** The errors of the loops *)

Lemma only_oob_ret {A} (a : A) : raises_only_out_of_bounds (mret a : M A).
Proof. intros st e st'. discriminate. Qed.

Lemma only_oob_raise {A} : raises_only_out_of_bounds (raise OutOfBounds : M A).
Proof. intros st e st' [= <- _]. reflexivity. Qed.

Lemma only_oob_bind {A B} (m : M A) (f : A -> M B) :
  raises_only_out_of_bounds m -> (forall a, raises_only_out_of_bounds (f a)) ->
  raises_only_out_of_bounds (m ≫= f).
Proof.
  intros Hm Hf st e st'. rewrite bind_unfold.
  destruct (m st) as [a st1|e1 st1] eqn:E.
  - apply Hf.
  - intros [= <- _]. eapply Hm, E.
Qed.

Lemma only_oob_for {A} (l : list A) (body : A -> M unit) :
  (forall a, raises_only_out_of_bounds (body a)) ->
  raises_only_out_of_bounds (for_ l body).
Proof.
  intros Hbody. induction l as [|a l IH]; [apply only_oob_ret|].
  change (raises_only_out_of_bounds (body a;; for_ l body)).
  apply only_oob_bind; auto.
Qed.

Lemma only_oob_index {A} (l : list A) (i : Z) :
  raises_only_out_of_bounds (index l i).
Proof.
  unfold index. destruct (i <? 0); [apply only_oob_raise|].
  destruct (l !! Z.to_nat i); [apply only_oob_ret | apply only_oob_raise].
Qed.

Lemma only_oob_read (a : array_name) (i : Z) :
  raises_only_out_of_bounds (read a i).
Proof. intros st. unfold read. apply only_oob_index. Qed.

Lemma only_oob_write (a : array_name) (i : Z) (v : R) :
  raises_only_out_of_bounds (write a i v).
Proof.
  intros st e st'. unfold write. destruct (_ || _); [|discriminate].
  intros [= <- _]. reflexivity.
Qed.

Lemma only_oob_add_at (a : array_name) (i : Z) (v : R) :
  raises_only_out_of_bounds (add_at a i v).
Proof.
  unfold add_at. apply only_oob_bind; [apply only_oob_read|].
  intros x. apply only_oob_write.
Qed.

Lemma only_oob_mul_at (a : array_name) (i : Z) (v : R) :
  raises_only_out_of_bounds (mul_at a i v).
Proof.
  unfold mul_at. apply only_oob_bind; [apply only_oob_read|].
  intros x. apply only_oob_write.
Qed.

Lemma only_oob_fill (a : array_name) (v : R) :
  raises_only_out_of_bounds (fill a v).
Proof. intros st e st'. discriminate. Qed.

Lemma only_oob_dom_body (inp : inputs) (dom : R * R * R) :
  raises_only_out_of_bounds (dom_body inp dom).
Proof.
  unfold dom_body, dom_accumulate, dom_loops, pol_bin_body, cart_bin_body,
    hemisphere_body, quadrant_body, dom_combine, combine_body.
  destruct dom as [[dom_x dom_y] dom_z].
  repeat first
    [ apply only_oob_ret | apply only_oob_index | apply only_oob_add_at
    | apply only_oob_mul_at | apply only_oob_read | apply only_oob_fill
    | apply only_oob_for | apply only_oob_bind
    | match goal with
      | |- forall _, _ => intro
      | |- raises_only_out_of_bounds (let '(_, _) := ?e in _) => destruct e
      | |- raises_only_out_of_bounds (if ?b then _ else _) => destruct b
      | |- raises_only_out_of_bounds (match ?x with _ => _ end) => destruct x
      end ].
Qed.

Lemma same_outputs_refl st : same_outputs st st.
Proof. intros a _. reflexivity. Qed.

Lemma same_outputs_sym st1 st2 : same_outputs st1 st2 -> same_outputs st2 st1.
Proof. intros H a Ha. symmetry. now apply H. Qed.

Lemma same_outputs_trans st1 st2 st3 :
  same_outputs st1 st2 -> same_outputs st2 st3 -> same_outputs st1 st3.
Proof. intros H1 H2 a Ha. rewrite H1 by exact Ha. now apply H2. Qed.

Lemma scratch_not_output a :
  a = DomBinnedVol \/ a = DomBinnedSpv -> a ∉ output_arrays.
Proof.
  intros Ha Hin. unfold output_arrays in Hin.
  repeat (apply elem_of_cons in Hin as [Hin | Hin]; [destruct Ha; congruence|]).
  inversion Hin.
Qed.

(** The prologue writes none of the five arrays, whatever its outcome. *)
Lemma prologue_keeps_outputs (inp : inputs) (st : state) :
  same_outputs (result_state (prologue inp st)) st.
Proof.
  apply (always_prologue (fun st st' => same_outputs st' st)).
  - apply same_outputs_refl.
  - intros s1 s2 s3 H12 H23. eapply same_outputs_trans; eauto.
  - intros a l s Ha b Hb. apply get_set_other. intros ->.
    now apply (scratch_not_output _ Ha).
Qed.

(** X1: when the call fails on an assertion, the configuration is not
    valid (one of the checks of lines 199-259 does not hold) and each
    of the five arrays of the caller is as it was: the loops themselves
    never fail on an assertion.  The input is within the ranges of the
    C types of the checks ([checks_in_range]): the bin counts and
    their product fit [unsigned int] when they are computed, [nr] and
    [ntheta] are not negative, and the check of line 252 does not
    depend on the rounding of its division. *)
Theorem assertion_error_means_invalid (inp : inputs) (st st' : state) :
  checks_in_range inp ->
  shift_and_bin inp st = Raise AssertionError st' ->
  ~ valid_config inp st /\ same_outputs st' st.
Proof.
  intros _ Hrun. unfold shift_and_bin in Hrun. rewrite bind_unfold in Hrun.
  pose proof (prologue_keeps_outputs inp st) as Hkeep.
  destruct (prologue inp st) as [[] st1|e st1] eqn:Hpro.
  - exfalso.
    assert (AssertionError = OutOfBounds) as Habs; [|discriminate].
    eapply (only_oob_for (dom_coords inp) (dom_body inp)); [|exact Hrun].
    intros dom. apply only_oob_dom_body.
  - injection Hrun as -> ->. split; [|exact Hkeep].
    intros Hvalid.
    rewrite (proj2 (prologue_Ok inp st _) (conj Hvalid eq_refl)) in Hpro.
    discriminate.
Qed.

Lemma ex_bad_oversample_run :
  shift_and_bin (ex_table 1 0 [ex_origin]) ex_state
  = Raise AssertionError ex_state.
Proof.
  unfold shift_and_bin, prologue. rewrite bind_unfold.
  rewrite assert_bind_true by (apply double_gt_true; simpl; lra).
  rewrite assert_bind_false by reflexivity. reflexivity.
Qed.

Lemma assertion_error_means_invalid_witness :
  exists st',
    shift_and_bin (ex_table 1 0 [ex_origin]) ex_state = Raise AssertionError st' /\
    ~ valid_config (ex_table 1 0 [ex_origin]) ex_state /\
    same_outputs st' ex_state.
Proof.
  exists ex_state. split; [apply ex_bad_oversample_run|].
  exact (assertion_error_means_invalid _ _ _ (ex_checks_in_range _ _ _)
           ex_bad_oversample_run).
Defined.

Lemma same_output_lengths_set a l st :
  length l = length (get_array a st) ->
  same_output_lengths (set_array a l st) st.
Proof. intros Hl b _. now apply length_get_set. Qed.

(** X2: the call never resizes an array of the caller: whether it
    returns or raises, each of the five arrays has the length it had
    before the call. *)
Theorem call_never_resizes (inp : inputs) (st : state) :
  same_output_lengths (result_state (shift_and_bin inp st)) st.
Proof.
  apply (always_shift_and_bin (fun st st' => same_output_lengths st' st)).
  - intros s a _. reflexivity.
  - intros s1 s2 s3 H12 H23 a Ha. rewrite H23 by exact Ha. now apply H12.
  - intros a l s Hl. now apply same_output_lengths_set.
  - intros a l s Ha b Hb. f_equal. apply get_set_other. intros ->.
    now apply (scratch_not_output _ Ha).
Qed.

(** ** When the call returns *)

(** X3: on well-shaped tables within the ranges of the C types
    ([in_c_range]: bin counts and their product that fit
    [unsigned int], [nr] and [ntheta] not negative, offsets that fit
    [int]) the call returns exactly on the valid configurations: no
    assertion fails and no read or write leaves its array. *)
Theorem call_returns_iff_valid (inp : inputs) (st : state) :
  in_c_range inp -> well_shaped inp ->
  (valid_config inp st <-> exists st', shift_and_bin inp st = Ok tt st').
Proof.
  intros _ Hshape. split.
  - intros Hvalid. now apply shift_and_bin_returns.
  - intros (st' & Hrun). unfold shift_and_bin in Hrun.
    apply bind_Ok in Hrun as ([] & st1 & Hpro & _).
    now apply prologue_Ok in Hpro as [Hvalid _].
Qed.

Lemma call_returns_iff_valid_witness :
  valid_config (ex_table (/ 2) 1 [ex_origin]) ex_state <->
  exists st', shift_and_bin (ex_table (/ 2) 1 [ex_origin]) ex_state = Ok tt st'.
Proof.
  apply call_returns_iff_valid; [apply ex_in_c_range | apply ex_well_shaped].
Defined.

Lemma allocated_same_outputs (inp : inputs) st : same_outputs (allocated inp st) st.
Proof.
  intros a Ha. unfold allocated.
  rewrite !get_set_other; [reflexivity| |]; intros ->;
    [apply (scratch_not_output DomBinnedVol) | apply (scratch_not_output DomBinnedSpv)];
    auto.
Qed.

Lemma rejected_doms_run (inp : inputs) (doms : list (R * R * R)) st :
  Forall (fun dom => dom_outside inp dom = true) doms ->
  for_ doms (dom_body inp) st = Ok tt st.
Proof.
  induction 1 as [|dom doms Hd _ IH]; [reflexivity|].
  rewrite for_cons, bind_unfold. unfold dom_body at 1. rewrite Hd. exact IH.
Qed.

(** X4: a call whose DOMs are all rejected by the quick check of lines
    279-284, in particular a call without DOMs, returns on every valid
    configuration within the ranges of the C types of the checks
    ([checks_in_range]: bin counts and their product that fit
    [unsigned int], [nr] and [ntheta] not negative, a check of line
    252 that does not depend on the rounding of its division),
    whatever the tables hold, and leaves each of the five arrays of
    the caller as it was. *)
Theorem rejected_doms_leave_outputs (inp : inputs) (st : state) :
  checks_in_range inp ->
  valid_config inp st ->
  Forall (fun dom => dom_outside inp dom = true) (dom_coords inp) ->
  exists st', shift_and_bin inp st = Ok tt st' /\ same_outputs st' st.
Proof.
  intros _ Hvalid Hout. exists (allocated inp st). split.
  - unfold shift_and_bin. apply bind_Ok. exists tt, (allocated inp st). split.
    + apply prologue_Ok. auto.
    + now apply rejected_doms_run.
  - apply allocated_same_outputs.
Qed.

Lemma rejected_doms_leave_outputs_witness :
  exists st',
    shift_and_bin (ex_table 1 1 [((-1)%R, 0%R, 0%R); (0%R, 5%R, 0%R)]) ex_state
    = Ok tt st' /\
    same_outputs st' ex_state.
Proof.
  apply rejected_doms_leave_outputs.
  - apply ex_checks_in_range.
  - apply ex_valid. lia.
  - simpl dom_coords. repeat constructor.
    + apply dom_outside_boundary. simpl. left. lra.
    + unfold dom_outside. simpl.
      rewrite (double_ge_true (5 - 1) 1) by lra. now rewrite !orb_true_r.
Defined.

(** ** A table without bins *)

Lemma dom_loops_empty (inp : inputs) dx dy dz :
  nr inp <= 0 \/ ntheta inp <= 0 -> follows (dom_loops inp dx dy dz) [].
Proof.
  intros Hempty st. unfold dom_loops. rewrite for_nil.
  destruct Hempty as [Hnr | Hnt].
  - unfold range. rewrite seqZ_nil by lia. reflexivity.
  - assert (ntheta_in_quad inp <= 0) as Hq.
    { unfold ntheta_in_quad. rewrite c_ceil_half.
      pose proof (Z.div_mod (ntheta inp + 1) 2 ltac:(lia)).
      pose proof (Z.mod_pos_bound (ntheta inp + 1) 2 ltac:(lia)). lia. }
    unfold range at 2. rewrite seqZ_nil by lia.
    generalize (range (nr inp)). intros l. revert st.
    induction l as [|r l IH]; intros st; [reflexivity|].
    rewrite for_cons, bind_unfold, for_nil. apply IH.
Qed.

(** A DOM whose loops are the bin updates [tr] returns on grid-sized
    arrays, with [dom_state]. *)
Lemma dom_body_follows (inp : inputs) dom_x dom_y dom_z (tr : list step) st :
  dom_outside inp (dom_x, dom_y, dom_z) = false ->
  follows (dom_loops inp (c_round ((dom_x - x_min inp) * inv_os_bw inp))
             (c_round ((dom_y - y_min inp) * inv_os_bw inp))
             (c_round ((dom_z - z_min inp) * inv_os_bw inp))) tr ->
  Forall (fun s => 0 <= s_ix s < nx inp * ny inp * nz inp) tr ->
  grid_sized inp st ->
  dom_body inp (dom_x, dom_y, dom_z) st = Ok tt (dom_state inp tr st).
Proof.
  intros Hout Hfol Htr Hsz. unfold dom_body. rewrite Hout.
  apply bind_Ok. exists tt, (steps_state tr (reset_state st)). split.
  - rewrite dom_accumulate_reset, Hfol. apply run_steps_Ok. split; [|reflexivity].
    eapply Forall_impl; [exact Htr|]. intros s Hix. cbv beta in Hix.
    split; [lia|]. intros a _. rewrite reset_state_lengths, Hsz. lia.
  - apply dom_combine_Ok. split; [|reflexivity].
    apply Forall_forall. intros k Hk. apply elem_of_range in Hk.
    assert (forall a, Z.of_nat (length (get_array a (steps_state tr (reset_state st))))
                      = nx inp * ny inp * nz inp) as Hlen.
    { intros a. rewrite steps_state_lengths, reset_state_lengths. apply Hsz. }
    split; [lia|].
    destruct (lookup_lt_is_Some_2
                (dom_binned_vol (steps_state tr (reset_state st))) (Z.to_nat k))
      as [bv Hbv].
    { specialize (Hlen DomBinnedVol). simpl in Hlen. lia. }
    exists bv. split; [exact Hbv|]. intros _. split; apply lookup_lt_is_Some_2.
    + specialize (Hlen DomBinnedSpv). simpl in Hlen. lia.
    + specialize (Hlen BinnedOneMinusSp). simpl in Hlen. lia.
Qed.

(** A DOM without bin updates leaves the five arrays as they were. *)
Lemma dom_state_nil_outputs (inp : inputs) st : same_outputs (dom_state inp [] st) st.
Proof.
  intros a Ha. apply list_eq. intros k.
  destruct (decide (a = BinnedOneMinusSp)) as [->|Hne].
  - simpl. rewrite dom_state_one_minus_sp. simpl steps_state.
    apply fmap_id_R. intros o. unfold dom_factor, combine_factor.
    destruct (_ <? _); [|lra]. unfold reset_state. simpl.
    destruct (replicate _ _ !! k) as [bv|] eqn:Ebv; [|lra].
    apply lookup_replicate in Ebv as [-> _].
    destruct (replicate _ _ !! k); [|lra].
    rewrite double_eq_true by reflexivity. lra.
  - rewrite dom_state_sums by assumption. apply fmap_id_R. intros x. simpl. lra.
Qed.

Lemma grid_sized_allocated (inp : inputs) st :
  valid_config inp st -> grid_sized inp (allocated inp st).
Proof.
  intros (_ & _ & _ & _ & _ & _ & _ & Hlen & _).
  assert (0 <= nx inp * ny inp * nz inp) as Hn.
  { rewrite <- (Hlen BinnedSpv) by (unfold output_arrays; now left). lia. }
  intros a. unfold allocated.
  destruct a; simpl; rewrite ?length_replicate, ?Z2Nat.id by exact Hn;
    try reflexivity.
  - apply (Hlen BinnedSpv). unfold output_arrays. repeat constructor.
  - apply (Hlen BinnedPxSpv). unfold output_arrays. repeat constructor.
  - apply (Hlen BinnedPySpv). unfold output_arrays. repeat constructor.
  - apply (Hlen BinnedPzSpv). unfold output_arrays. repeat constructor.
  - apply (Hlen BinnedOneMinusSp). unfold output_arrays. repeat constructor.
Qed.

Lemma empty_table_doms (inp : inputs) (doms : list (R * R * R)) st :
  nr inp <= 0 \/ ntheta inp <= 0 -> grid_sized inp st ->
  exists st', for_ doms (dom_body inp) st = Ok tt st' /\ same_outputs st' st.
Proof.
  intros Hempty. revert st. induction doms as [|dom doms IH]; intros st Hsz.
  { exists st. split; [reflexivity | apply same_outputs_refl]. }
  assert (exists st1, dom_body inp dom st = Ok tt st1 /\ same_outputs st1 st /\
                      grid_sized inp st1) as (st1 & Hd & Ho & Hsz1).
  { destruct (dom_outside inp dom) eqn:Hout.
    - exists st. unfold dom_body. rewrite Hout.
      split; [reflexivity|]. split; [apply same_outputs_refl | exact Hsz].
    - destruct dom as [[dom_x dom_y] dom_z]. exists (dom_state inp [] st).
      split; [|split].
      + apply dom_body_follows; try assumption; [|constructor].
        now apply dom_loops_empty.
      + apply dom_state_nil_outputs.
      + intros a. rewrite dom_state_lengths. apply Hsz. }
  destruct (IH st1 Hsz1) as (st' & Hrest & Ho').
  exists st'. split.
  - rewrite for_cons. apply bind_Ok. eauto.
  - eapply same_outputs_trans; eauto.
Qed.

(** X5: with a table without radial bins or without polar-angle bins
    ([nr = 0] or [ntheta = 0], the other count not negative) the call
    returns on every valid configuration whose bin counts and their
    product fit [unsigned int] ([checks_in_range]) and leaves each of
    the five arrays of the caller as it was, wherever the DOMs are. *)
Theorem empty_table_leaves_outputs (inp : inputs) (st : state) :
  checks_in_range inp ->
  valid_config inp st -> nr inp = 0 \/ ntheta inp = 0 ->
  exists st', shift_and_bin inp st = Ok tt st' /\ same_outputs st' st.
Proof.
  intros _ Hvalid Hzero.
  assert (nr inp <= 0 \/ ntheta inp <= 0) as Hempty by lia.
  destruct (empty_table_doms inp (dom_coords inp) (allocated inp st) Hempty
              (grid_sized_allocated inp st Hvalid)) as (st' & Hrun & Ho).
  exists st'. split.
  - unfold shift_and_bin. apply bind_Ok. exists tt, (allocated inp st).
    split; [apply prologue_Ok; auto | exact Hrun].
  - eapply same_outputs_trans; [exact Ho | apply allocated_same_outputs].
Qed.

Lemma ex_empty_valid : valid_config ex_empty ex_state.
Proof.
  assert (nx ex_empty = 1) as Hx by (unfold nx; simpl; apply c_round_near; lra).
  assert (ny ex_empty = 1) as Hy by (unfold ny; simpl; apply c_round_near; lra).
  assert (nz ex_empty = 1) as Hz by (unfold nz; simpl; apply c_round_near; lra).
  unfold valid_config. rewrite Hx, Hy, Hz. simpl.
  repeat split; try lra; try lia; try (apply Rabs_lt_tolerance; lra).
  now apply ex_output_lengths.
Qed.

Lemma ex_empty_checks_in_range : checks_in_range ex_empty.
Proof.
  assert (nx ex_empty = 1) as Hx by (unfold nx; simpl; apply c_round_near; lra).
  assert (ny ex_empty = 1) as Hy by (unfold ny; simpl; apply c_round_near; lra).
  assert (nz ex_empty = 1) as Hz by (unfold nz; simpl; apply c_round_near; lra).
  split; [|split].
  - intros _ _ _. unfold grid_in_range, uint_bound. rewrite Hx, Hy, Hz. lia.
  - unfold bins_in_range, int_bound, uint_bound. simpl. lia.
  - intros _. reflexivity.
Qed.

Lemma empty_table_leaves_outputs_witness :
  exists st', shift_and_bin ex_empty ex_state = Ok tt st' /\ same_outputs st' ex_state.
Proof.
  apply empty_table_leaves_outputs.
  - apply ex_empty_checks_in_range.
  - apply ex_empty_valid.
  - left. reflexivity.
Defined.

(** ** The effect of a DOM on the arrays of the caller *)

(** A DOM that succeeds on a state succeeds on every state of the
    same shape; there it multiplies [binned_one_minus_sp] by factors
    and adds sums to the four other arrays that do not depend on the
    state. *)
Lemma dom_body_effect (inp : inputs) dom (s1 s1' : state) :
  dom_body inp dom s1 = Ok tt s1' ->
  exists (F : nat -> R) (G : array_name -> nat -> R),
    forall s2, same_lengths s1 s2 ->
      exists s2',
        dom_body inp dom s2 = Ok tt s2' /\
        same_lengths s2' s2 /\
        (forall k, binned_one_minus_sp s2' !! k
                   = (fun o => o * F k)%R <$> binned_one_minus_sp s2 !! k) /\
        (forall a, a ∈ output_arrays -> a <> BinnedOneMinusSp ->
           forall k, get_array a s2' !! k
                     = (fun x => x + G a k)%R <$> get_array a s2 !! k).
Proof.
  intros Hrun. destruct (dom_outside inp dom) eqn:Hout.
  - exists (fun _ => 1%R), (fun _ _ => 0%R). intros s2 _. exists s2.
    unfold dom_body. rewrite Hout. split; [reflexivity|].
    split; [apply same_lengths_refl|].
    split; intros; symmetry; apply fmap_id_R; intros; lra.
  - destruct (dom_body_inside_Ok inp dom s1 s1' Hout Hrun) as (tr & _ & Hiff & _).
    apply Hiff in Hrun as (Hb & Hc & _).
    exists (dom_factor inp (steps_state tr (reset_state s1))),
           (fun a k => cell_sum (weight a) tr k).
    intros s2 Hl.
    destruct (scratch_after_loops tr s1 s2 Hl) as [Hv Hs].
    exists (dom_state inp tr s2). split; [|split; [|split]].
    + apply Hiff. split; [|split; [|reflexivity]].
      * eapply Forall_impl; [exact Hb|]. intros s. apply step_in_bounds_lengths.
        eapply same_lengths_trans; [apply reset_state_lengths|].
        eapply same_lengths_trans; [exact Hl|].
        apply same_lengths_sym, reset_state_lengths.
      * eapply Forall_impl; [exact Hc|]. intros k.
        apply combine_in_bounds_sim; [exact Hv | exact Hs |].
        rewrite !steps_state_one_minus_sp. apply (Hl BinnedOneMinusSp).
    + apply dom_state_lengths.
    + intros k. rewrite dom_state_one_minus_sp. apply fmap_ext_R. intros o.
      f_equal. unfold dom_factor. destruct (_ <? _); [|reflexivity].
      symmetry. now apply combine_factor_scratch.
    + intros a Ha Hne k. now apply dom_state_sums.
Qed.

Lemma alike_refl st : alike st st.
Proof. split; [apply same_outputs_refl | apply same_lengths_refl]. Qed.

Lemma alike_sym st1 st2 : alike st1 st2 -> alike st2 st1.
Proof. intros [H1 H2]. split; [now apply same_outputs_sym | now apply same_lengths_sym]. Qed.

Lemma alike_trans st1 st2 st3 : alike st1 st2 -> alike st2 st3 -> alike st1 st3.
Proof.
  intros [H1 H2] [H3 H4]. split.
  - eapply same_outputs_trans; eauto.
  - eapply same_lengths_trans; eauto.
Qed.

(** Equal effects on equal arrays give equal arrays. *)
Lemma same_outputs_by_lookup (s1 s2 : state) :
  (forall a, a ∈ output_arrays -> forall k : nat,
     get_array a s1 !! k = get_array a s2 !! k) ->
  same_outputs s1 s2.
Proof. intros H a Ha. apply list_eq. now apply H. Qed.

(** A DOM does not tell two alike states apart. *)
Lemma dom_body_alike (inp : inputs) dom (s1 s1' s2 : state) :
  dom_body inp dom s1 = Ok tt s1' -> alike s1 s2 ->
  exists s2', dom_body inp dom s2 = Ok tt s2' /\ alike s1' s2'.
Proof.
  intros Hrun [Ho Hl].
  destruct (dom_body_effect inp dom s1 s1' Hrun) as (F & G & Heff).
  destruct (Heff s1 (same_lengths_refl s1)) as (s1'' & Hrun1 & Hl1 & HF1 & HG1).
  assert (s1'' = s1') as -> by congruence.
  destruct (Heff s2 Hl) as (s2' & Hrun2 & Hl2 & HF2 & HG2).
  exists s2'. split; [exact Hrun2|]. split.
  - apply same_outputs_by_lookup. intros a Ha k.
    destruct (decide (a = BinnedOneMinusSp)) as [->|Hne].
    + simpl. rewrite HF1, HF2.
      pose proof (Ho BinnedOneMinusSp Ha) as E. simpl in E. now rewrite E.
    + rewrite HG1, HG2 by assumption. now rewrite (Ho a Ha).
  - eapply same_lengths_trans; [exact Hl1|].
    eapply same_lengths_trans; [exact Hl|]. now apply same_lengths_sym.
Qed.

Lemma doms_alike (inp : inputs) (doms : list (R * R * R)) (s1 s1' s2 : state) :
  for_ doms (dom_body inp) s1 = Ok tt s1' -> alike s1 s2 ->
  exists s2', for_ doms (dom_body inp) s2 = Ok tt s2' /\ alike s1' s2'.
Proof.
  revert s1 s2. induction doms as [|dom doms IH]; intros s1 s2 Hrun Hal.
  - rewrite for_nil in Hrun. injection Hrun as <-. exists s2. auto.
  - rewrite for_cons in Hrun. apply bind_Ok in Hrun as ([] & t1 & Hd & Hrest).
    destruct (dom_body_alike inp dom s1 t1 s2 Hd Hal) as (t2 & Hd2 & Hal2).
    destruct (IH t1 t2 Hrest Hal2) as (s2' & Hrest2 & Hal').
    exists s2'. split; [|exact Hal'].
    rewrite for_cons. apply bind_Ok. eauto.
Qed.

(** Two DOMs in either order. *)
Lemma dom_body_swap (inp : inputs) d1 d2 (s sa sb : state) :
  dom_body inp d1 s = Ok tt sa -> dom_body inp d2 sa = Ok tt sb ->
  exists sa' sb',
    dom_body inp d2 s = Ok tt sa' /\ dom_body inp d1 sa' = Ok tt sb' /\
    alike sb sb'.
Proof.
  intros H1 H2.
  destruct (dom_body_effect inp d1 s sa H1) as (F1 & G1 & Heff1).
  destruct (dom_body_effect inp d2 sa sb H2) as (F2 & G2 & Heff2).
  destruct (Heff1 s (same_lengths_refl s)) as (sa0 & Hr & Hla & HFa & HGa).
  assert (sa0 = sa) as -> by congruence. clear Hr.
  destruct (Heff2 sa (same_lengths_refl sa)) as (sb0 & Hr & Hlb & HFb & HGb).
  assert (sb0 = sb) as -> by congruence. clear Hr.
  destruct (Heff2 s Hla) as (sa' & Hr2 & Hla' & HFa' & HGa').
  destruct (Heff1 sa' (same_lengths_sym _ _ Hla')) as (sb' & Hr1 & Hlb' & HFb' & HGb').
  exists sa', sb'. split; [exact Hr2|]. split; [exact Hr1|]. split.
  - apply same_outputs_by_lookup. intros a Ha k.
    destruct (decide (a = BinnedOneMinusSp)) as [->|Hne].
    + simpl. rewrite HFb, HFa, HFb', HFa'.
      destruct (binned_one_minus_sp s !! k); simpl; [f_equal; lra | reflexivity].
    + rewrite HGb, HGa, HGb', HGa' by assumption.
      destruct (get_array a s !! k); simpl; [f_equal; lra | reflexivity].
  - eapply same_lengths_trans; [exact Hlb|].
    eapply same_lengths_trans; [exact Hla|].
    apply same_lengths_sym.
    eapply same_lengths_trans; [exact Hlb'|exact Hla'].
Qed.

Lemma doms_permutation (inp : inputs) (doms doms' : list (R * R * R)) :
  Permutation doms doms' ->
  forall s sA,
    for_ doms (dom_body inp) s = Ok tt sA ->
    exists sB, for_ doms' (dom_body inp) s = Ok tt sB /\ alike sA sB.
Proof.
  induction 1 as [|d l l' _ IH|d1 d2 l|l l' l'' _ IH1 _ IH2]; intros s sA Hrun.
  - exists sA. split; [exact Hrun | apply alike_refl].
  - rewrite for_cons in Hrun. apply bind_Ok in Hrun as ([] & s1 & Hd & Hrest).
    destruct (IH s1 sA Hrest) as (sB & HrunB & Hal).
    exists sB. split; [|exact Hal]. rewrite for_cons. apply bind_Ok. eauto.
  - rewrite !for_cons in Hrun. apply bind_Ok in Hrun as ([] & s1 & Hd1 & Hrun).
    rewrite for_cons in Hrun. apply bind_Ok in Hrun as ([] & s2 & Hd2 & Hrest).
    destruct (dom_body_swap inp _ _ s s1 s2 Hd1 Hd2)
      as (s1' & s2' & Hd1' & Hd2' & Hal).
    destruct (doms_alike inp l s2 sA s2' Hrest Hal) as (sB & Hrest' & Hal').
    exists sB. split; [|exact Hal'].
    rewrite for_cons. apply bind_Ok. exists tt, s1'. split; [exact Hd1'|].
    rewrite for_cons. apply bind_Ok. eauto.
  - destruct (IH1 s sA Hrun) as (sB & HrunB & Hal1).
    destruct (IH2 s sB HrunB) as (sC & HrunC & Hal2).
    exists sC. split; [exact HrunC|]. eapply alike_trans; eauto.
Qed.

(** X6: the order of the DOMs does not matter for any of the five
    arrays: when a call succeeds, the call on any permutation of its
    DOMs, from the same state and on an input that is otherwise the
    same, succeeds and ends with the same five arrays. *)
Theorem dom_permutation_invariant (inp : inputs) (doms doms' : list (R * R * R))
    (st stA : state) :
  Permutation doms doms' ->
  shift_and_bin (with_doms inp doms) st = Ok tt stA ->
  exists stB,
    shift_and_bin (with_doms inp doms') st = Ok tt stB /\ same_outputs stA stB.
Proof.
  intros Hperm Hrun. unfold shift_and_bin in *.
  apply bind_Ok in Hrun as ([] & st1 & Hpro & Hrun).
  apply prologue_Ok in Hpro as [Hvalid ->].
  change (valid_config inp st) in Hvalid.
  change (for_ doms (dom_body inp) (allocated inp st) = Ok tt stA) in Hrun.
  destruct (doms_permutation inp doms doms' Hperm _ _ Hrun) as (stB & HrunB & Hal).
  exists stB. split; [|apply Hal].
  apply bind_Ok. exists tt, (allocated inp st). split.
  - apply prologue_Ok. split; [exact Hvalid | reflexivity].
  - exact HrunB.
Qed.

Lemma doms_lengths (inp : inputs) (doms : list (R * R * R)) (s s' : state) :
  for_ doms (dom_body inp) s = Ok tt s' -> same_lengths s' s.
Proof.
  revert s. induction doms as [|dom doms IH]; intros s Hrun.
  - rewrite for_nil in Hrun. injection Hrun as <-. apply same_lengths_refl.
  - rewrite for_cons in Hrun. apply bind_Ok in Hrun as ([] & s1 & Hd & Hrest).
    eapply same_lengths_trans; [apply IH, Hrest|].
    eapply dom_body_lengths, Hd.
Qed.

Lemma valid_config_lengths (inp : inputs) (s1 s2 : state) :
  same_output_lengths s2 s1 -> valid_config inp s1 -> valid_config inp s2.
Proof.
  intros Hl (H1 & H2 & H3 & H4 & H5 & H6 & H7 & H8 & H9).
  repeat split; try assumption.
  intros a Ha. rewrite (Hl a Ha). now apply H8.
Qed.

Lemma allocated_lengths (inp : inputs) (s1 s2 : state) :
  same_lengths s2 s1 -> same_lengths (allocated inp s2) (allocated inp s1).
Proof.
  intros Hl a. unfold allocated.
  destruct a; simpl; rewrite ?length_replicate; try reflexivity.
  - apply (Hl BinnedSpv).
  - apply (Hl BinnedPxSpv).
  - apply (Hl BinnedPySpv).
  - apply (Hl BinnedPzSpv).
  - apply (Hl BinnedOneMinusSp).
Qed.

Lemma allocated_idempotent (inp : inputs) st :
  allocated inp (allocated inp st) = allocated inp st.
Proof. reflexivity. Qed.

(** A state reached by the loops from the state after the prologue is
    alike the state after a new prologue. *)
Lemma allocated_after_doms (inp : inputs) (doms : list (R * R * R)) st t :
  for_ doms (dom_body inp) (allocated inp st) = Ok tt t ->
  alike (allocated inp t) t.
Proof.
  intros Hrun. pose proof (doms_lengths inp doms _ _ Hrun) as Hl.
  split; [apply allocated_same_outputs|].
  eapply same_lengths_trans; [apply (allocated_lengths inp _ _ Hl)|].
  rewrite allocated_idempotent. now apply same_lengths_sym.
Qed.

(** X7: calls compose: two successive calls with the same table, the
    second on the arrays that the first has left, end with the same
    five arrays as one call on the two lists of DOMs appended, and one
    of the two ways succeeds exactly when the other does. *)
Theorem calls_compose (inp : inputs) (doms1 doms2 : list (R * R * R)) (st : state) :
  (forall s1 s2,
     shift_and_bin (with_doms inp doms1) st = Ok tt s1 ->
     shift_and_bin (with_doms inp doms2) s1 = Ok tt s2 ->
     exists s,
       shift_and_bin (with_doms inp (doms1 ++ doms2)) st = Ok tt s /\
       same_outputs s s2) /\
  (forall s,
     shift_and_bin (with_doms inp (doms1 ++ doms2)) st = Ok tt s ->
     exists s1 s2,
       shift_and_bin (with_doms inp doms1) st = Ok tt s1 /\
       shift_and_bin (with_doms inp doms2) s1 = Ok tt s2 /\
       same_outputs s s2).
Proof.
  split.
  - intros s1 s2 Hc1 Hc2. unfold shift_and_bin in *.
    apply bind_Ok in Hc1 as ([] & a0 & Hp1 & Hr1).
    apply prologue_Ok in Hp1 as [Hvalid ->].
    apply bind_Ok in Hc2 as ([] & a1 & Hp2 & Hr2).
    apply prologue_Ok in Hp2 as [Hvalid1 ->].
    change (valid_config inp st) in Hvalid.
    change (for_ doms1 (dom_body inp) (allocated inp st) = Ok tt s1) in Hr1.
    change (for_ doms2 (dom_body inp) (allocated inp s1) = Ok tt s2) in Hr2.
    destruct (doms_alike inp doms2 _ s2 s1 Hr2 (allocated_after_doms inp _ _ _ Hr1))
      as (s & Hr & Hal).
    exists s. split; [|apply same_outputs_sym, Hal].
    apply bind_Ok. exists tt, (allocated inp st). split.
    + apply prologue_Ok. split; [exact Hvalid | reflexivity].
    + change (for_ (doms1 ++ doms2) (dom_body inp) (allocated inp st) = Ok tt s).
      rewrite for_app. apply bind_Ok. eauto.
  - intros s Hc. unfold shift_and_bin in *.
    apply bind_Ok in Hc as ([] & a0 & Hp & Hr).
    apply prologue_Ok in Hp as [Hvalid ->].
    change (valid_config inp st) in Hvalid.
    change (for_ (doms1 ++ doms2) (dom_body inp) (allocated inp st) = Ok tt s) in Hr.
    rewrite for_app in Hr. apply bind_Ok in Hr as ([] & t & Hr1 & Hr2).
    pose proof (allocated_after_doms inp _ _ _ Hr1) as Hal.
    destruct (doms_alike inp doms2 t s (allocated inp t) Hr2 (alike_sym _ _ Hal))
      as (s2 & Hr2' & Hal2).
    exists t, s2. split; [|split; [|apply Hal2]].
    + apply bind_Ok. exists tt, (allocated inp st). split; [|exact Hr1].
      apply prologue_Ok. split; [exact Hvalid | reflexivity].
    + apply bind_Ok. exists tt, (allocated inp t). split; [|exact Hr2'].
      apply prologue_Ok. split; [|reflexivity].
      change (valid_config inp t).
      apply (valid_config_lengths inp st); [|exact Hvalid].
      intros a Ha. rewrite (doms_lengths inp _ _ _ Hr1 a).
      now rewrite (allocated_same_outputs inp st a Ha).
Qed.

Lemma dom_permutation_invariant_witness :
  exists stA stB,
    shift_and_bin
      (with_doms (ex_table (/ 2) 1 []) [ex_origin; ((/ 4)%R, (/ 4)%R, (/ 4)%R)])
      ex_state = Ok tt stA /\
    shift_and_bin
      (with_doms (ex_table (/ 2) 1 []) [((/ 4)%R, (/ 4)%R, (/ 4)%R); ex_origin])
      ex_state = Ok tt stB /\
    same_outputs stA stB.
Proof.
  destruct (ex_call_pair (/ 2) 0 0 0 (/ 4) (/ 4) (/ 4)
              ltac:(lra) ltac:(lra) ltac:(lra) ltac:(lra) ltac:(lra) ltac:(lra))
    as (stA & HA).
  destruct (dom_permutation_invariant (ex_table (/ 2) 1 []) _ _ ex_state stA
              (perm_swap ((/ 4)%R, (/ 4)%R, (/ 4)%R) ex_origin []) HA)
    as (stB & HB & Heq).
  exists stA, stB. auto.
Defined.

Lemma calls_compose_witness :
  exists s s1 s2,
    shift_and_bin
      (with_doms (ex_table (/ 2) 1 [])
         ([ex_origin] ++ [((/ 4)%R, (/ 4)%R, (/ 4)%R)]))
      ex_state = Ok tt s /\
    shift_and_bin (with_doms (ex_table (/ 2) 1 []) [ex_origin]) ex_state
      = Ok tt s1 /\
    shift_and_bin
      (with_doms (ex_table (/ 2) 1 []) [((/ 4)%R, (/ 4)%R, (/ 4)%R)]) s1
      = Ok tt s2 /\
    same_outputs s s2.
Proof.
  destruct (ex_call_pair (/ 2) 0 0 0 (/ 4) (/ 4) (/ 4)
              ltac:(lra) ltac:(lra) ltac:(lra) ltac:(lra) ltac:(lra) ltac:(lra))
    as (s & Hs).
  destruct (proj2 (calls_compose (ex_table (/ 2) 1 []) [ex_origin]
                     [((/ 4)%R, (/ 4)%R, (/ 4)%R)] ex_state) s Hs)
    as (s1 & s2 & H1 & H2 & Ho).
  exists s, s1, s2. auto.
Defined.

(** ** The direction weights of the bin updates *)

Lemma bin_pos_rho_square (inp : inputs) (x y : Z) :
  (bin_pos_rho inp x y * bin_pos_rho inp x y
   = bin_center inp x * bin_center inp x + bin_center inp y * bin_center inp y)%R.
Proof.
  unfold bin_pos_rho. apply sqrt_sqrt.
  pose proof (Rle_0_sqr (bin_center inp x)) as Hx.
  pose proof (Rle_0_sqr (bin_center inp y)) as Hy.
  unfold Rsqr in Hx, Hy. lra.
Qed.

Lemma bin_pos_rho_pos (inp : inputs) (x_u y_u : N) :
  (binwidth inp > 0)%R -> 1 <= oversample inp ->
  (0 < bin_pos_rho inp (Z.of_N x_u) (Z.of_N y_u))%R.
Proof.
  intros Hb Ho.
  pose proof (half_os_bw_pos inp Hb Ho) as Hh.
  pose proof (bin_center_lower inp (Z.of_N x_u) Hb Ho ltac:(lia)) as Hx.
  pose proof (bin_center_lower inp (Z.of_N y_u) Hb Ho ltac:(lia)) as Hy.
  unfold bin_pos_rho. apply sqrt_lt_R0.
  assert (0 < bin_center inp (Z.of_N x_u) * bin_center inp (Z.of_N x_u))%R
    by (apply Rmult_lt_0_compat; lra).
  assert (0 < bin_center inp (Z.of_N y_u) * bin_center inp (Z.of_N y_u))%R
    by (apply Rmult_lt_0_compat; lra).
  lra.
Qed.

(** The normalised bin centre of lines 307-311 is a unit vector. *)
Lemma unit_direction (inp : inputs) (x_u y_u : N) :
  (binwidth inp > 0)%R -> 1 <= oversample inp ->
  let rho := bin_pos_rho inp (Z.of_N x_u) (Z.of_N y_u) in
  let ux := (bin_center inp (Z.of_N x_u) * (1 / rho))%R in
  let uy := (bin_center inp (Z.of_N y_u) * (1 / rho))%R in
  (ux * ux + uy * uy = 1)%R.
Proof.
  intros Hb Ho rho ux uy.
  pose proof (bin_pos_rho_pos inp x_u y_u Hb Ho) as Hpos. fold rho in Hpos.
  pose proof (bin_pos_rho_square inp (Z.of_N x_u) (Z.of_N y_u)) as Hsq.
  fold rho in Hsq. unfold ux, uy.
  replace (bin_center inp (Z.of_N x_u) * (1 / rho) *
           (bin_center inp (Z.of_N x_u) * (1 / rho)) +
           bin_center inp (Z.of_N y_u) * (1 / rho) *
           (bin_center inp (Z.of_N y_u) * (1 / rho)))%R
    with ((bin_center inp (Z.of_N x_u) * bin_center inp (Z.of_N x_u) +
           bin_center inp (Z.of_N y_u) * bin_center inp (Z.of_N y_u))
          / (rho * rho))%R by (field; lra).
  rewrite <- Hsq. field. lra.
Qed.

(** The direction of each quadrant is the direction of the first
    quadrant turned by a multiple of a right angle. *)
Lemma quadrant_branch_direction (inp : inputs) dx dy x y (u v prho_ : R) q :
  exists ux uy,
    snd (fst (quadrant_branch inp dx dy x y (u * prho_) (v * prho_) q))
      = (ux * prho_)%R /\
    snd (quadrant_branch inp dx dy x y (u * prho_) (v * prho_) q)
      = (uy * prho_)%R /\
    (ux * ux + uy * uy = u * u + v * v)%R.
Proof.
  unfold quadrant_branch.
  destruct (q =? 0); [|destruct (q =? 1); [|destruct (q =? 2)]]; simpl.
  - exists u, v. repeat split; lra.
  - exists (- v)%R, u. repeat split; lra.
  - exists (- u)%R, (- v)%R. repeat split; lra.
  - exists v, (- u)%R. repeat split; lra.
Qed.

Section FullSteps.

Variable inp : inputs.

Lemma quadrant_body_full dx dy x y z_idx vol sp_row sp vol_array
    prho_row prho_ pz_row pz_ (u v : R) q :
  vol_array ∈ vol_arrays inp -> vol ∈ vol_array ->
  sp_row ∈ survival_prob inp -> sp ∈ sp_row ->
  prho_row ∈ prho inp -> prho_ ∈ prho_row ->
  pz_row ∈ pz inp -> pz_ ∈ pz_row ->
  ((binwidth inp > 0)%R -> 1 <= oversample inp -> (u * u + v * v = 1)%R) ->
  0 <= z_idx < nz inp ->
  planned (step_full inp)
    (quadrant_body inp dx dy x y z_idx vol (sp * vol)%R
       (u * prho_)%R (v * prho_)%R pz_ q).
Proof.
  intros Hva Hvol Hrow Hsp Hprow Hprho Hzrow Hpz Hunit Hz. unfold quadrant_body.
  destruct (quadrant_branch_direction inp dx dy x y u v prho_ q)
    as (ux & uy & Hpx & Hpy & Hnorm).
  destruct (quadrant_branch inp dx dy x y (u * prho_) (v * prho_) q)
    as [[[x_idx y_idx] px_] py_].
  simpl in Hpx, Hpy. subst px_ py_.
  destruct (Z.ltb_spec x_idx 0); [apply planned_ret|].
  destruct (Z.leb_spec (nx inp) x_idx); [apply planned_ret|].
  destruct (Z.ltb_spec y_idx 0); [apply planned_ret|].
  destruct (Z.leb_spec (ny inp) y_idx); [apply planned_ret|].
  cbv [orb].
  apply (planned_step (step_full inp)
           {| s_ix := x_idx * ny inp * nz inp + y_idx * nz inp + z_idx;
              s_vol := vol; s_spv := (sp * vol)%R;
              s_px_spv := (ux * prho_ * (sp * vol))%R;
              s_py_spv := (uy * prho_ * (sp * vol))%R;
              s_pz_spv := (pz_ * (sp * vol))%R |}).
  split.
  - split; [|split]; simpl.
    + eauto.
    + exists sp_row, sp. auto.
    + apply flat_cart_ix_bounds; lia.
  - exists prho_row, prho_, pz_row, pz_, ux, uy. simpl.
    repeat split; try assumption; try reflexivity.
    intros Hb Ho. rewrite Hnorm. now apply Hunit.
Qed.

Lemma hemisphere_body_full dx dy dz r_idx theta_idx x y z vol vol_array (u v : R) h :
  vol_array ∈ vol_arrays inp -> vol ∈ vol_array ->
  ((binwidth inp > 0)%R -> 1 <= oversample inp -> (u * u + v * v = 1)%R) ->
  planned (step_full inp)
    (hemisphere_body inp dx dy dz r_idx theta_idx x y z vol u v h).
Proof.
  intros Hva Hvol Hunit. unfold hemisphere_body.
  destruct (hemisphere_branch inp dz z theta_idx h) as [z_idx theta_idx_].
  destruct (Z.ltb_spec z_idx 0); [apply planned_ret|].
  destruct (Z.leb_spec (nz inp) z_idx); [apply planned_ret|].
  cbv [orb].
  apply planned_index. intros sp_row _ Hrow.
  apply planned_index. intros sp _ Hsp.
  apply planned_index. intros prho_row _ Hprow.
  apply planned_index. intros prho_ _ Hprho.
  apply planned_index. intros pz_row _ Hzrow.
  apply planned_index. intros pz_ _ Hpz.
  apply planned_for. intros q _.
  eapply quadrant_body_full; eauto using list_elem_of_lookup_2.
Qed.

Lemma dom_loops_full dx dy dz : planned (step_full inp) (dom_loops inp dx dy dz).
Proof.
  unfold dom_loops. apply planned_for. intros r_idx _.
  apply planned_for. intros theta_idx _. unfold pol_bin_body.
  apply planned_index. intros vol_array _ Hva.
  apply planned_index. intros ind_array _ _.
  apply planned_for. intros ix _. unfold cart_bin_body.
  apply planned_index. intros vol _ Hvol.
  apply planned_index. intros [[x_u y_u] z_u] _ _.
  apply planned_for. intros h _.
  eapply hemisphere_body_full; eauto using list_elem_of_lookup_2.
  intros Hb Ho. now apply (unit_direction inp x_u y_u).
Qed.

(** A DOM that is processed applies a list of bin updates, each with
    the properties of [step_full]. *)
Lemma dom_body_inside_full (dom : R * R * R) (st st' : state) :
  dom_outside inp dom = false -> dom_body inp dom st = Ok tt st' ->
  exists tr, Forall (step_full inp) tr /\ st' = dom_state inp tr st.
Proof.
  intros Hout Hrun. destruct dom as [[dom_x dom_y] dom_z].
  unfold dom_body in Hrun. rewrite Hout in Hrun.
  apply bind_Ok in Hrun as ([] & st1 & H1 & H2).
  rewrite dom_accumulate_reset in H1.
  destruct (dom_loops_full
              (c_round ((dom_x - x_min inp) * inv_os_bw inp))
              (c_round ((dom_y - y_min inp) * inv_os_bw inp))
              (c_round ((dom_z - z_min inp) * inv_os_bw inp)))
    as [(tr & Htr & Hfol)|Hfail].
  - exists tr. split; [exact Htr|]. rewrite Hfol in H1.
    apply run_steps_Ok in H1 as [_ ->].
    now apply dom_combine_Ok in H2 as [_ ->].
  - destruct (Hfail (reset_state st)) as (e & s & Hr). congruence.
Qed.

End FullSteps.

Lemma cell_sum_zero (f : step -> R) (tr : list step) (k : nat) :
  Forall (fun s => f s = 0%R) tr -> cell_sum f tr k = 0%R.
Proof.
  induction 1 as [|s tr Hs _ IH]; simpl; [reflexivity|].
  rewrite Hs, IH. case_decide; lra.
Qed.

(** ** A table that never survives *)

Lemma zero_survival_dom (inp : inputs) (dom : R * R * R) (st st' : state) :
  (forall row sp, row ∈ survival_prob inp -> sp ∈ row -> sp = 0%R) ->
  dom_body inp dom st = Ok tt st' -> same_outputs st' st.
Proof.
  intros Hsp Hrun. destruct (dom_outside inp dom) eqn:Hout.
  { unfold dom_body in Hrun. rewrite Hout in Hrun. injection Hrun as <-.
    apply same_outputs_refl. }
  destruct (dom_body_inside_full inp dom st st' Hout Hrun) as (tr & Htr & ->).
  assert (Forall (fun s => s_spv s = 0%R) tr) as Hspv.
  { eapply Forall_impl; [exact Htr|].
    intros s [(_ & (row & sp & Hrow & Hin & ->) & _) _].
    rewrite (Hsp row sp Hrow Hin). lra. }
  assert (forall a, a ∈ output_arrays -> a <> BinnedOneMinusSp ->
            Forall (fun s => weight a s = 0%R) tr) as Hw.
  { intros a Ha Hne. rewrite Forall_forall in Htr, Hspv. apply Forall_forall.
    intros s Hs. specialize (Hspv s Hs). cbv beta in Hspv.
    destruct (Htr s Hs)
      as [_ (pr & p & zr & z & ux & uy & _ & _ & _ & _ & Hx & Hy & Hz & _)].
    unfold output_arrays in Ha.
    repeat (apply elem_of_cons in Ha as [-> | Ha];
            [simpl; rewrite ?Hx, ?Hy, ?Hz, ?Hspv; try lra; contradiction|]).
    inversion Ha. }
  apply same_outputs_by_lookup. intros a Ha k.
  destruct (decide (a = BinnedOneMinusSp)) as [->|Hne].
  - simpl. rewrite dom_state_one_minus_sp, dom_factor_dom_state.
    apply fmap_id_R. intros o. unfold dom_factor, combine_factor.
    destruct (_ <? _); [|lra].
    destruct (dom_state_scratch inp tr st k) as [-> ->].
    rewrite (cell_sum_zero s_spv tr k Hspv).
    repeat case_decide; try lra.
    destruct (double_eq _ 0); [lra|]. unfold Rdiv. ring.
  - rewrite dom_state_sums by assumption.
    rewrite (cell_sum_zero _ tr k (Hw a Ha Hne)).
    apply fmap_id_R. intros; lra.
Qed.

Lemma zero_survival_doms (inp : inputs) (doms : list (R * R * R)) (s s' : state) :
  (forall row sp, row ∈ survival_prob inp -> sp ∈ row -> sp = 0%R) ->
  for_ doms (dom_body inp) s = Ok tt s' -> same_outputs s' s.
Proof.
  intros Hsp. revert s. induction doms as [|dom doms IH]; intros s Hrun.
  - rewrite for_nil in Hrun. injection Hrun as <-. apply same_outputs_refl.
  - rewrite for_cons in Hrun. apply bind_Ok in Hrun as ([] & s1 & Hd & Hrest).
    apply (same_outputs_trans _ s1); [now apply IH|].
    eapply zero_survival_dom; eauto.
Qed.

(** X8: with a survival probability of 0 in every bin, a call that
    returns leaves each of the five arrays of the caller as it was:
    the sums grow by zero and [binned_one_minus_sp] is multiplied by
    one. *)
Theorem zero_survival_leaves_outputs (inp : inputs) (st st' : state) :
  (forall row sp, row ∈ survival_prob inp -> sp ∈ row -> sp = 0%R) ->
  shift_and_bin inp st = Ok tt st' ->
  same_outputs st' st.
Proof.
  intros Hsp Hrun. unfold shift_and_bin in Hrun.
  apply bind_Ok in Hrun as ([] & st1 & Hpro & Hrun).
  apply prologue_Ok in Hpro as [_ ->].
  apply (same_outputs_trans _ (allocated inp st));
    [|apply allocated_same_outputs].
  eapply zero_survival_doms; eauto.
Qed.

Lemma zero_survival_leaves_outputs_witness :
  exists st',
    shift_and_bin (ex_table 0 1 [ex_origin]) ex_state = Ok tt st' /\
    same_outputs st' ex_state.
Proof.
  destruct (ex_call 0 0 0 0 ltac:(lra) ltac:(lra) ltac:(lra))
    as (px' & py' & pz' & Hrun).
  eexists. split; [exact Hrun|].
  apply (zero_survival_leaves_outputs (ex_table 0 1 [ex_origin]) ex_state _);
    [|exact Hrun].
  intros row p Hrow Hp. simpl in Hrow.
  apply list_elem_of_singleton in Hrow as ->.
  repeat (apply elem_of_cons in Hp as [-> | Hp]; [reflexivity|]). inversion Hp.
Defined.

(** X9: on a checked configuration ([binwidth > 0], [oversample >= 1])
    the horizontal direction that the kernel weights in any quadrant
    has the length of the [prho] entry: px_^2 + py_^2 = prho_^2, because
    the normalised bin centre is a unit vector and the quadrants only
    turn it. *)
Theorem quadrant_direction_norm (inp : inputs) (x_u y_u : N)
    (dom_x_os_idx dom_y_os_idx quadrant : Z) (prho_ : R) :
  (binwidth inp > 0)%R -> 1 <= oversample inp ->
  let x_os_idx := Z.of_N x_u in
  let y_os_idx := Z.of_N y_u in
  let bin_pos_rho_norm := (1 / bin_pos_rho inp x_os_idx y_os_idx)%R in
  let px_unnormed := (bin_center inp x_os_idx * bin_pos_rho_norm)%R in
  let py_unnormed := (bin_center inp y_os_idx * bin_pos_rho_norm)%R in
  let '(_, _, px_, py_) :=
    quadrant_branch inp dom_x_os_idx dom_y_os_idx x_os_idx y_os_idx
      (px_unnormed * prho_)%R (py_unnormed * prho_)%R quadrant in
  (px_ * px_ + py_ * py_ = prho_ * prho_)%R.
Proof.
  intros Hb Ho x_os_idx y_os_idx bin_pos_rho_norm px_unnormed py_unnormed.
  destruct (quadrant_branch_direction inp dom_x_os_idx dom_y_os_idx
              x_os_idx y_os_idx px_unnormed py_unnormed prho_ quadrant)
    as (ux & uy & Hpx & Hpy & Hnorm).
  destruct (quadrant_branch _ _ _ _ _ _ _ _) as [[[x_idx y_idx] px_] py_].
  simpl in Hpx, Hpy. subst px_ py_.
  pose proof (unit_direction inp x_u y_u Hb Ho) as Hunit. simpl in Hunit.
  fold x_os_idx y_os_idx bin_pos_rho_norm px_unnormed py_unnormed in Hunit.
  rewrite Hunit in Hnorm.
  replace (ux * prho_ * (ux * prho_) + uy * prho_ * (uy * prho_))%R
    with ((ux * ux + uy * uy) * (prho_ * prho_))%R by ring.
  rewrite Hnorm. ring.
Qed.

Lemma quadrant_direction_norm_witness :
  let '(_, _, px_, py_) :=
    quadrant_branch (ex_table 1 1 []) 0 0 (Z.of_N 0) (Z.of_N 0)
      (bin_center (ex_table 1 1 []) (Z.of_N 0)
       * (1 / bin_pos_rho (ex_table 1 1 []) (Z.of_N 0) (Z.of_N 0)) * 3)%R
      (bin_center (ex_table 1 1 []) (Z.of_N 0)
       * (1 / bin_pos_rho (ex_table 1 1 []) (Z.of_N 0) (Z.of_N 0)) * 3)%R 1 in
  (px_ * px_ + py_ * py_ = 3 * 3)%R.
Proof.
  apply (quadrant_direction_norm (ex_table 1 1 []) 0%N 0%N 0 0 1 3%R).
  - simpl. lra.
  - simpl. lia.
Defined.

(** ** The number of bins of the grid *)

(** X10: with [binwidth > 0], when the extent of the grid along an
    axis is less than half a bin away from [n] bins, for a number [n]
    that fits the [unsigned int] of line 211 (0 <= n < 2^32), the
    kernel counts [n] bins along that axis, and the check of lines
    248-250 passes exactly when the extent is within 1e-6 of [n] bins;
    an extent of exactly [n] bins passes. *)
Theorem grid_bin_count (inp : inputs) (n : Z) :
  0 <= n < uint_bound ->
  (binwidth inp > 0)%R ->
  (Rabs (x_max inp - x_min inp - IZR n * binwidth inp) < binwidth inp / 2)%R ->
  nx inp = n /\
  (double_lt (Rabs (x_min inp + IZR (nx inp) * binwidth inp - x_max inp))
     (/ 1000000) = true <->
   (Rabs (x_max inp - x_min inp - IZR n * binwidth inp) < / 1000000)%R) /\
  ((x_max inp - x_min inp = IZR n * binwidth inp)%R ->
   double_lt (Rabs (x_min inp + IZR (nx inp) * binwidth inp - x_max inp))
     (/ 1000000) = true).
Proof.
  intros _ Hb Hnear.
  assert (nx inp = n) as Hnx.
  { unfold nx. apply c_round_near.
    apply Rabs_def2 in Hnear as [Hu Hl].
    assert ((x_max inp - x_min inp) / binwidth inp * binwidth inp
            = x_max inp - x_min inp)%R as Hq by (field; lra).
    split.
    - apply Rmult_lt_reg_r with (binwidth inp); [lra|]. rewrite Hq. lra.
    - apply Rmult_lt_reg_r with (binwidth inp); [lra|]. rewrite Hq. lra. }
  split; [exact Hnx|]. rewrite Hnx.
  assert (Rabs (x_min inp + IZR n * binwidth inp - x_max inp)
          = Rabs (x_max inp - x_min inp - IZR n * binwidth inp)) as Habs.
  { rewrite <- Rabs_Ropp. f_equal. ring. }
  rewrite Habs. split.
  - apply double_lt_spec.
  - intros Hex. apply double_lt_spec.
    replace (x_max inp - x_min inp - IZR n * binwidth inp)%R with 0%R by lra.
    rewrite Rabs_R0. lra.
Qed.

Lemma grid_bin_count_witness :
  nx (ex_table 1 1 []) = 1 /\
  (double_lt (Rabs (x_min (ex_table 1 1 [])
                    + IZR (nx (ex_table 1 1 [])) * binwidth (ex_table 1 1 [])
                    - x_max (ex_table 1 1 []))) (/ 1000000) = true <->
   (Rabs (x_max (ex_table 1 1 []) - x_min (ex_table 1 1 [])
          - IZR 1 * binwidth (ex_table 1 1 [])) < / 1000000)%R) /\
  ((x_max (ex_table 1 1 []) - x_min (ex_table 1 1 [])
    = IZR 1 * binwidth (ex_table 1 1 []))%R ->
   double_lt (Rabs (x_min (ex_table 1 1 [])
                    + IZR (nx (ex_table 1 1 [])) * binwidth (ex_table 1 1 [])
                    - x_max (ex_table 1 1 []))) (/ 1000000) = true).
Proof.
  apply (grid_bin_count (ex_table 1 1 []) 1).
  - unfold uint_bound. lia.
  - simpl. lra.
  - simpl. replace (1 - 0 - 1 * 1)%R with 0%R by lra. rewrite Rabs_R0. lra.
Defined.

(** ** The flattened index of a cell *)

Lemma flat_cart_ix_unique (inp : inputs) (x y z x' y' z' : Z) :
  0 <= y < ny inp -> 0 <= z < nz inp ->
  0 <= y' < ny inp -> 0 <= z' < nz inp ->
  flat_cart_ix inp x y z = flat_cart_ix inp x' y' z' ->
  x = x' /\ y = y' /\ z = z'.
Proof.
  unfold flat_cart_ix. intros Hy Hz Hy' Hz' Heq.
  assert (forall a b c d m, 0 <= b < m -> 0 <= d < m -> a * m + b = c * m + d ->
                            a = c /\ b = d) as Hdm.
  { intros a b c d m Hb Hd E.
    assert (a = c) as ->; [|lia].
    rewrite (Z.div_unique (a * m + b) m a b) by lia.
    rewrite E. symmetry. apply Z.div_unique with d; lia. }
  replace (x * ny inp * nz inp + y * nz inp + z)
    with ((x * ny inp + y) * nz inp + z) in Heq by ring.
  replace (x' * ny inp * nz inp + y' * nz inp + z')
    with ((x' * ny inp + y') * nz inp + z') in Heq by ring.
  destruct (Hdm _ _ _ _ _ Hz Hz' Heq) as [Hxy ->].
  destruct (Hdm _ _ _ _ _ Hy Hy' Hxy) as [-> ->]. auto.
Qed.

(** X11: on a grid whose bin counts and their product fit the
    [unsigned int] of lines 211-213 and 235 ([grid_in_range]), the
    flattening of line 365 sends the cells of the grid one-to-one into
    the indices of the arrays: the index of a cell of the grid lies in
    [0, nx*ny*nz), below 2^32, two cells of the grid with the same
    index are the same cell, and the kernel updates a cell of the grid
    at that index. *)
Theorem flat_cart_ix_injective (inp : inputs) :
  grid_in_range inp ->
  (forall x y z,
     0 <= x < nx inp -> 0 <= y < ny inp -> 0 <= z < nz inp ->
     flat_cart_ix inp x y z < uint_bound) /\
  (forall x y z,
     0 <= x < nx inp -> 0 <= y < ny inp -> 0 <= z < nz inp ->
     0 <= flat_cart_ix inp x y z < nx inp * ny inp * nz inp) /\
  (forall x y z x' y' z',
     0 <= x < nx inp -> 0 <= y < ny inp -> 0 <= z < nz inp ->
     0 <= x' < nx inp -> 0 <= y' < ny inp -> 0 <= z' < nz inp ->
     flat_cart_ix inp x y z = flat_cart_ix inp x' y' z' ->
     (x, y, z) = (x', y', z')) /\
  (forall dx dy x_os y_os z_idx vol spv pxf pyf pz_ q st,
     let '(x_idx, y_idx, px_, py_) :=
       quadrant_branch inp dx dy x_os y_os pxf pyf q in
     0 <= x_idx < nx inp -> 0 <= y_idx < ny inp ->
     quadrant_body inp dx dy x_os y_os z_idx vol spv pxf pyf pz_ q st =
     run_step {| s_ix := flat_cart_ix inp x_idx y_idx z_idx;
                 s_vol := vol; s_spv := spv;
                 s_px_spv := (px_ * spv)%R; s_py_spv := (py_ * spv)%R;
                 s_pz_spv := (pz_ * spv)%R |} st).
Proof.
  intros (_ & _ & _ & Hprod). split; [|split; [|split]].
  - intros x y z Hx Hy Hz.
    pose proof (flat_cart_ix_bounds inp x y z Hx Hy Hz).
    unfold flat_cart_ix. lia.
  - intros x y z Hx Hy Hz. now apply flat_cart_ix_bounds.
  - intros x y z x' y' z' Hx Hy Hz Hx' Hy' Hz' Heq.
    destruct (flat_cart_ix_unique inp x y z x' y' z' Hy Hz Hy' Hz' Heq)
      as (-> & -> & ->). reflexivity.
  - intros dx dy x_os y_os z_idx vol spv pxf pyf pz_ q st.
    unfold quadrant_body.
    destruct (quadrant_branch inp dx dy x_os y_os pxf pyf q)
      as [[[x_idx y_idx] px_] py_].
    intros Hx Hy.
    destruct (Z.ltb_spec x_idx 0); [lia|].
    destruct (Z.leb_spec (nx inp) x_idx); [lia|].
    destruct (Z.ltb_spec y_idx 0); [lia|].
    destruct (Z.leb_spec (ny inp) y_idx); [lia|].
    reflexivity.
Qed.

(** ** The polar bins and the overlap lists *)

(** X12: for an even number [ntheta >= 0] of polar-angle bins, the
    check of line 252 makes the loops read every overlap list exactly
    once per DOM: every flattened index of the loops is an index of the
    overlap mapping, two polar bins of the loops with the same index
    are the same bin, and every overlap list is the list of a polar bin
    of the loops. *)
Theorem even_ntheta_reads_each_list_once (inp : inputs) :
  Z.even (ntheta inp) = true -> 0 <= ntheta inp ->
  Z.of_nat (length (vol_arrays inp)) = cdiv (nr inp * ntheta inp) 2 ->
  (forall r_idx theta_idx,
     r_idx ∈ range (nr inp) -> theta_idx ∈ range (ntheta_in_quad inp) ->
     0 <= flat_pol_idx inp r_idx theta_idx
       < Z.of_nat (length (vol_arrays inp))) /\
  (forall r_idx theta_idx r_idx' theta_idx',
     theta_idx ∈ range (ntheta_in_quad inp) ->
     theta_idx' ∈ range (ntheta_in_quad inp) ->
     flat_pol_idx inp r_idx theta_idx = flat_pol_idx inp r_idx' theta_idx' ->
     r_idx = r_idx' /\ theta_idx = theta_idx') /\
  (forall j, 0 <= j < Z.of_nat (length (vol_arrays inp)) ->
     exists r_idx theta_idx,
       r_idx ∈ range (nr inp) /\ theta_idx ∈ range (ntheta_in_quad inp) /\
       flat_pol_idx inp r_idx theta_idx = j).
Proof.
  intros Hev Hnt Hlen. split; [|split].
  - intros r_idx theta_idx Hr Ht. now apply even_ntheta_in_bounds.
  - intros r t r' t' Ht Ht' Heq. apply elem_of_range in Ht, Ht'.
    unfold flat_pol_idx in Heq.
    assert (r = r') as ->; [|lia].
    rewrite (Z.div_unique (t + r * ntheta_in_quad inp) (ntheta_in_quad inp) r t)
      by lia.
    rewrite Heq. symmetry. apply Z.div_unique with t'; lia.
  - intros j Hj.
    pose proof (Z.even_spec (ntheta inp)) as [Hm _].
    destruct (Hm Hev) as [m Em].
    assert (ntheta_in_quad inp = m) as Hq.
    { unfold ntheta_in_quad. rewrite c_ceil_half, Em.
      symmetry. apply Z.div_unique with 1; lia. }
    assert (Z.of_nat (length (vol_arrays inp)) = nr inp * m) as Hlen'.
    { rewrite Hlen, Em. replace (nr inp * (2 * m)) with (nr inp * m * 2) by ring.
      unfold cdiv. apply Z.quot_mul. lia. }
    assert (0 < m) as Hmpos.
    { destruct (Z.eq_dec m 0) as [->|]; [|lia]. lia. }
    exists (j `div` m), (j `mod` m).
    pose proof (Z.div_mod j m ltac:(lia)) as Hdm.
    pose proof (Z.mod_pos_bound j m Hmpos) as Hmod.
    split; [|split].
    + apply elem_of_range. split; [apply Z.div_pos; lia|].
      apply Z.div_lt_upper_bound; [lia|]. rewrite Z.mul_comm. lia.
    + apply elem_of_range. rewrite Hq. lia.
    + unfold flat_pol_idx. rewrite Hq. lia.
Qed.

Lemma even_ntheta_reads_each_list_once_witness :
  0 <= flat_pol_idx (ex_table 1 1 []) 0 0
    < Z.of_nat (length (vol_arrays (ex_table 1 1 []))).
Proof.
  apply (even_ntheta_reads_each_list_once (ex_table 1 1 [])
           eq_refl ltac:(simpl; lia) eq_refl).
  - apply elem_of_range. simpl. lia.
  - rewrite ex_ntheta_in_quad. apply elem_of_range. lia.
Defined.

(** X13: for every number [ntheta] of polar-angle bins, odd or even,
    the polar-angle index that either hemisphere reads in the tables is
    a column of a table with [ntheta] columns, and the two hemispheres
    read mirror columns, whose indices add up to [ntheta - 1]. *)
Theorem hemisphere_theta_in_table (inp : inputs) (dom_z_os_idx z_os_idx theta_idx : Z) :
  theta_idx ∈ range (ntheta_in_quad inp) ->
  (forall hemisphere,
     0 <= snd (hemisphere_branch inp dom_z_os_idx z_os_idx theta_idx hemisphere)
       < ntheta inp) /\
  snd (hemisphere_branch inp dom_z_os_idx z_os_idx theta_idx 0)
  + snd (hemisphere_branch inp dom_z_os_idx z_os_idx theta_idx 1)
  = ntheta inp - 1.
Proof.
  intros Ht. split.
  - intros h. now apply theta_idx_bounds.
  - unfold hemisphere_branch. simpl. lia.
Qed.

Lemma hemisphere_theta_in_table_witness :
  (forall hemisphere,
     0 <= snd (hemisphere_branch ex_odd 0 0 1 hemisphere) < ntheta ex_odd) /\
  snd (hemisphere_branch ex_odd 0 0 1 0) + snd (hemisphere_branch ex_odd 0 0 1 1)
  = ntheta ex_odd - 1.
Proof.
  apply hemisphere_theta_in_table.
  rewrite ex_odd_ntheta_in_quad. apply elem_of_range. lia.
Defined.

(** ** The images of a lattice cell *)

(** X14: the kernel's truncating division gives the cell that the
    floor of the specification gives for every one of the eight images
    of a lattice cell, as soon as there is no oversampling or all
    images lie at lattice positions that are not negative; the
    direction of the image is the rotated first-quadrant direction. *)
Theorem images_agree_with_floor (inp : inputs)
    (dom_x_os_idx dom_y_os_idx dom_z_os_idx x_os_idx y_os_idx z_os_idx
       theta_idx : Z)
    (px_firstquad py_firstquad : R) (hemisphere quadrant : Z) :
  0 < oversample inp ->
  oversample inp = 1 \/
  (0 <= x_os_idx /\ 0 <= y_os_idx /\ 0 <= z_os_idx /\
   x_os_idx < dom_x_os_idx /\ y_os_idx < dom_x_os_idx /\
   x_os_idx < dom_y_os_idx /\ y_os_idx < dom_y_os_idx /\
   z_os_idx < dom_z_os_idx) ->
  hemisphere ∈ range 2 -> quadrant ∈ range 4 ->
  hemisphere_branch inp dom_z_os_idx z_os_idx theta_idx hemisphere
  = (let '(z, t) :=
       hemisphere_image (ntheta inp) hemisphere z_os_idx theta_idx in
     (floor_index z dom_z_os_idx (oversample inp), t)) /\
  quadrant_branch inp dom_x_os_idx dom_y_os_idx x_os_idx y_os_idx
    px_firstquad py_firstquad quadrant
  = (let '(x, y, px_, py_) :=
       quadrant_image quadrant x_os_idx y_os_idx px_firstquad py_firstquad in
     (floor_index x dom_x_os_idx (oversample inp),
      floor_index y dom_y_os_idx (oversample inp), px_, py_)).
Proof.
  intros Hos Hcase Hh Hq.
  apply elem_of_range in Hh, Hq.
  assert (forall offset dom_os_idx,
            oversample inp = 1 \/ 0 <= offset + dom_os_idx ->
            cdiv (offset + dom_os_idx) (oversample inp)
            = floor_index offset dom_os_idx (oversample inp)) as Hdiv.
  { intros offset d [H1 | Hnn]; apply cdiv_floor_index; auto. }
  assert (hemisphere = 0 \/ hemisphere = 1) as [-> | ->] by lia;
    (assert (quadrant = 0 \/ quadrant = 1 \/ quadrant = 2 \/ quadrant = 3)
       as [-> | [-> | [-> | ->]]] by lia);
    unfold hemisphere_branch, quadrant_branch, hemisphere_image,
      quadrant_image; simpl;
    rewrite !Hdiv by (destruct Hcase as [H1 | Hnn]; [left; exact H1 | right; lia]);
    split; reflexivity.
Qed.

Lemma images_agree_with_floor_witness :
  hemisphere_branch (ex_table 1 2 []) 3 1 0 1
  = (let '(z, t) := hemisphere_image (ntheta (ex_table 1 2 [])) 1 1 0 in
     (floor_index z 3 (oversample (ex_table 1 2 [])), t)) /\
  quadrant_branch (ex_table 1 2 []) 2 2 0 1 1 0 2
  = (let '(x, y, px_, py_) := quadrant_image 2 0 1 1%R 0%R in
     (floor_index x 2 (oversample (ex_table 1 2 [])),
      floor_index y 2 (oversample (ex_table 1 2 [])), px_, py_)).
Proof.
  apply images_agree_with_floor.
  - simpl. lia.
  - right. lia.
  - apply elem_of_range. lia.
  - apply elem_of_range. lia.
Defined.

(** X15: without oversampling, the eight images of a lattice cell fall
    into eight different cells: no cell of the grid receives the same
    polar-bin overlap twice. *)
Theorem images_distinct_without_oversampling (inp : inputs)
    (dom_x_os_idx dom_y_os_idx dom_z_os_idx x_os_idx y_os_idx z_os_idx : Z) :
  oversample inp = 1 ->
  length (image_cells inp dom_x_os_idx dom_y_os_idx dom_z_os_idx
            x_os_idx y_os_idx z_os_idx) = 8%nat /\
  NoDup (image_cells inp dom_x_os_idx dom_y_os_idx dom_z_os_idx
           x_os_idx y_os_idx z_os_idx).
Proof.
  intros Hos.
  unfold image_cells, hemisphere_branch, quadrant_branch. rewrite Hos.
  rewrite !cdiv_1, !Z.div_1_r.
  change (range 2) with [0; 1]. change (range 4) with [0; 1; 2; 3].
  simpl. split; [reflexivity|].
  repeat (apply NoDup_cons; split;
          [rewrite ?elem_of_cons, elem_of_nil;
           intros Hin; repeat destruct Hin as [Hin | Hin]; try exact Hin;
           injection Hin; lia|]).
  apply NoDup_nil_2.
Qed.

Lemma images_distinct_without_oversampling_witness :
  length (image_cells (ex_table 1 1 []) 0 0 0 0 0 0) = 8%nat /\
  NoDup (image_cells (ex_table 1 1 []) 0 0 0 0 0 0).
Proof.
  apply images_distinct_without_oversampling. reflexivity.
Defined.

Lemma flat_cart_ix_injective_witness :
  0 <= flat_cart_ix (ex_table 1 1 []) 0 0 0
    < nx (ex_table 1 1 []) * ny (ex_table 1 1 []) * nz (ex_table 1 1 []).
Proof.
  apply (flat_cart_ix_injective (ex_table 1 1 []) (ex_grid_in_range _ _ _));
    rewrite ?ex_nx, ?ex_ny, ?ex_nz; lia.
Defined.

(** ** The direction sums against the survival sum *)

Lemma cell_sum_abs (f g : step -> R) (tr : list step) (k : nat) :
  Forall (fun s => Rabs (f s) <= g s)%R tr ->
  (Rabs (cell_sum f tr k) <= cell_sum g tr k)%R.
Proof.
  induction 1 as [|s tr Hs _ IH]; simpl; [rewrite Rabs_R0; lra|].
  eapply Rle_trans; [apply Rabs_triang|].
  case_decide; [lra|]. rewrite Rabs_R0. lra.
Qed.

Lemma abs_prod_le (a b c : R) :
  (Rabs a <= 1)%R -> (Rabs b <= 1)%R -> (0 <= c)%R -> (Rabs (a * b * c) <= c)%R.
Proof.
  intros Ha Hb Hc. rewrite !Rabs_mult, (Rabs_pos_eq c) by exact Hc.
  pose proof (Rabs_pos a). pose proof (Rabs_pos b).
  assert (Rabs a * Rabs b <= 1 * 1)%R by (apply Rmult_le_compat; lra).
  rewrite <- (Rmult_1_l c) at 2. apply Rmult_le_compat_r; lra.
Qed.

Lemma unit_component (ux uy : R) :
  (ux * ux + uy * uy = 1)%R -> (Rabs ux <= 1)%R /\ (Rabs uy <= 1)%R.
Proof. intros H. split; apply Rabs_le; split; nra. Qed.

Lemma grows_by_zero (a : array_name) (st : state) (k : nat) :
  grows_by a 0 st st k.
Proof. unfold grows_by. symmetry. apply fmap_id_R. intros; lra. Qed.

Lemma grows_by_trans (a : array_name) (d1 d2 : R) (s1 s2 s3 : state) (k : nat) :
  grows_by a d1 s1 s2 k -> grows_by a d2 s2 s3 k ->
  grows_by a (d1 + d2) s1 s3 k.
Proof.
  unfold grows_by. intros H1 H2. rewrite H2, H1.
  destruct (get_array a s1 !! k); simpl; [f_equal; lra | reflexivity].
Qed.

Section DirectionBound.

Variable inp : inputs.
Hypothesis binwidth_pos : (binwidth inp > 0)%R.
Hypothesis oversample_pos : 1 <= oversample inp.
Hypothesis survival_prob_nonneg :
  forall row sp, row ∈ survival_prob inp -> sp ∈ row -> (0 <= sp)%R.
Hypothesis vol_nonneg :
  forall vol_array vol, vol_array ∈ vol_arrays inp -> vol ∈ vol_array -> (0 <= vol)%R.
Hypothesis prho_unit : within_unit (prho inp).
Hypothesis pz_unit : within_unit (pz inp).

Lemma step_full_bound (s : step) :
  step_full inp s ->
  (0 <= s_spv s)%R /\ (Rabs (s_px_spv s) <= s_spv s)%R /\
  (Rabs (s_py_spv s) <= s_spv s)%R /\ (Rabs (s_pz_spv s) <= s_spv s)%R.
Proof.
  intros [((va & Hva & Hvol) & (row & sp & Hrow & Hsp & Hspv) & _)
          (pr & p & zr & z & ux & uy & Hpr & Hp & Hzr & Hz & Hx & Hy & Hzz & Hu)].
  assert (0 <= s_spv s)%R as Hnn.
  { rewrite Hspv. apply Rmult_le_pos; eauto. }
  destruct (unit_component ux uy (Hu binwidth_pos oversample_pos)) as [Hux Huy].
  split; [exact Hnn|]. rewrite Hx, Hy, Hzz. repeat split.
  - apply abs_prod_le; eauto.
  - apply abs_prod_le; eauto.
  - rewrite <- (Rmult_1_l (z * s_spv s)), <- Rmult_assoc.
    apply abs_prod_le; eauto. rewrite Rabs_R1. lra.
Qed.

Lemma dom_direction_bound (dom : R * R * R) (st st' : state) (k : nat) :
  dom_body inp dom st = Ok tt st' ->
  exists d dx dy dz,
    grows_by BinnedSpv d st st' k /\ grows_by BinnedPxSpv dx st st' k /\
    grows_by BinnedPySpv dy st st' k /\ grows_by BinnedPzSpv dz st st' k /\
    (0 <= d)%R /\ (Rabs dx <= d)%R /\ (Rabs dy <= d)%R /\ (Rabs dz <= d)%R.
Proof.
  intros Hrun. destruct (dom_outside inp dom) eqn:Hout.
  { unfold dom_body in Hrun. rewrite Hout in Hrun. injection Hrun as <-.
    exists 0%R, 0%R, 0%R, 0%R.
    repeat (split; [apply grows_by_zero|]).
    rewrite Rabs_R0. lra. }
  destruct (dom_body_inside_full inp dom st st' Hout Hrun) as (tr & Htr & ->).
  exists (cell_sum (weight BinnedSpv) tr k), (cell_sum (weight BinnedPxSpv) tr k),
    (cell_sum (weight BinnedPySpv) tr k), (cell_sum (weight BinnedPzSpv) tr k).
  assert (forall a, a ∈ output_arrays -> a <> BinnedOneMinusSp ->
            grows_by a (cell_sum (weight a) tr k) st (dom_state inp tr st) k)
    as Hgrow.
  { intros a Ha Hne. unfold grows_by. now apply dom_state_sums. }
  repeat (split;
          [apply Hgrow;
           [unfold output_arrays;
            repeat (apply elem_of_cons; first [left; reflexivity | right])
           | discriminate]|]).
  split; [|repeat split].
  - enough (0 <= cell_sum (fun _ => 0%R) tr k
            <= cell_sum (weight BinnedSpv) tr k)%R by lra.
    apply cell_sum_le.
    eapply Forall_impl; [exact Htr|]. intros s Hs.
    apply step_full_bound in Hs. simpl. lra.
  - apply cell_sum_abs. eapply Forall_impl; [exact Htr|]. intros s Hs.
    apply step_full_bound in Hs. simpl. tauto.
  - apply cell_sum_abs. eapply Forall_impl; [exact Htr|]. intros s Hs.
    apply step_full_bound in Hs. simpl. tauto.
  - apply cell_sum_abs. eapply Forall_impl; [exact Htr|]. intros s Hs.
    apply step_full_bound in Hs. simpl. tauto.
Qed.

Lemma doms_direction_bound (doms : list (R * R * R)) (st st' : state) (k : nat) :
  for_ doms (dom_body inp) st = Ok tt st' ->
  exists d dx dy dz,
    grows_by BinnedSpv d st st' k /\ grows_by BinnedPxSpv dx st st' k /\
    grows_by BinnedPySpv dy st st' k /\ grows_by BinnedPzSpv dz st st' k /\
    (0 <= d)%R /\ (Rabs dx <= d)%R /\ (Rabs dy <= d)%R /\ (Rabs dz <= d)%R.
Proof.
  revert st. induction doms as [|dom doms IH]; intros st Hrun.
  - rewrite for_nil in Hrun. injection Hrun as <-.
    exists 0%R, 0%R, 0%R, 0%R.
    repeat (split; [apply grows_by_zero|]).
    rewrite Rabs_R0. lra.
  - rewrite for_cons in Hrun. apply bind_Ok in Hrun as ([] & s1 & Hd & Hrest).
    destruct (dom_direction_bound dom st s1 k Hd)
      as (d1 & dx1 & dy1 & dz1 & G1 & Gx1 & Gy1 & Gz1 & B1 & Bx1 & By1 & Bz1).
    destruct (IH s1 Hrest)
      as (d2 & dx2 & dy2 & dz2 & G2 & Gx2 & Gy2 & Gz2 & B2 & Bx2 & By2 & Bz2).
    exists (d1 + d2)%R, (dx1 + dx2)%R, (dy1 + dy2)%R, (dz1 + dz2)%R.
    repeat (split; [eapply grows_by_trans; eassumption|]).
    split; [lra|].
    repeat split; (eapply Rle_trans; [apply Rabs_triang|lra]).
Qed.

End DirectionBound.

(** X16: with survival probabilities and overlap volumes that are not
    negative and direction tables [prho] and [pz] with entries between
    -1 and 1, a call that returns adds to every cell of [binned_spv] an
    amount [d >= 0], and to the same cell of [binned_px_spv],
    [binned_py_spv] and [binned_pz_spv] amounts whose absolute values
    are at most [d]. *)
Theorem direction_sums_bounded (inp : inputs) (st st' : state) (k : nat) :
  (forall row sp, row ∈ survival_prob inp -> sp ∈ row -> (0 <= sp)%R) ->
  (forall vol_array vol,
     vol_array ∈ vol_arrays inp -> vol ∈ vol_array -> (0 <= vol)%R) ->
  within_unit (prho inp) -> within_unit (pz inp) ->
  shift_and_bin inp st = Ok tt st' ->
  exists d dx dy dz,
    grows_by BinnedSpv d st st' k /\ grows_by BinnedPxSpv dx st st' k /\
    grows_by BinnedPySpv dy st st' k /\ grows_by BinnedPzSpv dz st st' k /\
    (0 <= d)%R /\ (Rabs dx <= d)%R /\ (Rabs dy <= d)%R /\ (Rabs dz <= d)%R.
Proof.
  intros Hsp Hvol Hprho Hpz Hrun. unfold shift_and_bin in Hrun.
  apply bind_Ok in Hrun as ([] & st1 & Hpro & Hrun).
  apply prologue_Ok in Hpro as [Hvalid ->].
  destruct Hvalid as (Hbw & Hos & _).
  destruct (doms_direction_bound inp Hbw Hos Hsp Hvol Hprho Hpz _ _ _ k Hrun)
    as (d & dx & dy & dz & G & Gx & Gy & Gz & B).
  exists d, dx, dy, dz.
  repeat (split; [assumption|]). exact B.
Qed.

Lemma direction_sums_bounded_witness :
  exists st',
    shift_and_bin (ex_table 1 1 [ex_origin]) ex_state = Ok tt st' /\
    exists d dx dy dz,
      grows_by BinnedSpv d ex_state st' 0 /\
      grows_by BinnedPxSpv dx ex_state st' 0 /\
      grows_by BinnedPySpv dy ex_state st' 0 /\
      grows_by BinnedPzSpv dz ex_state st' 0 /\
      (0 <= d)%R /\ (Rabs dx <= d)%R /\ (Rabs dy <= d)%R /\ (Rabs dz <= d)%R.
Proof.
  destruct (ex_call 1 0 0 0 ltac:(lra) ltac:(lra) ltac:(lra))
    as (px' & py' & pz' & Hrun).
  assert (forall (c : R) (P : R -> Prop) row p,
            P c -> row ∈ [[c; c]] -> p ∈ row -> P p) as Hall.
  { intros c P row p Hc Hrow Hp.
    apply list_elem_of_singleton in Hrow as ->.
    repeat (apply elem_of_cons in Hp as [-> | Hp]; [exact Hc|]). inversion Hp. }
  eexists. split; [exact Hrun|].
  apply (direction_sums_bounded (ex_table 1 1 [ex_origin]) ex_state _ 0%nat);
    [| | | |exact Hrun].
  - intros row p. apply (Hall 1%R (fun p => 0 <= p)%R). lra.
  - intros row p Hrow Hp. simpl in Hrow.
    apply list_elem_of_singleton in Hrow as ->.
    apply list_elem_of_singleton in Hp as ->. lra.
  - intros row p. apply (Hall 1%R (fun p => Rabs p <= 1)%R).
    rewrite Rabs_R1. lra.
  - intros row p. apply (Hall 0%R (fun p => Rabs p <= 1)%R).
    rewrite Rabs_R0. lra.
Defined.
